(** * KOTOR II plugin for Mod Organizer 2: layout checker, texture overlay
      resolver and save-thumbnail decoder

    Shallow embedding of [plugins/basic_games/games/game_kotor2.py].

    - [PyStr]    : the Python [str] / [pathlib] / [os.path] operations the
                   plugin calls, on ASCII strings.
    - [Tga]      : [Kotor2SaveGame.getScreenshot], from the bytes of the file
                   to the image of the pixmap returned.
    - [Textures] : [Kotor2TextureTab.refresh], [_iter_override_roots],
                   [_toggle_hidden] and [_unhide_all].
    - [ModData]  : [Kotor2ModDataChecker] ([dataLooksValid], [fix],
                   [_cleanup_root]) over a model of the host's [IFileTree].
    - [Game]     : [StarWarsKotor2Game._init_texture_tab] and [mappings].
*)

From Stdlib Require Import List Bool Arith NArith Lia Ascii String.
From Stdlib Require Import Strings.Byte.
From Stdlib Require Import Sorting.Sorted Permutation.
Import ListNotations.

Open Scope string_scope.
Open Scope list_scope.
Open Scope nat_scope.

(* ================================================================== *)
(** ** Python strings *)
(* ================================================================== *)

Module PyStr.

(** [c.lower()] on one ASCII character: 'A'..'Z' are shifted by 32. *)
Definition lower_ascii (c : ascii) : ascii :=
  let n := nat_of_ascii c in
  if (65 <=? n) && (n <=? 90) then ascii_of_nat (n + 32) else c.

(** [s.lower()] *)
Fixpoint lower (s : string) : string :=
  match s with
  | EmptyString => EmptyString
  | String c s' => String (lower_ascii c) (lower s')
  end.

(** [s[:len(s)-n]] for a literal [n], i.e. Python's [s[:-n]] with [n > 0]:
    empty when the string is shorter than [n]. *)
Definition drop_last (n : nat) (s : string) : string :=
  substring 0 (String.length s - n) s.

(** [s.endswith(suf)] *)
Definition endswith (s suf : string) : bool :=
  (String.length suf <=? String.length s) &&
  String.eqb (substring (String.length s - String.length suf)
                        (String.length suf) s) suf.

(** [s.endswith(t)] for a tuple [t] of suffixes. *)
Definition endswith_any (s : string) (sufs : list string) : bool :=
  existsb (endswith s) sufs.

(** [x in xs] for strings. *)
Definition mem (x : string) (xs : list string) : bool :=
  existsb (String.eqb x) xs.

(** [s.rfind(c)]: position of the last occurrence of [c]. *)
Fixpoint rfind (c : ascii) (s : string) : option nat :=
  match s with
  | EmptyString => None
  | String d s' =>
      match rfind c s' with
      | Some i => Some (S i)
      | None => if Ascii.eqb c d then Some 0 else None
      end
  end.

(** [s[i:]] *)
Definition from (i : nat) (s : string) : string :=
  substring i (String.length s - i) s.

(** [PurePath(rel).name] for a posix-style relative path: what follows the
    last ['/']. *)
Definition path_name (rel : string) : string :=
  match rfind "/"%char rel with
  | Some i => from (S i) rel
  | None => rel
  end.

(** [PurePath.suffix] of a file name:
    [i = name.rfind('.'); name[i:] if 0 < i < len(name) - 1 else ''] *)
Definition name_suffix (name : string) : string :=
  match rfind "."%char name with
  | Some i =>
      if (0 <? i) && (i <? String.length name - 1) then from i name else ""
  | None => ""
  end.

(** [Path(rel).suffix] *)
Definition path_suffix (rel : string) : string := name_suffix (path_name rel).

(** [Path(rel).with_suffix("").as_posix()]: the old suffix, when there is
    one, is cut from the end of the name. *)
Definition with_suffix_empty (rel : string) : string :=
  drop_last (String.length (path_suffix rel)) rel.

(** [s.lstrip(".")] *)
Fixpoint lstrip_dot (s : string) : string :=
  match s with
  | String c s' => if Ascii.eqb c "."%char then lstrip_dot s' else s
  | EmptyString => EmptyString
  end.

(** [os.path.splitext(name)[1]] for a name without separators: the text
    from the last dot on, unless only dots precede it. *)
Fixpoint all_dots (s : string) : bool :=
  match s with
  | EmptyString => true
  | String c s' => Ascii.eqb c "."%char && all_dots s'
  end.

Definition splitext_ext (name : string) : string :=
  match rfind "."%char name with
  | Some i => if all_dots (substring 0 i name) then "" else from i name
  | None => ""
  end.

(** ["/".join(parts)] *)
Fixpoint join_posix (parts : list string) : string :=
  match parts with
  | [] => ""
  | [p] => p
  | p :: ps => (p ++ "/" ++ join_posix ps)%string
  end.

End PyStr.

(* ================================================================== *)
(** ** Save thumbnail decoder ([Kotor2SaveGame.getScreenshot]) *)
(* ================================================================== *)

Module Tga.

(** Python slices with non-negative bounds: [l[a:b]]. *)
Definition slice {A} (l : list A) (a b : nat) : list A :=
  firstn (b - a) (skipn a l).

(** [l[a:b] = v] on a [bytearray] (the target may change length). *)
Definition slice_assign {A} (l : list A) (a b : nat) (v : list A) : list A :=
  firstn a l ++ v ++ skipn (Nat.max a b) l.

(** [l[i] = x] for [i < len(l)]. *)
Fixpoint set_nth {A} (l : list A) (i : nat) (x : A) : list A :=
  match l, i with
  | [], _ => []
  | _ :: t, 0 => x :: t
  | h :: t, S j => h :: set_nth t j x
  end.

(** [struct.unpack_from("<H", data, off)]; [None] stands for the
    [struct.error] raised on a short buffer. *)
Definition unpack_H (data : list byte) (off : nat) : option nat :=
  match nth_error data off, nth_error data (S off) with
  | Some lo, Some hi => Some (Byte.to_nat lo + 256 * Byte.to_nat hi)
  | _, _ => None
  end.

Inductive format := Format_RGB888 | Format_RGBA8888.

(** What is handed to [QImage(bytes(flipped), width, height, fmt)]. *)
Record pixbuf := mkPixbuf {
  pb_width : nat;
  pb_height : nat;
  pb_format : format;
  pb_bytes : list byte
}.

(** First loop: [for y in range(height): flipped[y*rs:(y+1)*rs] =
    img[src_y*rs:(src_y+1)*rs]] with [src_y = height - 1 - y]. *)
Definition flip_step (img : list byte) (height row_size : nat)
    (flipped : list byte) (y : nat) : list byte :=
  let src_y := height - 1 - y in
  slice_assign flipped (y * row_size) ((y + 1) * row_size)
               (slice img (src_y * row_size) ((src_y + 1) * row_size)).

Definition flip_rows (img : list byte) (height row_size : nat) : list byte :=
  fold_left (flip_step img height row_size) (seq 0 height)
            (repeat x00 (List.length img)).

(** [flipped[i], flipped[i+2] = flipped[i+2], flipped[i]]; [None] is the
    [IndexError]. *)
Definition swap_step (flipped : option (list byte)) (i : nat)
    : option (list byte) :=
  match flipped with
  | None => None
  | Some fl =>
      match nth_error fl (i + 2), nth_error fl i with
      | Some r, Some b => Some (set_nth (set_nth fl i r) (i + 2) b)
      | _, _ => None
      end
  end.

(** [range(0, n, step)] for [step > 0]. *)
Definition range_step (n step : nat) : list nat :=
  map (fun k => k * step) (seq 0 ((n + step - 1) / step)).

Definition swap_channels (flipped : list byte) (bpp_bytes : nat)
    : option (list byte) :=
  fold_left swap_step (range_step (List.length flipped) bpp_bytes)
            (Some flipped).

(** Lines 64-85 and the arguments of line 87: from the bytes of the file to
    what is handed to [QImage]; [None] is the early return of line 69 or
    an exception raised on the way. *)
Definition qimage_arguments (data : list byte) : option pixbuf :=
  match unpack_H data 12, unpack_H data 14 with
  | Some width, Some height =>
      match nth_error data 16 with
      | Some bppb =>
          let bpp := Byte.to_nat bppb in
          if negb ((bpp =? 24) || (bpp =? 32)) then None
          else
            match nth_error data 0 with
            | Some idb =>
                let id_len := Byte.to_nat idb in
                let offset := 18 + id_len in
                let img := skipn offset data in
                let bpp_bytes := bpp / 8 in
                let row_size := width * bpp_bytes in
                let flipped := flip_rows img height row_size in
                match swap_channels flipped bpp_bytes with
                | Some fl =>
                    Some (mkPixbuf width height
                            (if bpp =? 24 then Format_RGB888
                             else Format_RGBA8888) fl)
                | None => None
                end
            | None => None
            end
      | None => None
      end
  | _, _ => None
  end.

(** *** The image ([QImage(bytes(flipped), width, height, fmt)])

    The constructor is given no [bytesPerLine]: Qt then takes every scanline
    to start on a 32-bit boundary of the buffer. *)

Definition depth_of (fmt : format) : nat :=
  match fmt with
  | Format_RGB888 => 24
  | Format_RGBA8888 => 32
  end.

(** [((width * depth + 31) >> 5) << 2] *)
Definition bytes_per_line (width : nat) (fmt : format) : nat :=
  (width * depth_of fmt + 31) / 32 * 4.

(** The bytes of scanline [y]: those of the buffer from [y * bytes_per_line]
    on; [None] stands for a byte past the end of the buffer, which the file
    does not determine. *)
Definition scanline (pb : pixbuf) (y : nat) : list (option byte) :=
  map (nth_error (pb_bytes pb))
      (seq (y * bytes_per_line (pb_width pb) (pb_format pb))
           (pb_width pb * (depth_of (pb_format pb) / 8))).

(** The pixels of an image, row by row. *)
Record image := mkImage {
  im_width : nat;
  im_height : nat;
  im_format : format;
  im_rows : list (list (option byte))
}.

(** [None] is the null image of a width or height of zero. *)
Definition QImage (pb : pixbuf) : option image :=
  if (pb_width pb =? 0) || (pb_height pb =? 0) then None
  else Some (mkImage (pb_width pb) (pb_height pb) (pb_format pb)
               (map (scanline pb) (seq 0 (pb_height pb)))).

(** [getScreenshot] once the file has been read: the image [qimg] from a
    copy of which the returned pixmap is made.  [None] is the null pixmap:
    [QPixmap()] at lines 69 and 91, or the pixmap of a null image. *)
Definition getScreenshot (data : list byte) : option image :=
  match qimage_arguments data with
  | Some pb => QImage pb
  | None => None
  end.

(** A pixel of the payload as stored (blue, green, red) and its image in the
    output order (red, green, blue). *)
Definition bgr := (byte * byte * byte)%type.

Definition px_bytes (p : bgr) : list byte :=
  let '(b, g, r) := p in [b; g; r].

Definition swap_rb (p : bgr) : bgr :=
  let '(b, g, r) := p in (r, g, b).

Definition rows_bytes (rows : list (list bgr)) : list byte :=
  List.concat (map (fun row => List.concat (map px_bytes row)) rows).

End Tga.


(* ================================================================== *)
(** ** Python dictionaries, in insertion order *)
(* ================================================================== *)

Module PyDict.

Fixpoint dict_get {V} (d : list (string * V)) (k : string) : option V :=
  match d with
  | [] => None
  | (k', v) :: d' => if String.eqb k' k then Some v else dict_get d' k
  end.

Definition dict_in {V} (d : list (string * V)) (k : string) : bool :=
  match dict_get d k with Some _ => true | None => false end.

(** [d[k] = v] *)
Fixpoint dict_set {V} (d : list (string * V)) (k : string) (v : V)
    : list (string * V) :=
  match d with
  | [] => [(k, v)]
  | (k', v') :: d' =>
      if String.eqb k' k then (k', v) :: d' else (k', v') :: dict_set d' k v
  end.

(** [d.values()] *)
Definition dict_values {V} (d : list (string * V)) : list V := map snd d.

End PyDict.

(* ================================================================== *)
(** ** Texture tab ([Kotor2TextureTab]) *)
(* ================================================================== *)

Module Textures.

Import PyStr PyDict.

Definition _EXTENSIONS : list string := [".tga"; ".tpc"; ".txi"; ".dds"].

(** Sort weights for the Err column (highest first). *)
Definition _WEIGHT_NONE := 0.
Definition _WEIGHT_HIDDEN := 1.
Definition _WEIGHT_MINOR := 2.
Definition _WEIGHT_MAJOR := 3.

(** *** Sets of extensions ([dict[str, set[str]]]) *)

(** [s.add(x)] *)
Definition set_add (s : list string) (x : string) : list string :=
  if mem x s then s else s ++ [x].

(** [d.setdefault(k, set()).add(x)] *)
Definition setdefault_add (d : list (string * list string)) (k x : string)
    : list (string * list string) :=
  match dict_get d k with
  | Some s => dict_set d k (set_add s x)
  | None => dict_set d k (set_add [] x)
  end.

(** *** Stable sorting

    [sorted] and [list.sort] are stable; so is the [std::stable_sort] behind
    [QTreeWidget.sortItems].  [le x y] says that [x] may stand before [y]. *)

Fixpoint insert_sorted {A} (le : A -> A -> bool) (x : A) (l : list A)
    : list A :=
  match l with
  | [] => [x]
  | y :: l' => if le x y then x :: l else y :: insert_sorted le x l'
  end.

Fixpoint stable_sort {A} (le : A -> A -> bool) (l : list A) : list A :=
  match l with
  | [] => []
  | x :: l' => insert_sorted le x (stable_sort le l')
  end.

(** [sorted(l, key=lambda e: key(e))] with string keys. *)
Definition sorted_by_key {A} (key : A -> string) (l : list A) : list A :=
  stable_sort (fun x y => String.leb (key x) (key y)) l.

(** *** Scanning the override roots *)

(** One path yielded by [root.rglob("*")]: the directories between the root
    and the entry, the entry's name, and whether [is_file()] holds. *)
Record fsnode := mkNode {
  n_dirs : list string;
  n_name : string;
  n_is_file : bool
}.

(** [(source, root)] as yielded by [_iter_override_roots], the root being
    given by what [rglob] enumerates below it. *)
Definition labelled_root := (string * list fsnode)%type.

Record scan_state := mkScan {
  winners : list (string * (string * string));
  hidden_entries : list (string * string)
}.

Definition is_hidden_name (name : string) : bool := endswith name ".mohidden".

Definition target_name (name : string) : string :=
  if is_hidden_name name then drop_last 9 name else name.

(** [rel]: the relative posix path, with the marker cut from a hidden name. *)
Definition rel_of (f : fsnode) : string :=
  join_posix (n_dirs f ++ [target_name (n_name f)]).

(** Body of the loop over [root.rglob("*")] (lines 227-241 and 245-259). *)
Definition scan_file (source : string) (st : scan_state) (f : fsnode)
    : scan_state :=
  if negb (n_is_file f) then st
  else
    let is_hidden := is_hidden_name (n_name f) in
    let target_ext := lower (name_suffix (target_name (n_name f))) in
    if negb (mem target_ext _EXTENSIONS) then st
    else
      let rel := rel_of f in
      let key := lower rel in
      if is_hidden then
        mkScan (winners st)
               (hidden_entries st ++ [(source, (rel ++ ".mohidden")%string)])
      else if negb (dict_in (winners st) key) then
        mkScan (dict_set (winners st) key (source, rel)) (hidden_entries st)
      else st.

Definition scan_root (st : scan_state) (r : labelled_root) : scan_state :=
  fold_left (scan_file (fst r)) (snd r) st.

(** The two scanning loops: [sources] in the order in which they are
    visited, then the game's own override directory when there is one. *)
Definition resolve (sources : list labelled_root) (base : option labelled_root)
    : scan_state :=
  let st := fold_left scan_root sources (mkScan [] []) in
  match base with
  | Some g => scan_root st g
  | None => st
  end.

Definition startswith (s p : string) : bool := String.prefix p s.

Definition is_mod_label (source : string) : bool := startswith source "Mod: ".

(** [mod_entries] and [game_entry] of [refresh] (lines 217-224). *)
Definition mod_entries (roots : list labelled_root) : list labelled_root :=
  filter (fun r => is_mod_label (fst r)) roots.

Definition game_entry (roots : list labelled_root) : option labelled_root :=
  fold_left (fun g r => if is_mod_label (fst r) then g else Some r) roots None.

(** Lines 214-259 of [refresh]: the mods are visited in reverse. *)
Definition collect (roots : list labelled_root) : scan_state :=
  resolve (rev (mod_entries roots)) (game_entry roots).

(** *** Entries, conflict groups and rows *)

(** The fields of the [entries] dictionaries that decide grouping, flags
    and order; the remaining ones ([mod], [type], [size], [date], [path])
    are display texts read from the file system. *)
Record entry := mkEntry {
  e_name : string;
  e_source : string;
  e_rel : string;
  e_base : string;
  e_ext : string;
  e_hidden : bool
}.

Definition base_key_of (rel : string) : string := lower (with_suffix_empty rel).

Definition ext_lower_of (rel : string) : string :=
  lstrip_dot (lower (path_suffix rel)).

(** [items] (line 261). *)
Definition items_of (w : list (string * (string * string)))
    : list (string * string) :=
  sorted_by_key (fun i => lower (snd i)) (dict_values w).

Definition winner_entry (i : string * string) : entry :=
  let '(source, rel) := i in
  mkEntry (path_name rel) source rel (base_key_of rel) (ext_lower_of rel) false.

(** [base_exts] after the loop over [items] (lines 263-289). *)
Definition base_exts_of (items : list (string * string))
    : list (string * list string) :=
  fold_left (fun d i => setdefault_add d (base_key_of (snd i))
                                       (ext_lower_of (snd i)))
            items [].

Definition hidden_entry (h : string * string) : entry :=
  let '(source, rel) := h in
  let marked := endswith (lower rel) ".mohidden" in
  mkEntry (path_name rel) source rel
          (if marked then base_key_of (drop_last 9 rel) else base_key_of rel)
          (if marked then ext_lower_of (drop_last 9 rel) else ext_lower_of rel)
          true.

(** [entries] after both loops (lines 266-332). *)
Definition entries_of (st : scan_state) : list entry :=
  map winner_entry (items_of (winners st)) ++
  map hidden_entry (hidden_entries st).

(** [conflict_color]: the colour name of the brush, if any. *)
Definition conflict_color (exts : list string) : option string :=
  let has_tpc := mem "tpc" exts in
  let has_txi := mem "txi" exts in
  let has_tga := mem "tga" exts in
  if has_tpc && has_txi then Some "#ffcccc"
  else if has_tpc && has_tga then Some "#fff4cc"
  else None.

(** The flag chosen at lines 351-359. *)
Definition conflict_flag (exts : list string) : string :=
  let has_tpc := mem "tpc" exts in
  let has_txi := mem "txi" exts in
  let has_tga := mem "tga" exts in
  if has_tpc && has_txi then "!!"
  else if has_tpc && has_tga then "!"
  else "".

Record conflicts := mkConflicts {
  conflict_brushes : list (string * string);
  conflict_flags : list (string * string)
}.

(** Body of the loop over [base_exts.items()] (lines 347-359). *)
Definition conflict_step (c : conflicts) (be : string * list string)
    : conflicts :=
  let '(base, exts) := be in
  if 1 <? List.length exts then
    mkConflicts
      (match conflict_color exts with
       | Some brush => dict_set (conflict_brushes c) base brush
       | None => conflict_brushes c
       end)
      (dict_set (conflict_flags c) base (conflict_flag exts))
  else c.

Definition conflicts_of (base_exts : list (string * list string)) : conflicts :=
  fold_left conflict_step base_exts (mkConflicts [] []).

Definition rel_key (e : entry) : string := lower (e_rel e).

(** Lines 361-366. *)
Definition conflict_entries (c : conflicts) (es : list entry) : list entry :=
  sorted_by_key rel_key
    (filter (fun e => dict_in (conflict_brushes c) (e_base e)
                      && negb (e_hidden e)) es).

Definition normal_entries (c : conflicts) (es : list entry) : list entry :=
  sorted_by_key rel_key
    (filter (fun e => negb (dict_in (conflict_brushes c) (e_base e))
                      && negb (e_hidden e)) es).

Definition hidden_only_entries (es : list entry) : list entry :=
  sorted_by_key rel_key (filter e_hidden es).

(** A row of the tree widget: the Err flag, the entry, and the weight kept
    under [UserRole + 2]. *)
Record row := mkRow {
  r_flag : string;
  r_entry : entry;
  r_weight : nat
}.

(** Body of the loop at lines 371-394. *)
Definition make_row (c : conflicts) (e : entry) : row :=
  let flag :=
    if e_hidden e then "."
    else match dict_get (conflict_flags c) (e_base e) with
         | Some f => f
         | None => ""
         end in
  let weight :=
    if String.eqb flag "!!" then _WEIGHT_MAJOR
    else if String.eqb flag "!" then _WEIGHT_MINOR
    else if String.eqb flag "." then _WEIGHT_HIDDEN
    else _WEIGHT_NONE in
  mkRow flag e weight.

(** [_TextureItem.__lt__] when the sort column is 0. *)
Definition item_lt (a b : row) : bool := r_weight a <? r_weight b.

(** [self._tree.sortItems(0, Qt.SortOrder.DescendingOrder)]: a stable sort
    in which [a] stays before [b] unless [a < b]. *)
Definition sortItems_descending (rows : list row) : list row :=
  stable_sort (fun a b => negb (item_lt a b)) rows.

(** The rows in the order in which they are added (line 371). *)
Definition added_rows (st : scan_state) : list row :=
  let es := entries_of st in
  let c := conflicts_of (base_exts_of (items_of (winners st))) in
  map (make_row c)
      (conflict_entries c es ++ normal_entries c es ++ hidden_only_entries es).

(** The listing [refresh] leaves in the tree widget. *)
Definition listing (st : scan_state) : list row :=
  sortItems_descending (added_rows st).

Definition refresh (roots : list labelled_root) : list row :=
  listing (collect roots).

(** *** Hiding and unhiding ([_toggle_hidden]) *)

(** A path as a parent directory and a final name. *)
Record path := mkPath { p_parent : string; p_name : string }.

Definition path_eqb (a b : path) : bool :=
  String.eqb (p_parent a) (p_parent b) && String.eqb (p_name a) (p_name b).

(** [path.with_name(name)] *)
Definition with_name (p : path) (name : string) : path :=
  mkPath (p_parent p) name.

(** The file system as the list of the paths that exist. *)
Definition filesystem := list path.

Definition exists_path (fs : filesystem) (p : path) : bool :=
  existsb (path_eqb p) fs.

(** [src.rename(dst)]: [None] stands for the [OSError] raised when [src] is
    missing or [dst] is already there. *)
Definition rename (fs : filesystem) (src dst : path) : option filesystem :=
  if exists_path fs src && negb (exists_path fs dst) then
    Some (map (fun q => if path_eqb q src then dst else q) fs)
  else None.

(** The [new_path] chosen by [_toggle_hidden]; [None] is the bare [return]
    of the last branch. *)
Definition toggle_target (p : path) (currently_hidden : bool) : option path :=
  if currently_hidden && endswith (p_name p) ".mohidden" then
    Some (with_name p (drop_last 9 (p_name p)))
  else if negb currently_hidden then
    Some (with_name p (p_name p ++ ".mohidden")%string)
  else None.

(** [_toggle_hidden]: the file system it leaves behind.  A failed rename is
    logged and swallowed; the closing [refresh] only reads. *)
Definition _toggle_hidden (fs : filesystem) (p : path) (currently_hidden : bool)
    : filesystem :=
  match toggle_target p currently_hidden with
  | Some q =>
      match rename fs p q with
      | Some fs' => fs'
      | None => fs
      end
  | None => fs
  end.

(** *** Unhide all ([_unhide_all]) *)

(** What [_unhide_all] reads from one row of the tree widget: the hidden
    flag kept under [UserRole + 1] and the path given by [_item_path]. *)
Record tree_item := mkItem {
  it_hidden : bool;
  it_path : option path
}.

(** The list [paths] built by the first loop (lines 449-454). *)
Definition unhide_candidates (items : list tree_item) : list path :=
  flat_map
    (fun it =>
       match it_path it with
       | Some p =>
           if it_hidden it && endswith (p_name p) ".mohidden" then [p] else []
       | None => []
       end)
    items.

(** One pass of the second loop (lines 456-460): the rename is tried and a
    failure is logged and swallowed. *)
Definition try_unhide (fs : filesystem) (p : path) : filesystem :=
  match rename fs p (with_name p (drop_last 9 (p_name p))) with
  | Some fs' => fs'
  | None => fs
  end.

Definition _unhide_all (fs : filesystem) (items : list tree_item)
    : filesystem :=
  fold_left try_unhide (unhide_candidates items) fs.

(** *** Override roots ([_iter_override_roots]) *)

(** An active mod as [_iter_override_roots] sees it: its folder name and,
    for each of the two candidates [override] and [Override], what [rglob]
    enumerates below it when it exists and is a directory. *)
Record mod_dir := mkMod {
  m_name : string;
  m_override : option (list fsnode);
  m_Override : option (list fsnode)
}.

(** The first candidate that exists, labelled with the mod. *)
Definition override_root (m : mod_dir) : option labelled_root :=
  match m_override m with
  | Some files => Some (("Mod: " ++ m_name m)%string, files)
  | None =>
      match m_Override m with
      | Some files => Some (("Mod: " ++ m_name m)%string, files)
      | None => None
      end
  end.

(** The active mods in the order of [_active_mod_paths], then the game's
    override directory when it exists. *)
Definition _iter_override_roots (mods : list mod_dir)
    (game : option (list fsnode)) : list labelled_root :=
  flat_map (fun m => match override_root m with
                     | Some r => [r]
                     | None => []
                     end) mods
  ++ match game with
     | Some files => [("Game Override", files)]
     | None => []
     end.

(** *** Counters of the header label (lines 369-400) *)

Definition hidden_count (st : scan_state) : nat :=
  List.length (hidden_entries st).

Definition major_errors (st : scan_state) : nat :=
  List.length (filter (fun r => String.eqb (r_flag r) "!!") (added_rows st)).

Definition minor_errors (st : scan_state) : nat :=
  List.length
    (filter (fun r => negb (String.eqb (r_flag r) "!!")
                      && String.eqb (r_flag r) "!")
            (added_rows st)).

(** The number announced as "texture files". *)
Definition texture_files (st : scan_state) : nat :=
  List.length (items_of (winners st)) + hidden_count st.

End Textures.

(* ================================================================== *)
(** ** Mod layout checker ([Kotor2ModDataChecker]) *)
(* ================================================================== *)

Module ModData.

Import PyStr PyDict.

Definition _valid_map : list (string * list string) :=
  [("override", [".tga"; ".dds"; ".mdl"; ".mdx"; ".uti"; ".utc";
                 ".ncs"; ".nss"; ".2da"; ".dlg"; ".wav"; ".mp3";
                 ".bik"; ".txi"; ".tpc"]);
   ("movies", [".bik"]);
   ("data", [".bif"]);
   ("lips", [".mod"]);
   ("modules", [".erf"; ".rim"; ".mod"]);
   ("streammusic", [".wav"]);
   ("streamsounds", [".wav"]);
   ("streamvoice", [".wav"]);
   ("texturepacks", [".erf"])].

Definition _ignored_exts : list string :=
  [".txt"; ".pdf"; ".png"; ".jpg"; ".jpeg"; ".bmp"; ".gif";
   ".md"; ".rtf"; ".doc"; ".docx"; ".ini"; ".html"; ".url";
   ".log"; ".bak"; ".xml"; ".docx#"].

Definition _restricted_dirs : list string := ["data"].

(** [self._valid_map.keys()] *)
Definition valid_keys : list string := map fst _valid_map.

(** [tuple(ext for exts in self._valid_map.values() for ext in exts)] *)
Definition all_valid_exts : list string := flat_map snd _valid_map.

Inductive CheckReturn := INVALID | FIXABLE | VALID.

(** *** The host's [IFileTree]

    An entry is a file or a directory with its children in iteration order;
    a tree is given by the children of its unnamed root.  The host matches
    names without regard to case and keeps them unique among siblings, so an
    entry is identified by the names on the way to it. *)

#[warnings="-register-all"]
Inductive entry :=
| File (name : string)
| Dir (name : string) (children : list entry).

Definition tree := list entry.

Definition name (e : entry) : string :=
  match e with File n => n | Dir n _ => n end.

Definition is_directory (e : entry) : bool :=
  match e with File _ => false | Dir _ _ => true end.

(** [list(e)] *)
Definition children (e : entry) : list entry :=
  match e with File _ => [] | Dir _ cs => cs end.

Definition same_name (n : string) (e : entry) : bool :=
  String.eqb (lower (name e)) (lower n).

Fixpoint map_first (p : entry -> bool) (f : entry -> entry) (cs : list entry)
    : list entry :=
  match cs with
  | [] => []
  | c :: cs' => if p c then f c :: cs' else c :: map_first p f cs'
  end.

Fixpoint remove_first (p : entry -> bool) (cs : list entry) : list entry :=
  match cs with
  | [] => []
  | c :: cs' => if p c then cs' else c :: remove_first p cs'
  end.

(** The entry at a path of names. *)
Fixpoint get (cs : list entry) (path : list string) : option entry :=
  match path with
  | [] => None
  | n :: rest =>
      match find (same_name n) cs with
      | Some e =>
          match rest with
          | [] => Some e
          | _ :: _ =>
              match e with
              | Dir _ cs' => get cs' rest
              | File _ => None
              end
          end
      | None => None
      end
  end.

(** The children of the directory at a path (the root for the empty one). *)
Fixpoint dir_at (cs : list entry) (dirpath : list string)
    : option (list entry) :=
  match dirpath with
  | [] => Some cs
  | n :: rest =>
      match find (same_name n) cs with
      | Some (Dir _ cs') => dir_at cs' rest
      | _ => None
      end
  end.

(** Rewrite the children of the directory at a path. *)
Fixpoint update_at (cs : list entry) (dirpath : list string)
    (f : list entry -> list entry) : list entry :=
  match dirpath with
  | [] => f cs
  | n :: rest =>
      map_first (same_name n)
        (fun e => match e with
                  | Dir m cs' => Dir m (update_at cs' rest f)
                  | File _ => e
                  end)
        cs
  end.

(** Find or create the directories of a path; [None] when a file is in the
    way.  New directories are added after the existing entries. *)
Fixpoint create_tree (cs : list entry) (dirpath : list string)
    : option (list entry) :=
  match dirpath with
  | [] => Some cs
  | n :: rest =>
      match find (same_name n) cs with
      | Some (Dir _ cs') =>
          match create_tree cs' rest with
          | Some cs'' =>
              Some (map_first (same_name n)
                      (fun e => match e with
                                | Dir m _ => Dir m cs''
                                | File _ => e
                                end) cs)
          | None => None
          end
      | Some (File _) => None
      | None =>
          match create_tree [] rest with
          | Some fresh => Some (cs ++ [Dir n fresh])
          | None => None
          end
      end
  end.

(** [filetree.addDirectory(name)]; [None] is the [RuntimeError] the host
    raises when the directory cannot be created. *)
Definition addDirectory (t : tree) (n : string) : option tree :=
  create_tree t [n].

Fixpoint split_last (path : list string) : option (list string * string) :=
  match path with
  | [] => None
  | [n] => Some ([], n)
  | d :: rest =>
      match split_last rest with
      | Some (ds, n) => Some (d :: ds, n)
      | None => None
      end
  end.

(** [entry.detach()] for the entry at a path. *)
Definition detach_at (t : tree) (path : list string) : tree :=
  match split_last path with
  | Some (dirpath, n) => update_at t dirpath (remove_first (same_name n))
  | None => t
  end.

Definition rename (e : entry) (n : string) : entry :=
  match e with File _ => File n | Dir _ cs => Dir n cs end.

(** [filetree.move(entry, path)] with the default policy, under which the
    call fails when the destination already holds an entry of that name.
    [src] is the path of the entry, [dst] the split destination; missing
    directories of the destination are created.  (The host refuses to move a
    directory below itself; the plugin never asks for it.) *)
Definition move (t : tree) (src dst : list string) : tree :=
  match get t src, split_last dst with
  | Some e, Some (dirpath, n) =>
      match create_tree t dirpath with
      | Some t1 =>
          match dir_at t1 dirpath with
          | Some target =>
              if existsb (same_name n) target then t1
              else update_at (detach_at t1 src) dirpath
                             (fun cs => cs ++ [rename e n])
          | None => t1
          end
      | None => t
      end
  | _, _ => t
  end.

(** *** Helpers *)

(** A directory met by [_iter_dirs], with the names of the directories
    above it, outermost first (the root has none). *)
Definition located := (list string * entry)%type.

Definition path_of (d : located) : list string := fst d ++ [name (snd d)].

(** [d.parent().name()]; the root's name is empty. *)
Definition parent_name (d : located) : string := last (fst d) "".

Fixpoint walk (parents : list string) (e : entry) : list located :=
  match e with
  | File _ => []
  | Dir n cs => (parents, e) :: flat_map (walk (parents ++ [n])) cs
  end.

(** [self._iter_dirs(filetree)]: every directory, parents first. *)
Definition _iter_dirs (t : tree) : list located := flat_map (walk []) t.

Definition _find_dirs_named (t : tree) (name_lower : string) : list located :=
  filter (fun d => String.eqb (lower (name (snd d))) (lower name_lower))
         (_iter_dirs t).

(** *** Validation ([dataLooksValid]) *)

(** A file whose [os.path.splitext] extension is not ignored. *)
Definition is_mod_file (e : entry) : bool :=
  negb (is_directory e)
  && negb (mem (splitext_ext (lower (name e))) _ignored_exts).

(** [parent_has_valid_dir] *)
Definition parent_has_valid_dir (d : located) : bool :=
  existsb (fun p => mem (lower p) valid_keys) (fst d).

(** Line 572: some directory is named [tslpatchdata]. *)
Definition has_patch_data (t : tree) : bool :=
  match _find_dirs_named t "tslpatchdata" with [] => false | _ => true end.

(** Lines 577-579: some directory bears a restricted name. *)
Definition has_restricted_dir (t : tree) : bool :=
  existsb (fun d => mem (lower (name (snd d))) _restricted_dirs)
          (_iter_dirs t).

(** Lines 600-605, for one root-level directory that is not a game folder. *)
Definition wraps_mod_files (e : entry) : bool :=
  existsb is_mod_file (children e).

(** Lines 609-617. *)
Definition wraps_game_dir (e : entry) : bool :=
  existsb (fun child =>
             is_directory child
             && mem (lower (name child)) valid_keys
             && existsb (fun grand => negb (is_directory grand))
                        (children child))
          (children e).

(** Lines 592-617: the loop over the root's entries. *)
Definition has_wrapper_folder (t : tree) : bool :=
  existsb (fun e =>
             is_directory e
             && negb (mem (lower (name e)) valid_keys)
             && (wraps_mod_files e || wraps_game_dir e))
          t.

(** Lines 620-630. *)
Definition has_stray_mod_dir (t : tree) : bool :=
  existsb (fun d =>
             negb (mem (lower (name (snd d))) valid_keys)
             && negb (parent_has_valid_dir d)
             && existsb is_mod_file (children (snd d)))
          (_iter_dirs t).

(** Lines 633-636. *)
Definition has_game_dir (t : tree) : bool :=
  existsb (fun folder =>
             match _find_dirs_named t folder with [] => false | _ => true end)
          valid_keys.

(** Line 640. *)
Definition has_loose_valid_file (t : tree) : bool :=
  existsb (fun e => negb (is_directory e)
                    && endswith_any (lower (name e)) all_valid_exts) t.

(** Line 644. *)
Definition has_dialog_tlk (t : tree) : bool :=
  existsb (fun e => negb (is_directory e)
                    && String.eqb (lower (name e)) "dialog.tlk") t.

Definition dataLooksValid (t : tree) : CheckReturn :=
  if has_patch_data t then FIXABLE
  else if has_restricted_dir t then INVALID
  else if has_wrapper_folder t then FIXABLE
  else if has_stray_mod_dir t then FIXABLE
  else if has_game_dir t then VALID
  else if has_loose_valid_file t then FIXABLE
  else if has_dialog_tlk t then VALID
  else INVALID.

(** *** Root cleanup ([_cleanup_root]) *)

(** [set(self._valid_map.keys()) | {"override", "tslpatchdata"}] *)
Definition valid_top : list string := valid_keys ++ ["override"; "tslpatchdata"].

(** What survives in [override/]: files whose extension is accepted by some
    game folder and is not ignored. *)
Definition kept_in_override (child : entry) : bool :=
  negb (is_directory child)
  && (let ext := splitext_ext (lower (name child)) in
      negb (mem ext _ignored_exts || negb (mem ext all_valid_exts))).

Definition _cleanup_root (t : tree) : tree :=
  let t1 := filter (fun e => mem (lower (name e)) valid_top) t in
  match _find_dirs_named t1 "override" with
  | override :: _ => update_at t1 (path_of override) (filter kept_in_override)
  | [] => t1
  end.

(** *** Fixer ([fix]) *)

(** [QInputDialog.getItem(..., options, 0, False)]: [Some choice] when the
    dialog is accepted, [None] when it is dismissed. *)
Definition dialog := list string -> option string.

(** What one rule of [fix] does: return the tree, raise, or leave the
    decision to the rules after it. *)
Inductive step := Returned (t : tree) | Raised | FellThrough.

(** [for top in list(filetree): if top.name().lower() != n: top.detach()] *)
Definition keep_only (n : string) (t : tree) : tree :=
  filter (fun top => String.eqb (lower (name top)) n) t.

(** The prompt shared by the two interactive rules: [mapping[choice]] is
    moved to the top under [target] and every other top-level entry goes.
    [ok and choice] fails on a dismissed dialog and on an empty choice; a
    choice outside [mapping] is the [KeyError]. *)
Definition choose_and_keep (ask : dialog) (t : tree)
    (display : located -> string) (candidates : list located)
    (target : string) : step :=
  let options := map display candidates in
  let mapping := fold_left (fun m d => dict_set m (display d) d) candidates [] in
  match ask options with
  | Some choice =>
      if String.eqb choice "" then FellThrough
      else
        match dict_get mapping choice with
        | Some selected =>
            Returned (keep_only target (move t (path_of selected) [target]))
        | None => Raised
        end
  | None => FellThrough
  end.

(** Lines 656-684. *)
Definition many_patch_dirs (ask : dialog) (t : tree) : step :=
  let tsl_dirs := _find_dirs_named t "tslpatchdata" in
  if 1 <? List.length tsl_dirs then
    choose_and_keep ask t parent_name tsl_dirs "tslpatchdata"
  else FellThrough.

(** Lines 687-693. *)
Definition one_patch_dir (t : tree) : step :=
  match _find_dirs_named t "tslpatchdata" with
  | [selected] =>
      Returned (keep_only "tslpatchdata"
                          (move t (path_of selected) ["tslpatchdata"]))
  | _ => FellThrough
  end.

(** Lines 698-709: the directories holding a file whose lowered name does
    not end in an ignored extension.  (No directory met by [_iter_dirs]
    lacks a parent, so the guard at line 702 never fires.) *)
Definition has_unignored_file (d : located) : bool :=
  existsb (fun child => negb (is_directory child)
                        && negb (endswith_any (lower (name child))
                                              _ignored_exts))
          (children (snd d)).

Definition valid_dirs (t : tree) : list located :=
  filter has_unignored_file (_iter_dirs t).

(** Lines 712-736. *)
Definition many_mod_dirs (ask : dialog) (t : tree) : step :=
  let vd := valid_dirs t in
  if 1 <? List.length vd then
    choose_and_keep ask t (fun d => name (snd d)) vd "override"
  else FellThrough.

(** [if not self._find_dirs_named(filetree, "override"):
       filetree.addDirectory("override")] *)
Definition ensure_override (t : tree) : option tree :=
  match _find_dirs_named t "override" with
  | [] => addDirectory t "override"
  | _ => Some t
  end.

(** Lines 739-756. *)
Definition root_dirs (t : tree) : list entry := filter is_directory t.

Definition flatten (keep : entry) (t : tree) : option tree :=
  match ensure_override t with
  | Some t1 =>
      let t2 :=
        fold_left
          (fun acc child =>
             if is_directory child then acc
             else move acc [name keep; name child] ["override"; name child])
          (children keep) t1 in
      Some (_cleanup_root t2)
  | None => None
  end.

Definition single_root_dir (t : tree) : step :=
  match root_dirs t with
  | [keep] =>
      match flatten keep t with
      | Some t' => Returned t'
      | None => Raised
      end
  | _ => FellThrough
  end.

(** Lines 763-780. *)
Definition loose_valid (t : tree) : list entry :=
  filter (fun f => negb (endswith_any (lower (name f)) _ignored_exts))
         (filter (fun e => negb (is_directory e)) t).

Definition gather_loose (t : tree) : option tree :=
  match ensure_override t with
  | Some t1 =>
      let t2 :=
        fold_left (fun acc f => move acc [name f] ["override"; name f])
                  (loose_valid t) t1 in
      Some (_cleanup_root t2)
  | None => None
  end.

Definition loose_files (t : tree) : step :=
  match loose_valid t with
  | [] => FellThrough
  | _ :: _ =>
      match gather_loose t with
      | Some t' => Returned t'
      | None => Raised
      end
  end.

(** The two rules that never prompt: what is left of [fix] from line 738
    on.  [None] is an exception leaving the method. *)
Definition fix_unprompted (t : tree) : option tree :=
  match single_root_dir t with
  | Returned t' => Some t'
  | Raised => None
  | FellThrough =>
      match loose_files t with
      | Returned t' => Some t'
      | Raised => None
      | FellThrough => Some t
      end
  end.

(** [fix] ([fix] alone is a keyword here); [None] is an exception leaving
    the method. *)
Definition fix_tree (ask : dialog) (t : tree) : option tree :=
  match many_patch_dirs ask t with
  | Returned t' => Some t'
  | Raised => None
  | FellThrough =>
      match one_patch_dir t with
      | Returned t' => Some t'
      | Raised => None
      | FellThrough =>
          match many_mod_dirs ask t with
          | Returned t' => Some t'
          | Raised => None
          | FellThrough => fix_unprompted t
          end
      end
  end.

End ModData.

(* ================================================================== *)
(** ** Game plugin ([StarWarsKotor2Game]) *)
(* ================================================================== *)

Module Game.

Import PyStr Textures.

(** *** Position of the Textures tab ([_init_texture_tab]) *)

(** The loop over the tab texts (lines 995-1002): the last tab called
    "data" and the last one called "saves", whatever the case. *)
Definition scan_tabs (tabs : list string) : option nat * option nat :=
  fold_left
    (fun found it =>
       let '(i, text) := it in
       let '(data_index, saves_index) := found in
       let text := lower text in
       (if String.eqb text "data" then Some i else data_index,
        if String.eqb text "saves" then Some i else saves_index))
    (combine (seq 0 (List.length tabs)) tabs)
    (None, None).

(** The local [insert_index] when line 1010 is reached (lines 1004-1008). *)
Definition insert_index (tabs : list string) : nat :=
  match scan_tabs tabs with
  | (Some data_index, _) => data_index + 1
  | (None, Some saves_index) => saves_index
  | (None, None) => List.length tabs
  end.

(** [tab_widget.insertTab(index, widget, text)] on the tab texts; an index
    past the end appends. *)
Definition insertTab (index : nat) (text : string) (tabs : list string)
    : list string :=
  firstn index tabs ++ text :: skipn index tabs.

(** [_init_texture_tab]: the tab texts of the widget afterwards.  [managed]
    says whether the managed game is this plugin; [tab_widget] is what
    [findChild] returns, [None] when there is no such widget.  A tab widget
    without tabs is false in a condition (its [len] is its count), so the
    guard of line 992 also returns on it. *)
Definition _init_texture_tab (managed : bool)
    (tab_widget : option (list string)) : option (list string) :=
  if negb managed then tab_widget
  else
    match tab_widget with
    | None => None
    | Some [] => Some []
    | Some tabs => Some (insertTab (insert_index tabs) "Textures" tabs)
    end.

(** *** Mapping of [dialog.tlk] ([mappings]) *)




End Game.

(* ================================================================== *)
(** ** Vocabulary of the statements *)
(* ================================================================== *)

Section DecoderVocabulary.

Import Tga.

(** The 2x2, 24-bit file: 18 header bytes (identifier length, eleven bytes
    the decoder does not look at, width 2, height 2, depth 24, descriptor),
    the identifier, then two rows of two pixels. *)
Definition tga_2x2_24 (idb : byte) (mid ident : list byte) (desc : byte)
    (rows : list (list bgr)) : list byte :=
  idb :: mid ++ [x02; x00; x02; x00; x18; desc] ++ ident ++ rows_bytes rows.

(** A file with a two-byte identifier, and the same file declared 16-bit. *)
Definition sample_mid : list byte :=
  [x00; x02; x00; x00; x00; x00; x00; x00; x00; x00; x00].

Definition sample_16bit : list byte :=
  x00 :: sample_mid ++ [x02; x00; x02; x00; x10; x00] ++
  [x01; x02; x03; x04; x05; x06; x07; x08].

(** The image the claim describes: the rows in reverse order, each pixel
    as red, green, blue. *)
Definition reversed_and_swapped (rows : list (list bgr))
    : list (list (option byte)) :=
  map (fun row => map Some (List.concat (map px_bytes (map swap_rb row))))
      (rev rows).

End DecoderVocabulary.

Section ResolverVocabulary.

Import PyStr PyDict Textures.

(** A visible texture file of a root claims the case-folded form of its
    relative path. *)
Definition claims (k : string) (f : fsnode) : bool :=
  n_is_file f
  && negb (is_hidden_name (n_name f))
  && mem (lower (name_suffix (n_name f))) _EXTENSIONS
  && String.eqb (lower (rel_of f)) k.

(** The first claim on [k] inside one root. *)
Definition first_claim (k : string) (r : labelled_root)
    : option (string * string) :=
  match find (claims k) (snd r) with
  | Some f => Some (fst r, rel_of f)
  | None => None
  end.

(** The first claim on [k] along a list of roots: the overlay as the
    specification words it. *)
Fixpoint first_claimant (k : string) (roots : list labelled_root)
    : option (string * string) :=
  match roots with
  | [] => None
  | r :: rs =>
      match first_claim k r with
      | Some w => Some w
      | None => first_claimant k rs
      end
  end.

Definition base_list (base : option labelled_root) : list labelled_root :=
  match base with Some g => [g] | None => [] end.

(** The files that end up among the hidden entries, and what a root
    contributes to them. *)
Definition hidden_relevant (f : fsnode) : bool :=
  n_is_file f
  && is_hidden_name (n_name f)
  && mem (lower (name_suffix (drop_last 9 (n_name f)))) _EXTENSIONS.

Definition hidden_of_root (r : labelled_root) : list (string * string) :=
  map (fun f => (fst r, (rel_of f ++ ".mohidden")%string))
      (filter hidden_relevant (snd r)).

(** The state of [base_exts] along the loop over the items. *)
Definition group_step (d : list (string * list string)) (i : string * string) :=
  setdefault_add d (base_key_of (snd i)) (ext_lower_of (snd i)).

Definition in_group (d : list (string * list string)) (b x : string) : Prop :=
  exists exts, dict_get d b = Some exts /\ In x exts.

Definition well_formed_groups (d : list (string * list string)) : Prop :=
  NoDup (map fst d) /\ forall b exts, dict_get d b = Some exts -> NoDup exts.

(** Sample roots. *)
Definition tex (dirs : list string) (name : string) : fsnode :=
  mkNode dirs name true.

Definition mod_A : labelled_root := ("Mod: A", [tex ["foo"] "Bar.tpc"]).

Definition mod_B : labelled_root := ("Mod: B", [tex ["foo"] "bar.tpc"]).

Definition game_G : labelled_root :=
  ("Game Override", [tex ["foo"] "BAR.TPC"; tex [] "sky.tga"]).

(** Winners [foo/bar.tpc] and [foo/bar.txi]. *)
Definition st_major : scan_state :=
  resolve [("Mod: A", [tex ["foo"] "bar.tpc"]);
           ("Mod: B", [tex ["foo"] "bar.txi"])] None.

(** One texture and one hidden texture in a single mod. *)
Definition st_hidden_first : scan_state :=
  resolve [("Mod: A", [tex [] "a.tpc"; tex [] "b.tpc.mohidden"])] None.

(** A conflict group, a hidden texture and a plain texture. *)
Definition st_mixed : scan_state :=
  resolve [("Mod: A", [tex [] "x.tpc"; tex [] "x.txi";
                       tex [] "h.tga.mohidden"; tex [] "a.tga"])] None.

(** The claim as worded: a marked texture file gets a hidden entry of its
    root under its relative path without the marker. *)
Definition marked_files_are_recorded_unsuffixed : Prop :=
  forall (r : labelled_root) (f : fsnode),
    In f (snd r) -> hidden_relevant f = true ->
    In (fst r, rel_of f) (hidden_entries (resolve [r] None)).

(** The three partitions of lines 361-363. *)
Inductive kind := Conflict | Normal | Hidden.

Definition kind_of (c : conflicts) (r : row) : kind :=
  if e_hidden (r_entry r) then Hidden
  else if dict_in (conflict_brushes c) (e_base (r_entry r)) then Conflict
  else Normal.

Definition kind_eqb (a b : kind) : bool :=
  match a, b with
  | Conflict, Conflict | Normal, Normal | Hidden, Hidden => true
  | _, _ => false
  end.

(** Every element with [P] stands before every element with [Q]. *)
Definition before {A} (l : list A) (P Q : A -> Prop) : Prop :=
  forall i j a b,
    nth_error l i = Some a -> nth_error l j = Some b -> P a -> Q b -> i < j.

(** Ascending order of case-folded relative path. *)
Definition ascending (rows : list row) : Prop :=
  StronglySorted
    (fun a b => String.leb (rel_key (r_entry a)) (rel_key (r_entry b)) = true)
    rows.

(** The order as the specification words it. *)
Definition partitions_in_order (c : conflicts) (rows : list row) : Prop :=
  before rows (fun a => kind_of c a = Conflict) (fun b => kind_of c b = Normal)
  /\ before rows (fun a => kind_of c a = Normal) (fun b => kind_of c b = Hidden)
  /\ forall k, ascending (filter (fun r => kind_eqb (kind_of c r) k) rows).

End ResolverVocabulary.

Section FixerVocabulary.

Import PyStr PyDict ModData.

(** A dialog that is always dismissed. *)
Definition dismissed (ask : dialog) : Prop := forall options, ask options = None.

(** The name under which the host compares an entry. *)
Definition lname (e : entry) : string := lower (name e).

(** A property of the names of all directories below an entry. *)
Fixpoint all_dirs (P : string -> bool) (e : entry) : bool :=
  match e with
  | File _ => true
  | Dir n cs => P n && forallb (all_dirs P) cs
  end.

Definition not_patch_data (n : string) : bool :=
  negb (String.eqb (lower n) "tslpatchdata").

Definition not_restricted (n : string) : bool :=
  negb (mem (lower n) _restricted_dirs).

(** One pass of the loop at lines 749-751. *)
Definition flatten_step (dn : string) (acc : tree) (child : entry) : tree :=
  if is_directory child then acc
  else move acc [dn; name child] ["override"; name child].

(** The root while that loop runs: loose files around the single directory
    with what is left in it, and the [override] directory once it exists. *)
Definition root_shape (pre post : list entry) (dn : string)
    (inside : list entry) (ov : option (list entry)) : tree :=
  pre ++ Dir dn inside :: post ++
  match ov with Some moved => [Dir "override" moved] | None => [] end.

Definition moved_so_far (ov : option (list entry)) : list entry :=
  match ov with Some moved => moved | None => [] end.

Definition files_of (cs : list entry) : list entry :=
  filter (fun c => negb (is_directory c)) cs.

Definition after_moves (ov : option (list entry)) (todo : list entry)
    : option (list entry) :=
  match files_of todo with
  | [] => ov
  | fs => Some (moved_so_far ov ++ fs)
  end.

(** Two patch bundles and a loose texture. *)
Definition two_bundles : tree :=
  [Dir "A" [Dir "tslpatchdata" []]; Dir "B" [Dir "tslpatchdata" []];
   File "a.tga"].


(** The claim as worded: Valid trees are returned as they are. *)
Definition fix_is_identity_on_valid : Prop :=
  forall (ask : dialog) (t : tree),
    dataLooksValid t = VALID -> fix_tree ask t = Some t.

(** The claim as worded: after the fix the tree is Valid and holds every
    file of the single directory under [override]. *)
Definition every_file_reaches_override : Prop :=
  forall (ask : dialog) (t : tree) (dn : string) (dcs : list entry),
    root_dirs t = [Dir dn dcs] ->
    existsb (fun c => negb (is_directory c)) dcs = true ->
    has_patch_data t = false ->
    exists t',
      fix_tree ask t = Some t' /\ dataLooksValid t' = VALID /\
      forall c, In c dcs -> is_directory c = false ->
                exists ov ocs,
                  In (Dir ov ocs) t' /\ lower ov = "override" /\ In c ocs.

End FixerVocabulary.

Section FurtherDecoderVocabulary.

Import Tga.

(** A little-endian 16-bit field. *)
Definition le16 (lo hi : byte) : nat := Byte.to_nat lo + 256 * Byte.to_nat hi.

(** A file: identifier length, eleven bytes the decoder does not look at,
    width, height, depth, descriptor, the identifier, the payload. *)
Definition tga_file (idb : byte) (mid : list byte)
    (wlo whi hlo hhi depth desc : byte) (ident payload : list byte)
    : list byte :=
  idb :: mid ++ [wlo; whi; hlo; hhi; depth; desc] ++ ident ++ payload.

(** A pixel as its stored bytes; an image as rows of pixels, in file
    order. *)
Definition image_bytes (rows : list (list (list byte))) : list byte :=
  List.concat (map (@List.concat byte) rows).

(** Blue and red exchanged, the rest in place. *)
Definition swap02 (p : list byte) : list byte :=
  match p with
  | b :: g :: r :: rest => r :: g :: b :: rest
  | _ => p
  end.

(** The rows of an image every byte of which is given. *)
Definition image_rows (rows : list (list (list byte)))
    : list (list (option byte)) :=
  map (fun row => map Some (List.concat row)) rows.

Definition format_of (bpp_bytes : nat) : format :=
  if bpp_bytes =? 3 then Format_RGB888 else Format_RGBA8888.

(** The buffer of the row loop after [y] passes: the last [y] rows of the
    file, last first, then zeros. *)
Definition flipped_after (rows : list (list byte)) (rs y : nat) : list byte :=
  List.concat (firstn y (rev rows)) ++
  repeat x00 ((List.length rows - y) * rs).

(** The buffer of the channel loop after [j] passes. *)
Definition swapped_after (pixels : list (list byte)) (j : nat) : list byte :=
  List.concat (map swap02 (firstn j pixels)) ++ List.concat (skipn j pixels).

End FurtherDecoderVocabulary.

Section FurtherResolverVocabulary.

Import PyStr PyDict Textures.

(** The labelled roots of the active mods, in the order of the mods. *)
Definition mod_roots (mods : list mod_dir) : list labelled_root :=
  flat_map (fun m => match override_root m with
                     | Some r => [r]
                     | None => []
                     end) mods.

Definition game_root (game : option (list fsnode)) : option labelled_root :=
  match game with
  | Some files => Some ("Game Override", files)
  | None => None
  end.

(** A path with the marker added to, or cut from, its name. *)
Definition marked (p : path) : path :=
  with_name p (p_name p ++ ".mohidden")%string.

Definition unmarked (p : path) : path :=
  with_name p (drop_last 9 (p_name p)).

Definition listed (cs : list path) (q : path) : bool :=
  existsb (path_eqb q) cs.

(** What the scanning loops look at: files whose name, the marker apart,
    bears one of the four extensions. *)
Definition is_texture (f : fsnode) : bool :=
  n_is_file f
  && mem (lower (name_suffix (target_name (n_name f)))) _EXTENSIONS.

Definition textures_only (r : labelled_root) : labelled_root :=
  (fst r, filter is_texture (snd r)).

End FurtherResolverVocabulary.

Section FurtherFixerVocabulary.

Import PyStr PyDict ModData.

(** The test of the loose-files rule on one file (line 766). *)
Definition not_ignored (f : entry) : bool :=
  negb (endswith_any (lower (name f)) _ignored_exts).

(** One pass of the loop at lines 774-775. *)
Definition loose_step (acc : tree) (f : entry) : tree :=
  move acc [name f] ["override"; name f].

(** A root that holds files only. *)
Definition all_files (t : tree) : bool :=
  forallb (fun e => negb (is_directory e)) t.

End FurtherFixerVocabulary.

Section FurtherGameVocabulary.

Import PyStr Game.

(** One pass of the loop over the tabs (lines 996-1002). *)
Definition tab_step (found : option nat * option nat) (it : nat * string)
    : option nat * option nat :=
  let '(i, text) := it in
  let '(data_index, saves_index) := found in
  let text := lower text in
  (if String.eqb text "data" then Some i else data_index,
   if String.eqb text "saves" then Some i else saves_index).

(** The tabs with their indices, counted from [s]. *)
Definition numbered (s : nat) (tabs : list string) : list (nat * string) :=
  combine (seq s (List.length tabs)) tabs.

End FurtherGameVocabulary.

(* ================================================================== *)
(** ** Facts about the thumbnail decoder *)
(* ================================================================== *)

Section TgaFacts.

Import Tga.

Lemma skipn_exact {A} (pre post : list A) (n : nat) :
  List.length pre = n -> skipn n (pre ++ post) = post.
Proof.
  intros <-. rewrite skipn_app, skipn_all, Nat.sub_diag. reflexivity.
Qed.

Lemma depth_byte_24 (b : byte) : Byte.to_nat b = 24 -> b = x18.
Proof. destruct b; simpl; intros H; try reflexivity; discriminate H. Qed.

Lemma depth_byte_32 (b : byte) : Byte.to_nat b = 32 -> b = x20.
Proof. destruct b; simpl; intros H; try reflexivity; discriminate H. Qed.

(** Any declared depth other than 24 or 32 (and any buffer too short to
    declare one) gives no pixmap. *)
Lemma arguments_reject_depth (data : list byte) :
  nth_error data 16 <> Some x18 ->
  nth_error data 16 <> Some x20 ->
  qimage_arguments data = None.
Proof.
  intros H24 H32. unfold qimage_arguments.
  destruct (unpack_H data 12); [| reflexivity].
  destruct (unpack_H data 14); [| reflexivity].
  destruct (nth_error data 16) as [b |]; [| reflexivity].
  destruct (Nat.eqb_spec (Byte.to_nat b) 24) as [E | _].
  - apply depth_byte_24 in E. subst b. now elim H24.
  - destruct (Nat.eqb_spec (Byte.to_nat b) 32) as [E | _]; [| reflexivity].
    apply depth_byte_32 in E. subst b. now elim H32.
Qed.

Lemma decode_rejects_depth (data : list byte) :
  nth_error data 16 <> Some x18 ->
  nth_error data 16 <> Some x20 ->
  getScreenshot data = None.
Proof.
  intros H24 H32. unfold getScreenshot.
  now rewrite arguments_reject_depth.
Qed.

(** The buffer handed to [QImage] for a 2x2 file at depth 24: the rows in
    reverse order, red and blue exchanged. *)
Lemma decode_2x2_24 (idb desc : byte) (mid ident : list byte)
    (p00 p01 p10 p11 : bgr) :
  List.length mid = 11 ->
  List.length ident = Byte.to_nat idb ->
  qimage_arguments
    (tga_2x2_24 idb mid ident desc [[p00; p01]; [p10; p11]]) =
  Some (mkPixbuf 2 2 Format_RGB888
          (rows_bytes (map (map swap_rb) (rev [[p00; p01]; [p10; p11]])))).
Proof.
  intros Hmid Hid.
  do 12 (destruct mid as [| ? mid]; try discriminate Hmid).
  destruct p00 as [[pb0 pg0] pr0], p01 as [[pb1 pg1] pr1],
           p10 as [[pb2 pg2] pr2], p11 as [[pb3 pg3] pr3].
  unfold tga_2x2_24, qimage_arguments, unpack_H. cbn [app nth_error].
  change (Byte.to_nat x02 + 256 * Byte.to_nat x00) with 2.
  change (Byte.to_nat x18) with 24.
  cbn [Nat.eqb orb negb].
  cbn [Nat.add skipn].
  rewrite (skipn_exact ident _ (Byte.to_nat idb) Hid).
  reflexivity.
Qed.

End TgaFacts.

(** C9 (code defect).  For a well-formed 24-bit 2x2 file the buffer handed
    to [QImage] holds the rows of the payload in reverse order with red and
    blue exchanged, as the claim says, but the image is not that buffer: no
    [bytesPerLine] is given, the scanlines are read eight bytes apart, and
    the second row of the image starts two bytes late and ends past the
    buffer.  A file whose depth byte is neither 24 nor 32 (16, for instance)
    gives no pixmap. *)
Theorem decode_2x2_reads_second_row_misaligned :
  forall (idb desc : byte) (mid ident : list byte)
         (b0 g0 r0 b1 g1 r1 b2 g2 r2 b3 g3 r3 : byte) (other : list byte),
    List.length mid = 11 ->
    List.length ident = Byte.to_nat idb ->
    nth_error other 16 <> Some x18 ->
    nth_error other 16 <> Some x20 ->
    let file := tga_2x2_24 idb mid ident desc
                  [[(b0, g0, r0); (b1, g1, r1)];
                   [(b2, g2, r2); (b3, g3, r3)]] in
    Tga.qimage_arguments file =
      Some (Tga.mkPixbuf 2 2 Tga.Format_RGB888
              [r2; g2; b2; r3; g3; b3; r0; g0; b0; r1; g1; b1])
    /\ Tga.getScreenshot file =
       Some (Tga.mkImage 2 2 Tga.Format_RGB888
               [[Some r2; Some g2; Some b2; Some r3; Some g3; Some b3];
                [Some b0; Some r1; Some g1; Some b1; None; None]])
    /\ Tga.getScreenshot file <>
       Some (Tga.mkImage 2 2 Tga.Format_RGB888
               (reversed_and_swapped
                  [[(b0, g0, r0); (b1, g1, r1)];
                   [(b2, g2, r2); (b3, g3, r3)]]))
    /\ Tga.getScreenshot other = None.
Proof.
  intros idb desc mid ident b0 g0 r0 b1 g1 r1 b2 g2 r2 b3 g3 r3 other
         Hmid Hid H24 H32 file.
  assert (Hargs : Tga.qimage_arguments file =
            Some (Tga.mkPixbuf 2 2 Tga.Format_RGB888
                    [r2; g2; b2; r3; g3; b3; r0; g0; b0; r1; g1; b1])).
  { unfold file. now rewrite decode_2x2_24. }
  assert (Himg : Tga.getScreenshot file =
            Some (Tga.mkImage 2 2 Tga.Format_RGB888
                    [[Some r2; Some g2; Some b2; Some r3; Some g3; Some b3];
                     [Some b0; Some r1; Some g1; Some b1; None; None]])).
  { unfold Tga.getScreenshot. rewrite Hargs. reflexivity. }
  split; [exact Hargs |]. split; [exact Himg |]. split.
  - rewrite Himg. intros H. injection H as _ _ _ _ H _. discriminate H.
  - now apply decode_rejects_depth.
Qed.

(** A file with payload bytes 1..12 and a two-byte identifier; a 16-bit
    file. *)
Lemma decode_2x2_reads_second_row_misaligned_witness :
  Tga.getScreenshot
    (tga_2x2_24 x02 sample_mid [xaa; xbb] x00
       [[(x01, x02, x03); (x04, x05, x06)];
        [(x07, x08, x09); (x0a, x0b, x0c)]]) =
    Some (Tga.mkImage 2 2 Tga.Format_RGB888
            [[Some x09; Some x08; Some x07; Some x0c; Some x0b; Some x0a];
             [Some x01; Some x06; Some x05; Some x04; None; None]])
  /\ Tga.getScreenshot sample_16bit = None.
Proof.
  destruct (decode_2x2_reads_second_row_misaligned x02 x00 sample_mid
              [xaa; xbb] x01 x02 x03 x04 x05 x06 x07 x08 x09 x0a x0b x0c
              sample_16bit) as (_ & Himg & _ & Hnone).
  - reflexivity.
  - reflexivity.
  - simpl. discriminate.
  - simpl. discriminate.
  - split; [exact Himg | exact Hnone].
Defined.

(* ================================================================== *)
(** ** Facts about dictionaries and stable sorting *)
(* ================================================================== *)

Section DictFacts.

Import PyDict Textures.

Context {V : Type}.

Lemma dict_get_set (d : list (string * V)) (k k' : string) (v : V) :
  dict_get (dict_set d k v) k' =
  if String.eqb k k' then Some v else dict_get d k'.
Proof.
  induction d as [| [k0 v0] d IH]; simpl.
  - reflexivity.
  - destruct (String.eqb_spec k0 k) as [-> | Hn]; simpl.
    + destruct (String.eqb k k'); reflexivity.
    + rewrite IH. destruct (String.eqb_spec k0 k') as [-> | Hn'].
      * destruct (String.eqb_spec k k'); [congruence | reflexivity].
      * reflexivity.
Qed.

Lemma dict_get_In (d : list (string * V)) (k : string) (v : V) :
  dict_get d k = Some v -> In (k, v) d.
Proof.
  induction d as [| [k0 v0] d IH]; simpl; [discriminate |].
  destruct (String.eqb_spec k0 k) as [-> | _].
  - intros [= ->]. now left.
  - intros H. right. now apply IH.
Qed.

Lemma dict_get_None (d : list (string * V)) (k : string) :
  dict_get d k = None <-> ~ In k (map fst d).
Proof.
  induction d as [| [k0 v0] d IH]; simpl.
  - tauto.
  - destruct (String.eqb_spec k0 k) as [-> | Hn].
    + split; [discriminate | intros H; elim H; now left].
    + rewrite IH. tauto.
Qed.

Lemma In_dict_get (d : list (string * V)) (k : string) (v : V) :
  NoDup (map fst d) -> In (k, v) d -> dict_get d k = Some v.
Proof.
  induction d as [| [k0 v0] d IH]; simpl; [tauto |].
  intros Hnd [H | H].
  - injection H as -> ->. now rewrite String.eqb_refl.
  - inversion Hnd as [| ? ? Hni Hnd']; subst.
    destruct (String.eqb_spec k0 k) as [-> | _].
    + elim Hni. apply (in_map fst) in H. exact H.
    + now apply IH.
Qed.

Lemma dict_set_keys (d : list (string * V)) (k : string) (v : V) :
  map fst (dict_set d k v) =
  if dict_in d k then map fst d else map fst d ++ [k].
Proof.
  unfold dict_in. induction d as [| [k0 v0] d IH]; simpl.
  - reflexivity.
  - destruct (String.eqb_spec k0 k) as [-> | Hn]; simpl.
    + reflexivity.
    + rewrite IH. destruct (dict_get d k); reflexivity.
Qed.

Lemma dict_set_NoDup (d : list (string * V)) (k : string) (v : V) :
  NoDup (map fst d) -> NoDup (map fst (dict_set d k v)).
Proof.
  intros Hnd. rewrite dict_set_keys. unfold dict_in.
  destruct (dict_get d k) eqn:E; [exact Hnd |].
  apply dict_get_None in E.
  apply NoDup_rev in Hnd. rewrite <- (rev_involutive (_ ++ _)).
  apply NoDup_rev. rewrite rev_app_distr. simpl. constructor.
  - now rewrite <- in_rev.
  - exact Hnd.
Qed.

End DictFacts.

Section SortFacts.

Import PyDict Textures.

Context {A : Type} (le : A -> A -> bool).

Lemma insert_sorted_perm (x : A) (l : list A) :
  Permutation (x :: l) (insert_sorted le x l).
Proof.
  induction l as [| y l IH]; simpl.
  - apply Permutation_refl.
  - destruct (le x y).
    + apply Permutation_refl.
    + eapply perm_trans; [apply perm_swap |]. now apply perm_skip.
Qed.

Lemma stable_sort_perm (l : list A) : Permutation l (stable_sort le l).
Proof.
  induction l as [| x l IH]; simpl.
  - apply perm_nil.
  - eapply perm_trans; [apply perm_skip, IH | apply insert_sorted_perm].
Qed.

Lemma stable_sort_In (l : list A) (x : A) :
  In x (stable_sort le l) <-> In x l.
Proof.
  split; apply Permutation_in;
    [apply Permutation_sym |]; apply stable_sort_perm.
Qed.

Hypothesis le_total : forall x y, le x y = true \/ le y x = true.
Hypothesis le_trans :
  forall x y z, le x y = true -> le y z = true -> le x z = true.

Lemma insert_sorted_sorted (x : A) (l : list A) :
  StronglySorted (fun a b => le a b = true) l ->
  StronglySorted (fun a b => le a b = true) (insert_sorted le x l).
Proof.
  induction 1 as [| y l Hs IH Hall]; simpl.
  - repeat constructor.
  - destruct (le x y) eqn:E.
    + constructor; [now constructor |].
      constructor; [exact E |].
      eapply Forall_impl; [| exact Hall]. intros z Hz. now apply le_trans with y.
    + constructor; [exact IH |].
      apply (Permutation_Forall (insert_sorted_perm x l)).
      constructor; [| exact Hall].
      destruct (le_total x y) as [H | H]; [congruence | exact H].
Qed.

Lemma stable_sort_sorted (l : list A) :
  StronglySorted (fun a b => le a b = true) (stable_sort le l).
Proof.
  induction l as [| x l IH]; simpl.
  - constructor.
  - now apply insert_sorted_sorted.
Qed.

(** Stability: the elements of one class keep their order when everything
    that [le] lets pass before [x] of that class is outside the class. *)
Lemma insert_sorted_filter (p : A -> bool) (x : A) (l : list A) :
  (forall y, p x = true -> p y = true -> le x y = true) ->
  filter p (insert_sorted le x l) = filter p (x :: l).
Proof.
  intros Hcls. induction l as [| y l IH]; [reflexivity |].
  cbn [insert_sorted]. destruct (le x y) eqn:E; [reflexivity |].
  cbn [filter] in *. rewrite IH.
  pose proof (Hcls y) as Hxy.
  destruct (p x), (p y); try reflexivity.
  rewrite Hxy in E by reflexivity. discriminate E.
Qed.

Lemma stable_sort_filter (p : A -> bool) (l : list A) :
  (forall x y, p x = true -> p y = true -> le x y = true) ->
  filter p (stable_sort le l) = filter p l.
Proof.
  intros Hcls. induction l as [| x l IH]; [reflexivity |].
  cbn [stable_sort]. rewrite insert_sorted_filter by (intros; now apply Hcls).
  cbn [filter]. now rewrite IH.
Qed.

End SortFacts.

Lemma StronglySorted_filter {A} (R : A -> A -> Prop) (p : A -> bool)
    (l : list A) :
  StronglySorted R l -> StronglySorted R (filter p l).
Proof.
  induction 1 as [| x l Hs IH Hall]; simpl; [constructor |].
  destruct (p x); [| exact IH].
  constructor; [exact IH |].
  apply Forall_forall. intros y Hy. apply filter_In in Hy.
  rewrite Forall_forall in Hall. now apply Hall.
Qed.

Lemma StronglySorted_map {A B} (R : B -> B -> Prop) (f : A -> B)
    (l : list A) :
  StronglySorted (fun a b => R (f a) (f b)) l -> StronglySorted R (map f l).
Proof.
  induction 1 as [| x l Hs IH Hall]; simpl; constructor; [exact IH |].
  apply Forall_forall. intros y Hy. apply in_map_iff in Hy.
  destruct Hy as [a [<- Ha]]. rewrite Forall_forall in Hall. now apply Hall.
Qed.

(** The order on strings: Python compares code points, [String.leb] does the
    same on ASCII. *)
Lemma ascii_compare_trans (a b c : ascii) :
  Ascii.compare a b = Lt -> Ascii.compare b c = Lt -> Ascii.compare a c = Lt.
Proof.
  unfold Ascii.compare. rewrite !N.compare_lt_iff. apply N.lt_trans.
Qed.

Lemma ascii_compare_refl (a : ascii) : Ascii.compare a a = Eq.
Proof. unfold Ascii.compare. apply N.compare_refl. Qed.

Lemma string_compare_refl (s : string) : String.compare s s = Eq.
Proof.
  induction s as [| a s IH]; simpl; [reflexivity |].
  now rewrite ascii_compare_refl.
Qed.

Lemma string_compare_lt_trans (s1 s2 s3 : string) :
  String.compare s1 s2 = Lt -> String.compare s2 s3 = Lt ->
  String.compare s1 s3 = Lt.
Proof.
  revert s2 s3. induction s1 as [| a s1 IH]; intros [| b s2] [| c s3];
    simpl; try congruence.
  destruct (Ascii.compare a b) eqn:Eab; try discriminate;
  destruct (Ascii.compare b c) eqn:Ebc; try discriminate; intros H1 H2.
  - apply Ascii.compare_eq_iff in Eab, Ebc. subst.
    rewrite ascii_compare_refl. now apply IH with s2.
  - apply Ascii.compare_eq_iff in Eab. subst. now rewrite Ebc.
  - apply Ascii.compare_eq_iff in Ebc. subst. now rewrite Eab.
  - now rewrite (ascii_compare_trans a b c).
Qed.

Lemma string_leb_trans (s1 s2 s3 : string) :
  String.leb s1 s2 = true -> String.leb s2 s3 = true ->
  String.leb s1 s3 = true.
Proof.
  unfold String.leb.
  destruct (String.compare s1 s2) eqn:E12; try discriminate;
  destruct (String.compare s2 s3) eqn:E23; try discriminate; intros _ _.
  - apply String.compare_eq_iff in E12, E23. subst.
    now rewrite string_compare_refl.
  - apply String.compare_eq_iff in E12. subst. now rewrite E23.
  - apply String.compare_eq_iff in E23. subst. now rewrite E12.
  - now rewrite (string_compare_lt_trans s1 s2 s3).
Qed.

Lemma sorted_by_key_sorted {A} (key : A -> string) (l : list A) :
  StronglySorted (fun a b => String.leb (key a) (key b) = true)
                 (Textures.sorted_by_key key l).
Proof.
  apply stable_sort_sorted.
  - intros x y. apply String.leb_total.
  - intros x y z. apply string_leb_trans.
Qed.

(* ================================================================== *)
(** ** The overlay: which file wins *)
(* ================================================================== *)

Section OverlayFacts.

Import PyStr PyDict Textures.

#[local] Arguments mem : simpl never.
#[local] Arguments lower : simpl never.

Lemma target_name_visible (name : string) :
  is_hidden_name name = false -> target_name name = name.
Proof. unfold target_name. now intros ->. Qed.

Lemma scan_file_winners (source : string) (st : scan_state) (f : fsnode)
    (k : string) :
  dict_get (winners (scan_file source st f)) k =
  match dict_get (winners st) k with
  | Some w => Some w
  | None => if claims k f then Some (source, rel_of f) else None
  end.
Proof.
  unfold scan_file, claims.
  destruct (n_is_file f); simpl; [| now destruct (dict_get _ k)].
  destruct (is_hidden_name (n_name f)) eqn:Eh; simpl.
  - destruct (mem _ _EXTENSIONS); simpl; now destruct (dict_get _ k).
  - rewrite (target_name_visible _ Eh).
    destruct (mem _ _EXTENSIONS); simpl; [| now destruct (dict_get _ k)].
    unfold dict_in.
    destruct (dict_get (winners st) (lower (rel_of f))) eqn:Eg; simpl.
    + destruct (dict_get (winners st) k) eqn:Ek; [reflexivity |].
      destruct (String.eqb_spec (lower (rel_of f)) k); [congruence | easy].
    + rewrite dict_get_set.
      destruct (String.eqb_spec (lower (rel_of f)) k) as [<- | _].
      * now rewrite Eg.
      * now destruct (dict_get _ k).
Qed.

Lemma scan_root_winners (st : scan_state) (r : labelled_root) (k : string) :
  dict_get (winners (scan_root st r)) k =
  match dict_get (winners st) k with
  | Some w => Some w
  | None => first_claim k r
  end.
Proof.
  destruct r as [source files]. unfold scan_root, first_claim. simpl.
  revert st. induction files as [| f files IH]; intros st; simpl.
  - now destruct (dict_get _ k).
  - rewrite IH, scan_file_winners.
    destruct (dict_get (winners st) k); [reflexivity |].
    now destruct (claims k f).
Qed.

Lemma scan_roots_winners (roots : list labelled_root) (st : scan_state)
    (k : string) :
  dict_get (winners (fold_left scan_root roots st)) k =
  match dict_get (winners st) k with
  | Some w => Some w
  | None => first_claimant k roots
  end.
Proof.
  revert st. induction roots as [| r roots IH]; intros st; simpl.
  - now destruct (dict_get _ k).
  - rewrite IH, scan_root_winners.
    destruct (dict_get (winners st) k); [reflexivity |].
    now destruct (first_claim k r).
Qed.

Lemma resolve_as_fold (sources : list labelled_root)
    (base : option labelled_root) :
  resolve sources base =
  fold_left scan_root (sources ++ base_list base) (mkScan [] []).
Proof.
  unfold resolve. rewrite fold_left_app. now destruct base.
Qed.

Lemma scan_file_keys_NoDup (source : string) (st : scan_state) (f : fsnode) :
  NoDup (map fst (winners st)) ->
  NoDup (map fst (winners (scan_file source st f))).
Proof.
  intros H. unfold scan_file.
  destruct (n_is_file f); simpl; [| exact H].
  destruct (mem _ _EXTENSIONS); simpl; [| exact H].
  destruct (is_hidden_name _); simpl; [exact H |].
  destruct (dict_in _ _); simpl; [exact H |].
  now apply dict_set_NoDup.
Qed.

Lemma scan_roots_keys_NoDup (roots : list labelled_root) (st : scan_state) :
  NoDup (map fst (winners st)) ->
  NoDup (map fst (winners (fold_left scan_root roots st))).
Proof.
  revert st. induction roots as [| [source files] roots IH]; intros st H.
  - exact H.
  - simpl. apply IH. unfold scan_root. simpl. clear IH.
    revert st H. induction files as [| f files IHf]; intros st H; simpl.
    + exact H.
    + apply IHf. now apply scan_file_keys_NoDup.
Qed.

Lemma resolve_keys_NoDup (sources : list labelled_root)
    (base : option labelled_root) :
  NoDup (map fst (winners (resolve sources base))).
Proof.
  rewrite resolve_as_fold. apply scan_roots_keys_NoDup. constructor.
Qed.

(** Every winner is a visible file of the root that owns it. *)
Lemma first_claimant_origin (k : string) (roots : list labelled_root)
    (source rel : string) :
  first_claimant k roots = Some (source, rel) ->
  exists files f,
    In (source, files) roots /\ In f files /\
    n_is_file f = true /\ is_hidden_name (n_name f) = false /\
    rel = rel_of f /\ k = lower rel.
Proof.
  induction roots as [| [s files] roots IH]; simpl; [discriminate |].
  unfold first_claim. simpl. destruct (find (claims k) files) as [f |] eqn:Ef.
  - intros [= <- <-]. apply find_some in Ef. destruct Ef as [Hin Hc].
    unfold claims in Hc. rewrite !andb_true_iff in Hc.
    destruct Hc as [[[Hf Hh] _] Hk]. apply String.eqb_eq in Hk.
    exists files, f. rewrite negb_true_iff in Hh. auto 10.
  - intros H. destruct (IH H) as (fs & f & H1 & H2). exists fs, f. tauto.
Qed.

Lemma scan_file_hidden (source : string) (st : scan_state) (f : fsnode) :
  hidden_entries (scan_file source st f) =
  hidden_entries st ++
  (if hidden_relevant f then [(source, (rel_of f ++ ".mohidden")%string)]
   else []).
Proof.
  unfold scan_file, hidden_relevant, target_name.
  destruct (n_is_file f); simpl; [| now rewrite app_nil_r].
  destruct (is_hidden_name (n_name f)); simpl.
  - destruct (mem _ _EXTENSIONS); simpl; [reflexivity | now rewrite app_nil_r].
  - destruct (mem _ _EXTENSIONS); simpl; [| now rewrite app_nil_r].
    destruct (dict_in _ _); simpl; now rewrite app_nil_r.
Qed.

Lemma scan_root_hidden (st : scan_state) (r : labelled_root) :
  hidden_entries (scan_root st r) = hidden_entries st ++ hidden_of_root r.
Proof.
  destruct r as [source files]. unfold scan_root, hidden_of_root. simpl.
  revert st. induction files as [| f files IH]; intros st; simpl.
  - now rewrite app_nil_r.
  - rewrite IH, scan_file_hidden, <- app_assoc. f_equal.
    now destruct (hidden_relevant f).
Qed.

Lemma scan_roots_hidden (roots : list labelled_root) (st : scan_state) :
  hidden_entries (fold_left scan_root roots st) =
  hidden_entries st ++ flat_map hidden_of_root roots.
Proof.
  revert st. induction roots as [| r roots IH]; intros st; simpl.
  - now rewrite app_nil_r.
  - now rewrite IH, scan_root_hidden, app_assoc.
Qed.

End OverlayFacts.

(* ================================================================== *)
(** ** Facts about strings *)
(* ================================================================== *)

Section StringFacts.

Import PyStr.

Lemma length_append (a b : string) :
  String.length (a ++ b)%string = String.length a + String.length b.
Proof. induction a as [| c a IH]; simpl; [reflexivity | now rewrite IH]. Qed.

Lemma substring_all (s : string) : substring 0 (String.length s) s = s.
Proof. induction s as [| c s IH]; simpl; [reflexivity | now rewrite IH]. Qed.

Lemma substring_head (a b : string) :
  substring 0 (String.length a) (a ++ b)%string = a.
Proof.
  induction a as [| c a IH]; simpl.
  - now destruct b.
  - now rewrite IH.
Qed.

Lemma substring_tail (a b : string) :
  substring (String.length a) (String.length b) (a ++ b)%string = b.
Proof.
  induction a as [| c a IH]; simpl; [apply substring_all | exact IH].
Qed.

Lemma lower_append (a b : string) :
  lower (a ++ b)%string = (lower a ++ lower b)%string.
Proof. induction a as [| c a IH]; simpl; [reflexivity | now rewrite IH]. Qed.

Lemma endswith_append (a s : string) : endswith (a ++ s)%string s = true.
Proof.
  unfold endswith. rewrite length_append.
  replace (String.length a + String.length s - String.length s)
    with (String.length a) by lia.
  rewrite substring_tail, String.eqb_refl, andb_true_r.
  apply Nat.leb_le. lia.
Qed.

Lemma drop_last_append (a s : string) :
  drop_last (String.length s) (a ++ s)%string = a.
Proof.
  unfold drop_last. rewrite length_append.
  replace (String.length a + String.length s - String.length s)
    with (String.length a) by lia.
  apply substring_head.
Qed.

End StringFacts.

(* ================================================================== *)
(** ** Conflict groups *)
(* ================================================================== *)

Section ConflictFacts.

Import PyStr PyDict Textures.

#[local] Arguments mem : simpl never.

Lemma mem_In (x : string) (xs : list string) : mem x xs = true <-> In x xs.
Proof.
  unfold mem. rewrite existsb_exists. split.
  - intros [y [Hy E]]. apply String.eqb_eq in E. now subst.
  - intros H. exists x. now rewrite String.eqb_refl.
Qed.

Lemma mem_false (x : string) (xs : list string) :
  mem x xs = false <-> ~ In x xs.
Proof.
  rewrite <- mem_In. destruct (mem x xs); split; congruence.
Qed.

Lemma set_add_In (s : list string) (x y : string) :
  In y (set_add s x) <-> In y s \/ y = x.
Proof.
  unfold set_add. destruct (mem x s) eqn:E.
  - apply mem_In in E. split; [tauto | intros [H | ->]; assumption].
  - rewrite in_app_iff. simpl. intuition.
Qed.

Lemma set_add_NoDup (s : list string) (x : string) :
  NoDup s -> NoDup (set_add s x).
Proof.
  intros H. unfold set_add. destruct (mem x s) eqn:E; [exact H |].
  apply mem_false in E.
  apply NoDup_rev in H. rewrite <- (rev_involutive (_ ++ _)).
  apply NoDup_rev. rewrite rev_app_distr. simpl. constructor; [| exact H].
  now rewrite <- in_rev.
Qed.

Lemma setdefault_add_get (d : list (string * list string)) (k x b : string) :
  dict_get (setdefault_add d k x) b =
  if String.eqb k b
  then Some (set_add (match dict_get d k with Some s => s | None => [] end) x)
  else dict_get d b.
Proof.
  unfold setdefault_add. destruct (dict_get d k); now rewrite dict_get_set.
Qed.

Lemma setdefault_add_NoDup (d : list (string * list string)) (k x : string) :
  NoDup (map fst d) -> NoDup (map fst (setdefault_add d k x)).
Proof.
  unfold setdefault_add. destruct (dict_get d k); apply dict_set_NoDup.
Qed.

Lemma group_step_in (d : list (string * list string)) (i : string * string)
    (b x : string) :
  in_group (group_step d i) b x <->
  in_group d b x \/ (base_key_of (snd i) = b /\ ext_lower_of (snd i) = x).
Proof.
  unfold in_group, group_step. split.
  - intros [exts [Hg Hin]]. rewrite setdefault_add_get in Hg.
    destruct (String.eqb_spec (base_key_of (snd i)) b) as [E | _].
    + injection Hg as <-. apply set_add_In in Hin. destruct Hin as [Hin | ->].
      * left. rewrite E in Hin. destruct (dict_get d b) as [s |]; [| easy].
        now exists s.
      * now right.
    + left. now exists exts.
  - intros [[exts [Hg Hin]] | [E <-]].
    + rewrite setdefault_add_get.
      destruct (String.eqb_spec (base_key_of (snd i)) b) as [E | _].
      * eexists. split; [reflexivity |]. apply set_add_In. left.
        rewrite E, Hg. exact Hin.
      * now exists exts.
    + rewrite setdefault_add_get, E, String.eqb_refl.
      eexists. split; [reflexivity |]. apply set_add_In. now right.
Qed.

Lemma groups_fold_in (items : list (string * string))
    (d : list (string * list string)) (b x : string) :
  in_group (fold_left group_step items d) b x <->
  in_group d b x \/
  exists i, In i items /\ base_key_of (snd i) = b /\ ext_lower_of (snd i) = x.
Proof.
  revert d. induction items as [| i items IH]; intros d; simpl.
  - split; [tauto | intros [H | [i [[] _]]]; exact H].
  - rewrite IH, group_step_in. split.
    + intros [[H | H] | [j [Hj H]]]; [tauto | right; exists i; tauto |].
      right. exists j. tauto.
    + intros [H | [j [[<- | Hj] H]]]; [tauto | tauto |].
      right. exists j. tauto.
Qed.

Lemma group_step_wf (d : list (string * list string)) (i : string * string) :
  well_formed_groups d -> well_formed_groups (group_step d i).
Proof.
  intros [Hk Hs]. split.
  - now apply setdefault_add_NoDup.
  - intros b exts. unfold group_step. rewrite setdefault_add_get.
    destruct (String.eqb (base_key_of (snd i)) b).
    + intros [= <-]. apply set_add_NoDup.
      destruct (dict_get d _) eqn:E; [now apply Hs in E | constructor].
    + apply Hs.
Qed.

Lemma base_exts_wf (items : list (string * string)) :
  well_formed_groups (base_exts_of items).
Proof.
  unfold base_exts_of. change (fun d i => _) with group_step.
  assert (H : well_formed_groups []) by (split; [constructor | discriminate]).
  revert H. generalize (@nil (string * list string)).
  induction items as [| i items IH]; intros d H; simpl; [exact H |].
  apply IH. now apply group_step_wf.
Qed.

Lemma base_exts_members (items : list (string * string)) (b : string)
    (exts : list string) (x : string) :
  dict_get (base_exts_of items) b = Some exts ->
  (In x exts <->
   exists i, In i items /\ base_key_of (snd i) = b /\ ext_lower_of (snd i) = x).
Proof.
  intros Hg.
  pose proof (groups_fold_in items [] b x) as H.
  change (fold_left group_step items []) with (base_exts_of items) in H.
  split.
  - intros Hin. apply proj1 in H.
    destruct H as [[e [He _]] | H]; [now exists exts | discriminate He | exact H].
  - intros Hi. apply proj2 in H. destruct (H (or_intror Hi)) as [e [He Hin]].
    congruence.
Qed.

(** What the loop over [base_exts.items()] leaves in the two dictionaries. *)
Lemma conflicts_fold (l : list (string * list string)) (c : conflicts)
    (b : string) :
  NoDup (map fst l) ->
  let c' := fold_left conflict_step l c in
  dict_get (conflict_flags c') b =
    match dict_get l b with
    | Some exts =>
        if 1 <? List.length exts then Some (conflict_flag exts)
        else dict_get (conflict_flags c) b
    | None => dict_get (conflict_flags c) b
    end
  /\
  dict_get (conflict_brushes c') b =
    match dict_get l b with
    | Some exts =>
        if 1 <? List.length exts then
          match conflict_color exts with
          | Some brush => Some brush
          | None => dict_get (conflict_brushes c) b
          end
        else dict_get (conflict_brushes c) b
    | None => dict_get (conflict_brushes c) b
    end.
Proof.
  revert c. induction l as [| [k e] l IH]; intros c Hnd;
    cbn [fold_left dict_get].
  - split; reflexivity.
  - inversion Hnd as [| ? ? Hni Hnd']; subst.
    destruct (IH (conflict_step c (k, e)) Hnd') as [IHf IHb].
    cbv zeta in IHf, IHb. cbv zeta. rewrite IHf, IHb. clear IHf IHb IH.
    destruct (String.eqb_spec k b) as [-> | Hn].
    + apply (dict_get_None (V := list string)) in Hni. rewrite Hni.
      unfold conflict_step. destruct (1 <? List.length e); simpl.
      * rewrite dict_get_set, String.eqb_refl. split; [reflexivity |].
        destruct (conflict_color e); [| reflexivity].
        now rewrite dict_get_set, String.eqb_refl.
      * split; reflexivity.
    + assert (Hf : dict_get (conflict_flags (conflict_step c (k, e))) b =
                   dict_get (conflict_flags c) b).
      { unfold conflict_step. destruct (1 <? List.length e); simpl;
          [| reflexivity].
        rewrite dict_get_set. now destruct (String.eqb_spec k b). }
      assert (Hb : dict_get (conflict_brushes (conflict_step c (k, e))) b =
                   dict_get (conflict_brushes c) b).
      { unfold conflict_step. destruct (1 <? List.length e); simpl;
          [| reflexivity].
        destruct (conflict_color e); [| reflexivity].
        rewrite dict_get_set. now destruct (String.eqb_spec k b). }
      rewrite Hf, Hb. split; reflexivity.
Qed.

Lemma conflicts_of_get (items : list (string * string)) (b : string) :
  let c := conflicts_of (base_exts_of items) in
  dict_get (conflict_flags c) b =
    match dict_get (base_exts_of items) b with
    | Some exts =>
        if 1 <? List.length exts then Some (conflict_flag exts) else None
    | None => None
    end
  /\
  dict_get (conflict_brushes c) b =
    match dict_get (base_exts_of items) b with
    | Some exts =>
        if 1 <? List.length exts then conflict_color exts else None
    | None => None
    end.
Proof.
  destruct (conflicts_fold (base_exts_of items) (mkConflicts [] []) b
              (proj1 (base_exts_wf items))) as [Hf Hb].
  simpl in Hf, Hb. unfold conflicts_of. rewrite Hf, Hb.
  split; [reflexivity |].
  destruct (dict_get (base_exts_of items) b) as [exts |]; [| reflexivity].
  destruct (1 <? List.length exts); [| reflexivity].
  now destruct (conflict_color exts).
Qed.

Lemma two_members_length (exts : list string) (x y : string) :
  NoDup exts -> In x exts -> In y exts -> x <> y -> 1 < List.length exts.
Proof.
  intros Hnd Hx Hy Hxy.
  assert (H : incl [x; y] exts) by (intros z [<- | [<- | []]]; assumption).
  apply NoDup_incl_length in H; [exact H |].
  constructor; [simpl; intuition congruence |]. constructor; [easy | constructor].
Qed.

(** A brush is set exactly for the groups flagged "!!" or "!". *)
Lemma brush_iff_flag (exts : list string) :
  (conflict_color exts <> None <->
   conflict_flag exts = "!!" \/ conflict_flag exts = "!") /\
  (conflict_color exts = None <-> conflict_flag exts = "").
Proof.
  unfold conflict_color, conflict_flag.
  destruct (mem "tpc" exts), (mem "txi" exts), (mem "tga" exts); simpl;
    (split; split; intros H; try congruence; try tauto;
     try (destruct H; discriminate); auto).
Qed.

End ConflictFacts.

(* ================================================================== *)
(** ** The resolver: winners, hidden entries, conflict groups *)
(* ================================================================== *)

Lemma first_claimant_app (k : string) (l1 l2 : list Textures.labelled_root) :
  first_claimant k (l1 ++ l2) =
  match first_claimant k l1 with
  | Some w => Some w
  | None => first_claimant k l2
  end.
Proof.
  induction l1 as [| r l1 IH]; simpl; [reflexivity |].
  destruct (first_claim k r); [reflexivity | exact IH].
Qed.

(** C1.  With the sources in the order in which they are visited (highest
    priority first) and the base last, the winner recorded under a
    case-folded path is the first claim on it along that order; every path
    is recorded once, so later claims are absent; the base is consulted only
    for paths no source claims.  [refresh] visits the active mods in reverse
    of the order in which they are listed.  With [foo/Bar.tpc] in A and
    [foo/bar.tpc] in B, A's file is the only winner, also when the base
    holds [foo/BAR.TPC]. *)
Theorem first_claim_in_priority_order_wins :
  (forall sources base k,
      PyDict.dict_get (Textures.winners (Textures.resolve sources base)) k =
      first_claimant k (sources ++ base_list base))
  /\ (forall sources base,
         NoDup (map fst (Textures.winners (Textures.resolve sources base))))
  /\ (forall sources g k,
         PyDict.dict_get
           (Textures.winners (Textures.resolve sources (Some g))) k =
         match first_claimant k sources with
         | Some w => Some w
         | None => first_claim k g
         end)
  /\ (forall roots,
         Textures.collect roots =
         Textures.resolve (rev (Textures.mod_entries roots))
                          (Textures.game_entry roots))
  /\ Textures.winners (Textures.resolve [mod_A; mod_B] None) =
       [("foo/bar.tpc", ("Mod: A", "foo/Bar.tpc"))]
  /\ Textures.winners (Textures.resolve [mod_A; mod_B] (Some game_G)) =
       [("foo/bar.tpc", ("Mod: A", "foo/Bar.tpc"));
        ("sky.tga", ("Game Override", "sky.tga"))].
Proof.
  repeat split.
  - intros sources base k. rewrite resolve_as_fold, scan_roots_winners.
    reflexivity.
  - apply resolve_keys_NoDup.
  - intros sources g k. rewrite resolve_as_fold, scan_roots_winners.
    simpl. rewrite first_claimant_app. simpl.
    destruct (first_claimant k sources); [reflexivity |].
    now destruct (first_claim k g).
Qed.

(** C7.  The extensions gathered under a base key are those of the winners
    with that key.  A group holding both [tpc] and [txi] is flagged "!!"
    (weight 3, the highest); one holding [tpc] and [tga] but not [txi] is
    flagged "!" (weight 2); any other group of more than one extension has
    the empty flag (weight 0, the lowest); a group of one extension has no
    flag and no brush at all. *)
Theorem conflict_group_severity :
  forall (st : Textures.scan_state) (base : string) (exts : list string),
    let items := Textures.items_of (Textures.winners st) in
    let c := Textures.conflicts_of (Textures.base_exts_of items) in
    let flag := PyDict.dict_get (Textures.conflict_flags c) base in
    let weight e := Textures.r_weight (Textures.make_row c e) in
    PyDict.dict_get (Textures.base_exts_of items) base = Some exts ->
    (forall x,
        In x exts <->
        exists i, In i items /\ Textures.base_key_of (snd i) = base /\
                  Textures.ext_lower_of (snd i) = x)
    /\ NoDup exts
    /\ (In "tpc" exts -> In "txi" exts ->
        flag = Some "!!" /\
        forall e, Textures.e_hidden e = false -> Textures.e_base e = base ->
                  weight e = Textures._WEIGHT_MAJOR)
    /\ (In "tpc" exts -> In "tga" exts -> ~ In "txi" exts ->
        flag = Some "!" /\
        forall e, Textures.e_hidden e = false -> Textures.e_base e = base ->
                  weight e = Textures._WEIGHT_MINOR)
    /\ (1 < List.length exts ->
        ~ (In "tpc" exts /\ In "txi" exts) ->
        ~ (In "tpc" exts /\ In "tga" exts) ->
        flag = Some "" /\
        forall e, Textures.e_hidden e = false -> Textures.e_base e = base ->
                  weight e = Textures._WEIGHT_NONE)
    /\ (List.length exts = 1 ->
        flag = None /\
        PyDict.dict_get (Textures.conflict_brushes c) base = None)
    /\ (forall e, weight e <= Textures._WEIGHT_MAJOR).
Proof.
  intros st base exts items c flag weight Hg.
  destruct (conflicts_of_get items base) as [Hf Hb].
  fold c in Hf, Hb. fold flag in Hf. rewrite Hg in Hf, Hb.
  pose proof (proj2 (base_exts_wf items) base exts Hg) as Hnd.
  split; [intros x; now apply base_exts_members |].
  split; [exact Hnd |].
  split; [| split; [| split; [| split]]].
  - intros Htpc Htxi.
    rewrite (proj2 (Nat.ltb_lt _ _)
               (two_members_length exts "tpc" "txi" Hnd Htpc Htxi
                  ltac:(discriminate))) in Hf.
    apply mem_In in Htpc, Htxi. unfold Textures.conflict_flag in Hf.
    rewrite Htpc, Htxi in Hf. simpl in Hf. split; [exact Hf |].
    intros e He Hbase. unfold weight, Textures.make_row.
    rewrite He, Hbase. fold flag. now rewrite Hf.
  - intros Htpc Htga Htxi.
    rewrite (proj2 (Nat.ltb_lt _ _)
               (two_members_length exts "tpc" "tga" Hnd Htpc Htga
                  ltac:(discriminate))) in Hf.
    apply mem_In in Htpc, Htga. apply mem_false in Htxi.
    unfold Textures.conflict_flag in Hf.
    rewrite Htpc, Htga, Htxi in Hf. simpl in Hf. split; [exact Hf |].
    intros e He Hbase. unfold weight, Textures.make_row.
    rewrite He, Hbase. fold flag. now rewrite Hf.
  - intros Hlen H1 H2. rewrite (proj2 (Nat.ltb_lt _ _) Hlen) in Hf.
    assert (Hfl : Textures.conflict_flag exts = "").
    { unfold Textures.conflict_flag.
      destruct (PyStr.mem "tpc" exts) eqn:Etpc; [| reflexivity].
      apply mem_In in Etpc.
      destruct (PyStr.mem "txi" exts) eqn:Etxi;
        [apply mem_In in Etxi; tauto |].
      destruct (PyStr.mem "tga" exts) eqn:Etga;
        [apply mem_In in Etga; tauto | reflexivity]. }
    rewrite Hfl in Hf. split; [exact Hf |].
    intros e He Hbase. unfold weight, Textures.make_row.
    rewrite He, Hbase. fold flag. now rewrite Hf.
  - intros Hlen. rewrite Hlen in Hf, Hb. simpl in Hf, Hb. now split.
  - intros e. unfold weight, Textures.make_row.
    unfold Textures._WEIGHT_MAJOR, Textures._WEIGHT_MINOR,
      Textures._WEIGHT_HIDDEN, Textures._WEIGHT_NONE.
    repeat match goal with |- context [if ?b then _ else _] => destruct b end;
      simpl; lia.
Qed.

(** The group [foo/bar] of [st_major] holds [tpc] and [txi]. *)
Lemma conflict_group_severity_witness :
  PyDict.dict_get
    (Textures.conflict_flags
       (Textures.conflicts_of
          (Textures.base_exts_of
             (Textures.items_of (Textures.winners st_major)))))
    "foo/bar" = Some "!!".
Proof.
  destruct (conflict_group_severity st_major "foo/bar" ["tpc"; "txi"]
              eq_refl) as (_ & _ & H & _).
  apply H; simpl; auto.
Defined.

(** C10.  Asked to unhide a path whose name does not end in [.mohidden],
    [_toggle_hidden] chooses no new path, renames nothing and leaves the
    file system as it found it. *)
Theorem unhide_without_marker_changes_nothing :
  forall (fs : Textures.filesystem) (p : Textures.path),
    PyStr.endswith (Textures.p_name p) ".mohidden" = false ->
    Textures.toggle_target p true = None /\
    Textures._toggle_hidden fs p true = fs.
Proof.
  intros fs p H. unfold Textures._toggle_hidden, Textures.toggle_target.
  rewrite H. simpl. split; reflexivity.
Qed.

(** Unhiding [override/sky.tga], which carries no marker. *)
Lemma unhide_without_marker_changes_nothing_witness :
  Textures.toggle_target (Textures.mkPath "override" "sky.tga") true = None /\
  Textures._toggle_hidden
    [Textures.mkPath "override" "sky.tga";
     Textures.mkPath "override" "sea.tga.mohidden"]
    (Textures.mkPath "override" "sky.tga") true =
    [Textures.mkPath "override" "sky.tga";
     Textures.mkPath "override" "sea.tga.mohidden"].
Proof.
  apply (unhide_without_marker_changes_nothing
           [Textures.mkPath "override" "sky.tga";
            Textures.mkPath "override" "sea.tga.mohidden"]
           (Textures.mkPath "override" "sky.tga")).
  reflexivity.
Defined.

(* ================================================================== *)
(** ** Hidden entries *)
(* ================================================================== *)

Section HiddenFacts.

Import PyStr PyDict Textures.

Lemma resolve_hidden (sources : list labelled_root)
    (base : option labelled_root) :
  hidden_entries (resolve sources base) =
  flat_map hidden_of_root (sources ++ base_list base).
Proof. rewrite resolve_as_fold, scan_roots_hidden. reflexivity. Qed.

Lemma hidden_entry_fields (source rel : string) :
  hidden_entry (source, (rel ++ ".mohidden")%string) =
  mkEntry (path_name (rel ++ ".mohidden")) source (rel ++ ".mohidden")
          (base_key_of rel) (ext_lower_of rel) true.
Proof.
  unfold hidden_entry.
  rewrite lower_append.
  change (lower ".mohidden") with ".mohidden".
  rewrite endswith_append.
  change 9 with (String.length ".mohidden").
  now rewrite drop_last_append.
Qed.

Lemma listing_rows (st : scan_state) (r : row) :
  In r (listing st) ->
  exists e,
    r = make_row (conflicts_of (base_exts_of (items_of (winners st)))) e.
Proof.
  unfold listing, sortItems_descending. rewrite stable_sort_In.
  unfold added_rows. rewrite in_map_iff. intros [e [<- _]]. now exists e.
Qed.

End HiddenFacts.

(** [tex/sea.tga.mohidden] is recorded as [tex/sea.tga.mohidden], not as
    [tex/sea.tga]. *)
Lemma marked_file_is_recorded_with_its_marker :
  ~ marked_files_are_recorded_unsuffixed.
Proof.
  intros H.
  specialize (H ("Mod: A", [tex ["tex"] "sea.tga.mohidden"])
                (tex ["tex"] "sea.tga.mohidden") (or_introl eq_refl) eq_refl).
  vm_compute in H. destruct H as [H | []]. discriminate H.
Qed.

(** C6 (amended).  A texture file whose name ends in [.mohidden] (a name
    that carries a texture extension once the marker is cut) is recorded as
    a hidden entry of its root: the recorded path is the un-suffixed
    relative path with the marker appended again, and the entry's base key
    and extension are those of the un-suffixed path.  Every winner is a file
    without the marker, conflict entries are never hidden, and a hidden row
    always has the flag "." rather than a conflict flag. *)
Theorem hidden_texture_files_are_set_aside :
  forall (sources : list Textures.labelled_root)
         (base : option Textures.labelled_root)
         (source : string) (files : list Textures.fsnode)
         (f : Textures.fsnode),
    let st := Textures.resolve sources base in
    let c := Textures.conflicts_of
               (Textures.base_exts_of
                  (Textures.items_of (Textures.winners st))) in
    let rel := PyStr.join_posix
                 (Textures.n_dirs f ++
                  [PyStr.drop_last 9 (Textures.n_name f)]) in
    In (source, files) (sources ++ base_list base) ->
    In f files ->
    Textures.n_is_file f = true ->
    PyStr.endswith (Textures.n_name f) ".mohidden" = true ->
    PyStr.mem
      (PyStr.lower (PyStr.name_suffix (PyStr.drop_last 9 (Textures.n_name f))))
      Textures._EXTENSIONS = true ->
    In (source, (rel ++ ".mohidden")%string) (Textures.hidden_entries st)
    /\ Textures.hidden_entry (source, (rel ++ ".mohidden")%string) =
       Textures.mkEntry (PyStr.path_name (rel ++ ".mohidden")) source
                        (rel ++ ".mohidden")
                        (Textures.base_key_of rel)
                        (Textures.ext_lower_of rel) true
    /\ (forall k s r,
           In (k, (s, r)) (Textures.winners st) ->
           exists files' g,
             In (s, files') (sources ++ base_list base) /\ In g files' /\
             Textures.n_is_file g = true /\
             PyStr.endswith (Textures.n_name g) ".mohidden" = false /\
             r = Textures.rel_of g)
    /\ (forall e,
           In e (Textures.conflict_entries c (Textures.entries_of st)) ->
           Textures.e_hidden e = false)
    /\ (forall r,
           In r (Textures.listing st) ->
           Textures.e_hidden (Textures.r_entry r) = true ->
           Textures.r_flag r = "." /\
           Textures.r_weight r = Textures._WEIGHT_HIDDEN).
Proof.
  intros sources base source files f st c rel Hroot Hf Hfile Hmark Hext.
  assert (Hrel : Textures.rel_of f = rel).
  { unfold Textures.rel_of, Textures.target_name, Textures.is_hidden_name.
    now rewrite Hmark. }
  split; [| split; [| split; [| split]]].
  - unfold st. rewrite resolve_hidden. apply in_flat_map.
    exists (source, files). split; [exact Hroot |].
    unfold hidden_of_root. apply in_map_iff. exists f. simpl.
    rewrite Hrel. split; [reflexivity |]. apply filter_In. split; [exact Hf |].
    unfold hidden_relevant, Textures.is_hidden_name.
    now rewrite Hfile, Hmark, Hext.
  - apply hidden_entry_fields.
  - intros k s r Hin.
    assert (Hg : PyDict.dict_get (Textures.winners st) k = Some (s, r)).
    { apply In_dict_get; [apply resolve_keys_NoDup | exact Hin]. }
    unfold st in Hg. rewrite resolve_as_fold, scan_roots_winners in Hg.
    simpl in Hg. apply first_claimant_origin in Hg.
    destruct Hg as (files' & g & H1 & H2 & H3 & H4 & H5 & _).
    exists files', g. auto.
  - intros e He. unfold Textures.conflict_entries, Textures.sorted_by_key in He.
    rewrite stable_sort_In in He. apply filter_In in He.
    destruct He as [_ He]. apply andb_true_iff in He.
    now apply negb_true_iff.
  - intros r Hr Hh. apply listing_rows in Hr. destruct Hr as [e ->].
    unfold Textures.make_row in *. simpl in Hh. rewrite Hh. simpl.
    split; reflexivity.
Qed.

(** [tex/sea.tga.mohidden] beside [tex/sea.tga]. *)
Lemma hidden_texture_files_are_set_aside_witness :
  In ("Mod: A", "tex/sea.tga.mohidden")
     (Textures.hidden_entries
        (Textures.resolve
           [("Mod: A", [tex ["tex"] "sea.tga.mohidden"; tex ["tex"] "sea.tga"])]
           None)).
Proof.
  refine (proj1
    (hidden_texture_files_are_set_aside
       [("Mod: A", [tex ["tex"] "sea.tga.mohidden"; tex ["tex"] "sea.tga"])]
       None "Mod: A" [tex ["tex"] "sea.tga.mohidden"; tex ["tex"] "sea.tga"]
       (tex ["tex"] "sea.tga.mohidden") _ _ _ _ _)).
  - simpl. now left.
  - simpl. now left.
  - reflexivity.
  - reflexivity.
  - reflexivity.
Defined.

(* ================================================================== *)
(** ** Order of the listing *)
(* ================================================================== *)

Section ListingFacts.

Import PyStr PyDict Textures.

Lemma StronglySorted_nth {A} (R : A -> A -> Prop) (l : list A) :
  StronglySorted R l ->
  forall i j a b,
    i < j -> nth_error l i = Some a -> nth_error l j = Some b -> R a b.
Proof.
  induction 1 as [| x l Hs IH Hall]; intros i j a b Hij Hi Hj.
  - now destruct i.
  - destruct j as [| j]; [lia |]. simpl in Hj.
    destruct i as [| i]; simpl in Hi.
    + injection Hi as <-. rewrite Forall_forall in Hall.
      apply Hall. eapply nth_error_In. exact Hj.
    + apply (IH i j); [lia | assumption | assumption].
Qed.

Lemma StronglySorted_weaken {A} (R R' : A -> A -> Prop) (l : list A) :
  (forall a b, R a b -> R' a b) -> StronglySorted R l -> StronglySorted R' l.
Proof.
  intros HR. induction 1 as [| x l Hs IH Hall]; constructor; [exact IH |].
  eapply Forall_impl; [| exact Hall]. intros b. apply HR.
Qed.

Lemma filter_nil {A} (p : A -> bool) (l : list A) :
  (forall x, In x l -> p x = false) -> filter p l = [].
Proof.
  induction l as [| x l IH]; intros H; simpl; [reflexivity |].
  rewrite (H x (or_introl eq_refl)). apply IH. intros y Hy. apply H. now right.
Qed.

Lemma listing_descending (st : scan_state) :
  StronglySorted (fun a b => r_weight b <= r_weight a) (listing st).
Proof.
  unfold listing, sortItems_descending.
  eapply StronglySorted_weaken; [| apply stable_sort_sorted].
  - intros a b H. simpl in H. unfold item_lt in H.
    apply negb_true_iff, Nat.ltb_ge in H. exact H.
  - intros x y. unfold item_lt.
    destruct (Nat.ltb_spec (r_weight x) (r_weight y)); simpl; [| now left].
    right. apply negb_true_iff, Nat.ltb_ge. lia.
  - intros x y z. unfold item_lt. rewrite !negb_true_iff, !Nat.ltb_ge. lia.
Qed.

Lemma heavier_comes_first (st : scan_state) (i j : nat) (a b : row) :
  nth_error (listing st) i = Some a ->
  nth_error (listing st) j = Some b ->
  r_weight b < r_weight a -> i < j.
Proof.
  intros Hi Hj Hw.
  destruct (Nat.lt_trichotomy i j) as [H | [-> | H]]; [exact H | |].
  - rewrite Hi in Hj. injection Hj as ->. lia.
  - pose proof (StronglySorted_nth _ _ (listing_descending st) j i b a H Hj Hi).
    simpl in *. lia.
Qed.

Lemma listing_stable (st : scan_state) (w : nat) :
  filter (fun r => r_weight r =? w) (listing st) =
  filter (fun r => r_weight r =? w) (added_rows st).
Proof.
  unfold listing, sortItems_descending. apply stable_sort_filter.
  intros x y Hx Hy. apply Nat.eqb_eq in Hx, Hy. unfold item_lt.
  apply negb_true_iff, Nat.ltb_ge. lia.
Qed.

(** The weight of a row follows from the partition its entry is in. *)
Lemma row_weight_by_kind (items : list (string * string)) (e : entry) :
  let c := conflicts_of (base_exts_of items) in
  let r := make_row c e in
  match kind_of c r with
  | Hidden => r_flag r = "." /\ r_weight r = _WEIGHT_HIDDEN
  | Conflict =>
      (r_flag r = "!!" /\ r_weight r = _WEIGHT_MAJOR) \/
      (r_flag r = "!" /\ r_weight r = _WEIGHT_MINOR)
  | Normal => r_flag r = "" /\ r_weight r = _WEIGHT_NONE
  end.
Proof.
  intros c r. unfold kind_of, r. unfold make_row at 1 2. cbn [r_entry].
  destruct (e_hidden e) eqn:Eh.
  - unfold make_row. rewrite Eh. simpl. now split.
  - destruct (conflicts_of_get items (e_base e)) as [Hf Hb]. fold c in Hf, Hb.
    unfold dict_in, make_row. rewrite Eh, Hf, Hb.
    destruct (dict_get (base_exts_of items) (e_base e)) as [exts |];
      [| simpl; now split].
    destruct (1 <? List.length exts); [| simpl; now split].
    unfold conflict_color, conflict_flag.
    destruct (mem "tpc" exts), (mem "txi" exts), (mem "tga" exts); simpl; auto.
Qed.

Lemma partition_rows_ascending (c : conflicts) (es : list entry) :
  ascending (map (make_row c) (conflict_entries c es)) /\
  ascending (map (make_row c) (normal_entries c es)) /\
  ascending (map (make_row c) (hidden_only_entries es)).
Proof.
  repeat split; apply StronglySorted_map; apply sorted_by_key_sorted.
Qed.

Lemma partition_rows_kind (c : conflicts) (es : list entry) :
  (forall r, In r (map (make_row c) (conflict_entries c es)) ->
             kind_of c r = Conflict) /\
  (forall r, In r (map (make_row c) (normal_entries c es)) ->
             kind_of c r = Normal) /\
  (forall r, In r (map (make_row c) (hidden_only_entries es)) ->
             kind_of c r = Hidden).
Proof.
  unfold conflict_entries, normal_entries, hidden_only_entries, sorted_by_key.
  repeat split; intros r Hr; apply in_map_iff in Hr;
    destruct Hr as [e [<- He]]; rewrite stable_sort_In in He;
    apply filter_In in He; destruct He as [_ He]; unfold kind_of; simpl.
  - apply andb_true_iff in He. destruct He as [H1 H2].
    apply negb_true_iff in H2. now rewrite H1, H2.
  - apply andb_true_iff in He. destruct He as [H1 H2].
    apply negb_true_iff in H1, H2. now rewrite H1, H2.
  - now rewrite He.
Qed.

Lemma added_rows_class_ascending (st : scan_state) (w : nat) :
  ascending (filter (fun r => r_weight r =? w) (added_rows st)).
Proof.
  unfold added_rows. set (items := items_of (winners st)).
  set (c := conflicts_of (base_exts_of items)). set (es := entries_of st).
  destruct (partition_rows_ascending c es) as (Ac & An & Ah).
  destruct (partition_rows_kind c es) as (Kc & Kn & Kh).
  rewrite !map_app, !filter_app.
  assert (W : forall r e, r = make_row c e ->
            match kind_of c r with
            | Hidden => r_weight r = 1
            | Conflict => r_weight r = 3 \/ r_weight r = 2
            | Normal => r_weight r = 0
            end).
  { intros r e ->. pose proof (row_weight_by_kind items e) as H.
    cbv zeta in H. fold c in H. destruct (kind_of c (make_row c e)); tauto. }
  assert (Wc : forall r, In r (map (make_row c) (conflict_entries c es)) ->
                         2 <= r_weight r).
  { intros r Hr. pose proof (Kc r Hr) as K. apply in_map_iff in Hr.
    destruct Hr as [e [E _]]. symmetry in E. apply W in E. rewrite K in E. lia. }
  assert (Wn : forall r, In r (map (make_row c) (normal_entries c es)) ->
                         r_weight r = 0).
  { intros r Hr. pose proof (Kn r Hr) as K. apply in_map_iff in Hr.
    destruct Hr as [e [E _]]. symmetry in E. apply W in E. now rewrite K in E. }
  assert (Wh : forall r, In r (map (make_row c) (hidden_only_entries es)) ->
                         r_weight r = 1).
  { intros r Hr. pose proof (Kh r Hr) as K. apply in_map_iff in Hr.
    destruct Hr as [e [E _]]. symmetry in E. apply W in E. now rewrite K in E. }
  destruct w as [| [| w]].
  - rewrite (filter_nil _ (map _ (conflict_entries c es))),
            (filter_nil _ (map _ (hidden_only_entries es))).
    + rewrite app_nil_r. simpl. now apply StronglySorted_filter.
    + intros r Hr. apply Wh in Hr. now rewrite Hr.
    + intros r Hr. apply Wc in Hr. apply Nat.eqb_neq. lia.
  - rewrite (filter_nil _ (map _ (conflict_entries c es))),
            (filter_nil _ (map _ (normal_entries c es))).
    + simpl. now apply StronglySorted_filter.
    + intros r Hr. apply Wn in Hr. now rewrite Hr.
    + intros r Hr. apply Wc in Hr. apply Nat.eqb_neq. lia.
  - rewrite (filter_nil _ (map _ (normal_entries c es))),
            (filter_nil _ (map _ (hidden_only_entries es))).
    + rewrite !app_nil_r. now apply StronglySorted_filter.
    + intros r Hr. apply Wh in Hr. now rewrite Hr.
    + intros r Hr. apply Wn in Hr. now rewrite Hr.
Qed.

End ListingFacts.

(** With [a.tpc] and [b.tpc.mohidden] the hidden row is listed first. *)
Lemma hidden_row_precedes_plain_row :
  ~ partitions_in_order
      (Textures.conflicts_of
         (Textures.base_exts_of
            (Textures.items_of (Textures.winners st_hidden_first))))
      (Textures.listing st_hidden_first).
Proof.
  intros [_ [H _]].
  pose proof (H 1 0 _ _ eq_refl eq_refl eq_refl eq_refl) as Hlt.
  inversion Hlt.
Qed.

(** C8 (amended).  The listing holds the rows that were added, ordered by
    descending Err weight: the rows of conflict groups first (those flagged
    "!!" before those flagged "!"), then the hidden rows, then the rows
    without a conflict brush.  Rows of equal weight, hence the hidden rows,
    the plain rows, the "!!" rows and the "!" rows taken separately, appear
    in ascending order of case-folded relative path. *)
Theorem listing_ordered_by_weight_then_path :
  forall (st : Textures.scan_state),
    let c := Textures.conflicts_of
               (Textures.base_exts_of
                  (Textures.items_of (Textures.winners st))) in
    let rows := Textures.listing st in
    Permutation (Textures.added_rows st) rows
    /\ (forall r, In r rows ->
          match kind_of c r with
          | Hidden => Textures.r_flag r = "." /\
                      Textures.r_weight r = Textures._WEIGHT_HIDDEN
          | Conflict =>
              (Textures.r_flag r = "!!" /\
               Textures.r_weight r = Textures._WEIGHT_MAJOR) \/
              (Textures.r_flag r = "!" /\
               Textures.r_weight r = Textures._WEIGHT_MINOR)
          | Normal => Textures.r_flag r = "" /\
                      Textures.r_weight r = Textures._WEIGHT_NONE
          end)
    /\ before rows (fun a => kind_of c a = Conflict)
                   (fun b => kind_of c b = Hidden)
    /\ before rows (fun a => kind_of c a = Hidden)
                   (fun b => kind_of c b = Normal)
    /\ before rows (fun a => kind_of c a = Conflict)
                   (fun b => kind_of c b = Normal)
    /\ before rows (fun a => Textures.r_flag a = "!!")
                   (fun b => Textures.r_flag b = "!")
    /\ (forall w,
          ascending (filter (fun r => Textures.r_weight r =? w) rows)).
Proof.
  intros st c rows.
  assert (W : forall r, In r rows ->
            match kind_of c r with
            | Hidden => Textures.r_flag r = "." /\
                        Textures.r_weight r = Textures._WEIGHT_HIDDEN
            | Conflict =>
                (Textures.r_flag r = "!!" /\
                 Textures.r_weight r = Textures._WEIGHT_MAJOR) \/
                (Textures.r_flag r = "!" /\
                 Textures.r_weight r = Textures._WEIGHT_MINOR)
            | Normal => Textures.r_flag r = "" /\
                        Textures.r_weight r = Textures._WEIGHT_NONE
            end).
  { intros r Hr. apply listing_rows in Hr. destruct Hr as [e ->].
    apply (row_weight_by_kind (Textures.items_of (Textures.winners st)) e). }
  assert (B : forall (P Q : Textures.row -> Prop),
            (forall a b, In a rows -> In b rows -> P a -> Q b ->
                         Textures.r_weight b < Textures.r_weight a) ->
            before rows P Q).
  { intros P Q HPQ i j a b Hi Hj Pa Qb.
    apply (heavier_comes_first st i j a b Hi Hj).
    apply HPQ; try assumption; eapply nth_error_In; eassumption. }
  unfold Textures._WEIGHT_HIDDEN, Textures._WEIGHT_MAJOR,
    Textures._WEIGHT_MINOR, Textures._WEIGHT_NONE in *.
  split; [apply stable_sort_perm |].
  split; [exact W |].
  split; [| split; [| split; [| split]]].
  - apply B. intros a b Ha Hb Ka Kb. apply W in Ha, Hb.
    rewrite Ka in Ha. rewrite Kb in Hb. lia.
  - apply B. intros a b Ha Hb Ka Kb. apply W in Ha, Hb.
    rewrite Ka in Ha. rewrite Kb in Hb. lia.
  - apply B. intros a b Ha Hb Ka Kb. apply W in Ha, Hb.
    rewrite Ka in Ha. rewrite Kb in Hb. lia.
  - apply B. intros a b Ha Hb Fa Fb. apply W in Ha, Hb.
    destruct (kind_of c a), (kind_of c b);
      rewrite Fa in Ha; rewrite Fb in Hb;
      repeat match goal with
             | H : _ /\ _ |- _ => destruct H
             | H : _ \/ _ |- _ => destruct H
             end; try discriminate; lia.
  - intros w. unfold rows. rewrite listing_stable.
    apply added_rows_class_ascending.
Qed.

(** The listing of a conflict group, a hidden texture and a plain one. *)
Lemma listing_ordered_by_weight_then_path_witness :
  map (fun r => (Textures.r_flag r, Textures.e_rel (Textures.r_entry r)))
      (Textures.listing st_mixed) =
    [("!!", "x.tpc"); ("!!", "x.txi"); (".", "h.tga.mohidden"); ("", "a.tga")]
  /\ Permutation (Textures.added_rows st_mixed) (Textures.listing st_mixed).
Proof.
  split.
  - reflexivity.
  - exact (proj1 (listing_ordered_by_weight_then_path st_mixed)).
Defined.

(* ================================================================== *)
(** ** Facts about the layout checker *)
(* ================================================================== *)

Section CheckerFacts.

Import PyStr PyDict ModData.

Lemma lower_ascii_idempotent (c : ascii) :
  lower_ascii (lower_ascii c) = lower_ascii c.
Proof. destruct c as [[] [] [] [] [] [] [] []]; reflexivity. Qed.

Lemma lower_idempotent (s : string) : lower (lower s) = lower s.
Proof.
  induction s as [| c s IH]; [reflexivity |].
  cbn [lower]. now rewrite lower_ascii_idempotent, IH.
Qed.

#[local] Arguments mem : simpl never.
#[local] Arguments lower : simpl never.

Lemma valid_keys_lowered (k : string) : In k valid_keys -> lower k = k.
Proof.
  intros H. repeat (destruct H as [<- | H]; [reflexivity |]). destruct H.
Qed.

(** A root-level directory is met by [_iter_dirs], with no parents. *)
Lemma root_dir_located (t : tree) (e : entry) :
  In e t -> is_directory e = true -> In ([], e) (_iter_dirs t).
Proof.
  intros Hin Hd. unfold _iter_dirs. apply in_flat_map. exists e.
  split; [exact Hin |]. destruct e; [discriminate | now left].
Qed.

Lemma root_game_dir_found (t : tree) :
  existsb (fun e => is_directory e && mem (lower (name e)) valid_keys) t = true ->
  has_game_dir t = true.
Proof.
  intros H. apply existsb_exists in H. destruct H as [e [Hin H]].
  apply andb_true_iff in H. destruct H as [Hd Hk]. apply mem_In in Hk.
  unfold has_game_dir. apply existsb_exists.
  exists (lower (name e)). split; [exact Hk |].
  assert (Hf : In ([], e) (_find_dirs_named t (lower (name e)))).
  { unfold _find_dirs_named. apply filter_In. split.
    - now apply root_dir_located.
    - cbn [snd]. rewrite lower_idempotent. apply String.eqb_refl. }
  destruct (_find_dirs_named t (lower (name e))); [destruct Hf | reflexivity].
Qed.

End CheckerFacts.

(** C2 (amended).  When no directory is named [tslpatchdata] or [data] and
    neither the wrapper-folder rules nor the stray-directory rule fire, a
    root-level directory bearing one of the nine game folder names makes the
    tree Valid.  [data] is among the nine names but is restricted: a tree
    made of a [data] directory holding a [.bif] file is Invalid, whereas the
    same shape under [modules] is Valid. *)
Theorem game_folder_at_root_is_valid :
  forall t : ModData.tree,
    ModData.has_patch_data t = false ->
    ModData.has_restricted_dir t = false ->
    ModData.has_wrapper_folder t = false ->
    ModData.has_stray_mod_dir t = false ->
    existsb (fun e => ModData.is_directory e
                      && PyStr.mem (PyStr.lower (ModData.name e))
                                   ModData.valid_keys) t = true ->
    ModData.dataLooksValid t = ModData.VALID
    /\ List.length ModData.valid_keys = 9
    /\ In "data" ModData.valid_keys
    /\ ModData.dataLooksValid
         [ModData.Dir "data" [ModData.File "core.bif"]] = ModData.INVALID
    /\ ModData.dataLooksValid
         [ModData.Dir "modules" [ModData.File "area.mod"]] = ModData.VALID.
Proof.
  intros t H1 H2 H3 H4 H. split; [| repeat split; simpl; auto].
  unfold ModData.dataLooksValid.
  now rewrite H1, H2, H3, H4, (root_game_dir_found t H).
Qed.

(** An [Override] folder beside a readme. *)
Lemma game_folder_at_root_is_valid_witness :
  ModData.dataLooksValid
    [ModData.Dir "Override" [ModData.File "sky.tga"];
     ModData.File "readme.txt"] = ModData.VALID.
Proof.
  refine (proj1 (game_folder_at_root_is_valid
                   [ModData.Dir "Override" [ModData.File "sky.tga"];
                    ModData.File "readme.txt"] _ _ _ _ _));
    reflexivity.
Defined.

(** A [data] folder holding a [.bif] file is not Valid. *)
Lemma data_folder_alone_is_not_valid :
  ModData.dataLooksValid [ModData.Dir "data" [ModData.File "core.bif"]]
  <> ModData.VALID.
Proof. discriminate. Qed.

Section FixerFacts.

Import PyStr PyDict ModData.

#[local] Arguments mem : simpl never.
#[local] Arguments lower : simpl never.

Lemma choose_dismissed (ask : dialog) (t : tree) (display : located -> string)
    (candidates : list located) (target : string) :
  dismissed ask -> choose_and_keep ask t display candidates target = FellThrough.
Proof. intros H. unfold choose_and_keep. now rewrite H. Qed.

Lemma many_patch_dirs_quiet (ask : dialog) (t : tree) :
  dismissed ask \/ List.length (_find_dirs_named t "tslpatchdata") <= 1 ->
  many_patch_dirs ask t = FellThrough.
Proof.
  intros [H | H]; unfold many_patch_dirs.
  - destruct (1 <? _); [now apply choose_dismissed | reflexivity].
  - now rewrite (proj2 (Nat.ltb_ge _ _) H).
Qed.

Lemma many_mod_dirs_quiet (ask : dialog) (t : tree) :
  dismissed ask \/ List.length (valid_dirs t) <= 1 ->
  many_mod_dirs ask t = FellThrough.
Proof.
  intros [H | H]; unfold many_mod_dirs.
  - destruct (1 <? _); [now apply choose_dismissed | reflexivity].
  - now rewrite (proj2 (Nat.ltb_ge _ _) H).
Qed.

Lemma one_patch_dir_skipped (t : tree) :
  List.length (_find_dirs_named t "tslpatchdata") <> 1 ->
  one_patch_dir t = FellThrough.
Proof.
  unfold one_patch_dir.
  destruct (_find_dirs_named t "tslpatchdata") as [| d [| d' l]]; simpl;
    [reflexivity | congruence | reflexivity].
Qed.

Lemma fix_unprompted_idle (t : tree) :
  List.length (root_dirs t) <> 1 -> loose_valid t = [] ->
  fix_unprompted t = Some t.
Proof.
  intros Hr Hl. unfold fix_unprompted, single_root_dir, loose_files.
  rewrite Hl. destruct (root_dirs t) as [| d [| d' l]]; simpl in *;
    [reflexivity | congruence | reflexivity].
Qed.

End FixerFacts.




(* ================================================================== *)
(** ** Facts about file trees *)
(* ================================================================== *)

Section TreeFacts.

Import PyStr PyDict ModData.

#[local] Arguments mem : simpl never.
#[local] Arguments lower : simpl never.

(** Induction on entries, with the hypothesis for all children. *)
Lemma entry_induction (P : entry -> Prop) :
  (forall n, P (File n)) ->
  (forall n cs, Forall P cs -> P (Dir n cs)) ->
  forall e, P e.
Proof.
  intros HF HD. fix IH 1. intros [n | n cs].
  - apply HF.
  - apply HD. induction cs as [| c cs IHcs]; constructor.
    + apply IH.
    + exact IHcs.
Qed.

(** First matches in a list. *)
Lemma find_skip {A} (p : A -> bool) (l1 l2 : list A) (x : A) :
  (forall y, In y l1 -> p y = false) -> p x = true ->
  find p (l1 ++ x :: l2) = Some x.
Proof.
  intros H Hx. induction l1 as [| y l1 IH]; simpl.
  - now rewrite Hx.
  - rewrite (H y (or_introl eq_refl)). apply IH. intros z Hz. apply H. now right.
Qed.

Lemma find_absent {A} (p : A -> bool) (l : list A) :
  (forall y, In y l -> p y = false) -> find p l = None.
Proof.
  intros H. induction l as [| y l IH]; simpl; [reflexivity |].
  rewrite (H y (or_introl eq_refl)). apply IH. intros z Hz. apply H. now right.
Qed.

Lemma map_first_skip (p : entry -> bool) (f : entry -> entry)
    (l1 l2 : list entry) (x : entry) :
  (forall y, In y l1 -> p y = false) -> p x = true ->
  map_first p f (l1 ++ x :: l2) = l1 ++ f x :: l2.
Proof.
  intros H Hx. induction l1 as [| y l1 IH]; simpl.
  - now rewrite Hx.
  - rewrite (H y (or_introl eq_refl)). f_equal. apply IH.
    intros z Hz. apply H. now right.
Qed.

Lemma remove_first_skip (p : entry -> bool) (l1 l2 : list entry) (x : entry) :
  (forall y, In y l1 -> p y = false) -> p x = true ->
  remove_first p (l1 ++ x :: l2) = l1 ++ l2.
Proof.
  intros H Hx. induction l1 as [| y l1 IH]; simpl.
  - now rewrite Hx.
  - rewrite (H y (or_introl eq_refl)). f_equal. apply IH.
    intros z Hz. apply H. now right.
Qed.

(** [map_first] touches one entry at most. *)
Lemma map_first_In (p : entry -> bool) (f : entry -> entry) (l : list entry)
    (e : entry) :
  In e l -> In e (map_first p f l) \/ In (f e) (map_first p f l).
Proof.
  induction l as [| y l IH]; simpl; [tauto |].
  intros Hin. destruct (p y) eqn:E; simpl.
  - destruct Hin as [-> | H]; auto.
  - destruct Hin as [-> | H]; [auto | destruct (IH H); auto].
Qed.

Lemma map_first_names (p : entry -> bool) (f : entry -> entry)
    (l : list entry) :
  (forall e, name (f e) = name e) ->
  map name (map_first p f l) = map name l.
Proof.
  intros Hf. induction l as [| y l IH]; simpl; [reflexivity |].
  destruct (p y); simpl; [now rewrite Hf | now rewrite IH].
Qed.

Lemma map_first_same (p : entry -> bool) (f : entry -> entry)
    (l : list entry) :
  (forall e, In e l -> p e = true -> f e = e) -> map_first p f l = l.
Proof.
  induction l as [| y l IH]; intros H; simpl; [reflexivity |].
  destruct (p y) eqn:E.
  - now rewrite (H y (or_introl eq_refl) E).
  - f_equal. apply IH. intros e He. apply H. now right.
Qed.

Lemma all_dirs_walk (P : string -> bool) (e : entry) :
  forall ps d, all_dirs P e = true -> In d (walk ps e) -> P (name (snd d)) = true.
Proof.
  induction e as [n | n cs IH] using entry_induction; intros ps d Ha Hin.
  - destruct Hin.
  - simpl in Ha. apply andb_true_iff in Ha. destruct Ha as [Hn Hcs].
    simpl in Hin. destruct Hin as [<- | Hin]; [exact Hn |].
    apply in_flat_map in Hin. destruct Hin as [c [Hc Hd]].
    rewrite Forall_forall in IH. rewrite forallb_forall in Hcs.
    now apply (IH c Hc (ps ++ [n]) d (Hcs c Hc)).
Qed.

Lemma walk_all_dirs (P : string -> bool) (e : entry) :
  forall ps,
    (forall d, In d (walk ps e) -> P (name (snd d)) = true) ->
    all_dirs P e = true.
Proof.
  induction e as [n | n cs IH] using entry_induction; intros ps H.
  - reflexivity.
  - simpl. apply andb_true_iff. split.
    + apply (H (ps, Dir n cs)). now left.
    + apply forallb_forall. intros c Hc. rewrite Forall_forall in IH.
      apply (IH c Hc (ps ++ [n])). intros d Hd. apply H. right.
      apply in_flat_map. now exists c.
Qed.

Lemma all_dirs_located (P : string -> bool) (t : tree) (d : located) :
  forallb (all_dirs P) t = true -> In d (_iter_dirs t) ->
  P (name (snd d)) = true.
Proof.
  intros Ha Hd. apply in_flat_map in Hd. destruct Hd as [e [He Hd]].
  rewrite forallb_forall in Ha. now apply (all_dirs_walk P e [] d (Ha e He)).
Qed.

Lemma located_all_dirs (P : string -> bool) (t : tree) :
  (forall d, In d (_iter_dirs t) -> P (name (snd d)) = true) ->
  forallb (all_dirs P) t = true.
Proof.
  intros H. apply forallb_forall. intros e He.
  apply (walk_all_dirs P e []). intros d Hd. apply H.
  apply in_flat_map. now exists e.
Qed.

(** The parents recorded by [walk] start with those it was given. *)
Lemma walk_parents (e : entry) :
  forall ps d, In d (walk ps e) -> exists q, fst d = ps ++ q.
Proof.
  induction e as [n | n cs IH] using entry_induction; intros ps d Hin.
  - destruct Hin.
  - simpl in Hin. destruct Hin as [<- | Hin].
    + exists []. simpl. now rewrite app_nil_r.
    + apply in_flat_map in Hin. destruct Hin as [c [Hc Hd]].
      rewrite Forall_forall in IH. destruct (IH c Hc _ d Hd) as [q Hq].
      exists (n :: q). rewrite Hq, <- app_assoc. reflexivity.
Qed.

Lemma located_cases (t : tree) (d : located) :
  In d (_iter_dirs t) ->
  (fst d = [] /\ In (snd d) t /\ is_directory (snd d) = true) \/
  (exists n cs q, In (Dir n cs) t /\ fst d = n :: q).
Proof.
  intros Hd. apply in_flat_map in Hd. destruct Hd as [e [He Hd]].
  destruct e as [n | n cs]; [destruct Hd |].
  simpl in Hd. destruct Hd as [<- | Hd].
  - left. simpl. auto.
  - right. apply in_flat_map in Hd. destruct Hd as [c [_ Hd]].
    apply walk_parents in Hd. destruct Hd as [q Hq].
    exists n, cs, q. split; [exact He | exact Hq].
Qed.

Lemma files_have_no_dirs (ps : list string) (cs : list entry) :
  forallb (fun c => negb (is_directory c)) cs = true ->
  flat_map (walk ps) cs = [].
Proof.
  induction cs as [| c cs IH]; simpl; [reflexivity |].
  intros H. apply andb_true_iff in H. destruct H as [Hc Hcs].
  destruct c; [| discriminate]. simpl. now apply IH.
Qed.

(** *** Rewriting below a path *)

Lemma all_dirs_map_first (P : string -> bool) (p : entry -> bool)
    (f : entry -> entry) (l : list entry) :
  (forall e, all_dirs P e = true -> all_dirs P (f e) = true) ->
  forallb (all_dirs P) l = true ->
  forallb (all_dirs P) (map_first p f l) = true.
Proof.
  intros Hf. induction l as [| y l IH]; simpl; [reflexivity |].
  intros H. apply andb_true_iff in H. destruct H as [Hy Hl].
  destruct (p y); simpl; apply andb_true_iff; split; auto.
Qed.

Lemma all_dirs_update_at (P : string -> bool) (f : list entry -> list entry) :
  (forall l, forallb (all_dirs P) l = true ->
             forallb (all_dirs P) (f l) = true) ->
  forall path cs,
    forallb (all_dirs P) cs = true ->
    forallb (all_dirs P) (update_at cs path f) = true.
Proof.
  intros Hf. induction path as [| n rest IH]; intros cs H; simpl.
  - now apply Hf.
  - apply all_dirs_map_first; [| exact H].
    intros [m | m cs'] He; [exact He |].
    simpl in *. apply andb_true_iff in He. destruct He as [Hm Hcs].
    rewrite Hm. simpl. now apply IH.
Qed.

Lemma all_dirs_filter (P : string -> bool) (q : entry -> bool)
    (l : list entry) :
  forallb (all_dirs P) l = true -> forallb (all_dirs P) (filter q l) = true.
Proof.
  rewrite !forallb_forall. intros H e He. apply filter_In in He. now apply H.
Qed.

Lemma update_at_names (f : list entry -> list entry) (n : string)
    (rest : list string) (cs : list entry) :
  map name (update_at cs (n :: rest) f) = map name cs.
Proof. simpl. apply map_first_names. now intros [m | m cs']. Qed.

(** The files that the override filter keeps stay in the directory holding
    them, whatever directory the filter is applied to. *)
Lemma kept_files_survive (path : list string) (t : tree) (ov : string)
    (ocs : list entry) :
  path <> [] ->
  In (Dir ov ocs) t ->
  exists ocs',
    In (Dir ov ocs') (update_at t path (filter kept_in_override)) /\
    forall c, In c ocs -> kept_in_override c = true -> In c ocs'.
Proof.
  intros Hp Hov. destruct path as [| n rest]; [congruence |]. simpl.
  destruct (map_first_In (same_name n)
              (fun e => match e with
                        | Dir m cs' =>
                            Dir m (update_at cs' rest (filter kept_in_override))
                        | File _ => e
                        end) t _ Hov) as [H | H].
  - exists ocs. auto.
  - eexists. split; [exact H |]. intros c Hc Hk.
    destruct rest as [| n' rest']; simpl.
    + apply filter_In. now split.
    + destruct c as [cn | cn ccs]; [| discriminate Hk].
      destruct (map_first_In (same_name n')
                  (fun e => match e with
                            | Dir m cs' =>
                                Dir m (update_at cs' rest'
                                                 (filter kept_in_override))
                            | File _ => e
                            end) ocs _ Hc) as [H' | H']; exact H'.
Qed.

Lemma path_of_nonempty (d : located) : path_of d <> [].
Proof. unfold path_of. destruct (fst d); discriminate. Qed.

(** *** What [_cleanup_root] guarantees *)

Lemma cleanup_root_names (t : tree) (e : entry) :
  In e (_cleanup_root t) -> mem (lower (name e)) valid_top = true.
Proof.
  unfold _cleanup_root.
  set (t1 := filter (fun e => mem (lower (name e)) valid_top) t).
  assert (H1 : forall x, In x (map name t1) -> mem (lower x) valid_top = true).
  { intros x Hx. apply in_map_iff in Hx. destruct Hx as [y [<- Hy]].
    apply filter_In in Hy. apply Hy. }
  destruct (_find_dirs_named t1 "override") as [| d l]; intros He.
  - apply H1. now apply in_map.
  - apply H1. pose proof (path_of_nonempty d) as Hp.
    destruct (path_of d) as [| n rest]; [congruence |].
    rewrite <- (update_at_names (filter kept_in_override) n rest t1).
    now apply in_map.
Qed.

Lemma cleanup_root_all_dirs (P : string -> bool) (t : tree) :
  forallb (all_dirs P) t = true ->
  forallb (all_dirs P) (_cleanup_root t) = true.
Proof.
  intros H. unfold _cleanup_root.
  destruct (_find_dirs_named _ "override").
  - now apply all_dirs_filter.
  - apply all_dirs_update_at.
    + intros cs. apply all_dirs_filter.
    + now apply all_dirs_filter.
Qed.

Lemma cleanup_root_keeps (t : tree) (ov : string) (ocs : list entry) :
  In (Dir ov ocs) t -> lower ov = "override" ->
  exists ocs',
    In (Dir ov ocs') (_cleanup_root t) /\
    forall c, In c ocs -> kept_in_override c = true -> In c ocs'.
Proof.
  intros Hov Hn. unfold _cleanup_root.
  set (t1 := filter (fun e => mem (lower (name e)) valid_top) t).
  assert (H1 : In (Dir ov ocs) t1).
  { apply filter_In. split; [exact Hov |]. simpl. now rewrite Hn. }
  destruct (_find_dirs_named t1 "override") as [| d l].
  - exists ocs. auto.
  - apply (kept_files_survive (path_of d) t1 ov ocs);
      auto using path_of_nonempty.
Qed.

(** *** A cleaned root is Valid *)

Lemma has_patch_data_false (t : tree) :
  has_patch_data t = false <-> forallb (all_dirs not_patch_data) t = true.
Proof.
  unfold has_patch_data, _find_dirs_named. split.
  - intros H. apply located_all_dirs. intros d Hd. unfold not_patch_data.
    destruct (String.eqb (lower (name (snd d))) "tslpatchdata") eqn:E;
      [| reflexivity].
    assert (Hin : In d (filter
              (fun d => String.eqb (lower (name (snd d)))
                                   (lower "tslpatchdata")) (_iter_dirs t)))
      by (apply filter_In; split; [exact Hd | exact E]).
    match type of Hin with In _ ?l => destruct l end;
      [destruct Hin | discriminate H].
  - intros H.
    match goal with |- match ?l with _ => _ end = _ =>
      destruct l as [| d l'] eqn:E end; [reflexivity |].
    assert (Hin : In d (filter
              (fun d => String.eqb (lower (name (snd d)))
                                   (lower "tslpatchdata")) (_iter_dirs t)))
      by (rewrite E; now left).
    apply filter_In in Hin. destruct Hin as [Hd Hn].
    pose proof (all_dirs_located _ t d H Hd) as Hp. unfold not_patch_data in Hp.
    change (lower "tslpatchdata") with "tslpatchdata" in Hn.
    rewrite Hn in Hp. discriminate Hp.
Qed.

Lemma has_restricted_dir_false (t : tree) :
  has_restricted_dir t = false <-> forallb (all_dirs not_restricted) t = true.
Proof.
  unfold has_restricted_dir. split.
  - intros H. apply located_all_dirs. intros d Hd. unfold not_restricted.
    destruct (mem (lower (name (snd d))) _restricted_dirs) eqn:E;
      [| reflexivity].
    assert (Hex : existsb (fun d => mem (lower (name (snd d))) _restricted_dirs)
                          (_iter_dirs t) = true)
      by (apply existsb_exists; now exists d).
    congruence.
  - intros H.
    match goal with |- ?b = false => destruct b eqn:E end; [| reflexivity].
    apply existsb_exists in E. destruct E as [d [Hd Hm]].
    pose proof (all_dirs_located _ t d H Hd) as Hp. unfold not_restricted in Hp.
    rewrite Hm in Hp. discriminate Hp.
Qed.

Lemma valid_top_dir_is_game_dir (n : string) :
  mem (lower n) valid_top = true -> not_patch_data n = true ->
  mem (lower n) valid_keys = true.
Proof.
  intros Ht Hp. apply mem_In in Ht. apply mem_In.
  unfold valid_top in Ht. apply in_app_or in Ht.
  destruct Ht as [Ht | [<- | [E | []]]]; [exact Ht | now left |].
  unfold not_patch_data in Hp. rewrite <- E in Hp. discriminate Hp.
Qed.

Lemma cleaned_root_is_valid (r : tree) :
  (forall e, In e r -> mem (lower (name e)) valid_top = true) ->
  forallb (all_dirs not_patch_data) r = true ->
  forallb (all_dirs not_restricted) r = true ->
  (exists ov ocs, In (Dir ov ocs) r /\ lower ov = "override") ->
  dataLooksValid r = VALID.
Proof.
  intros Htop Hpatch Hrestr (ov & ocs & Hov & Hn).
  assert (Hgame : forall e, In e r -> is_directory e = true ->
                            mem (lower (name e)) valid_keys = true).
  { intros e He Hd. apply valid_top_dir_is_game_dir; [now apply Htop |].
    rewrite forallb_forall in Hpatch. specialize (Hpatch e He).
    destruct e; [discriminate |]. simpl in Hpatch.
    now apply andb_true_iff in Hpatch. }
  unfold dataLooksValid.
  rewrite (proj2 (has_patch_data_false r) Hpatch).
  rewrite (proj2 (has_restricted_dir_false r) Hrestr).
  assert (H3 : has_wrapper_folder r = false).
  { unfold has_wrapper_folder.
    match goal with |- ?b = false => destruct b eqn:E end; [| reflexivity].
    apply existsb_exists in E. destruct E as [e [He Hc]].
    rewrite !andb_true_iff in Hc. destruct Hc as [[Hd Hk] _].
    rewrite (Hgame e He Hd) in Hk. discriminate Hk. }
  assert (H4 : has_stray_mod_dir r = false).
  { unfold has_stray_mod_dir.
    match goal with |- ?b = false => destruct b eqn:E end; [| reflexivity].
    apply existsb_exists in E. destruct E as [d [Hd Hc]].
    rewrite !andb_true_iff in Hc. destruct Hc as [[Hk Hp] _].
    destruct (located_cases r d Hd) as [(_ & Hin & Hdir) | (n & cs & q & Hin & Hq)].
    - rewrite (Hgame _ Hin Hdir) in Hk. discriminate Hk.
    - unfold parent_has_valid_dir in Hp. rewrite Hq in Hp. simpl in Hp.
      pose proof (Hgame (Dir n cs) Hin eq_refl) as Hg. simpl in Hg.
      rewrite Hg in Hp. discriminate Hp. }
  rewrite H3, H4.
  rewrite root_game_dir_found; [reflexivity |].
  apply existsb_exists. exists (Dir ov ocs). split; [exact Hov |].
  simpl. now rewrite Hn.
Qed.

End TreeFacts.

(* ================================================================== *)
(** ** Moving files into [override] *)
(* ================================================================== *)

Section MoveFacts.

Import PyStr PyDict ModData.

#[local] Arguments mem : simpl never.
#[local] Arguments lower : simpl never.

Lemma find_present {A} (p : A -> bool) (l : list A) (x : A) :
  In x l -> p x = true -> exists y, find p l = Some y.
Proof.
  intros Hin Hp. destruct (find p l) as [y |] eqn:E; [now exists y |].
  rewrite (find_none p l E x Hin) in Hp. discriminate Hp.
Qed.

Lemma map_first_found (p : entry -> bool) (f : entry -> entry)
    (l : list entry) (x : entry) :
  find p l = Some x -> f x = x -> map_first p f l = l.
Proof.
  induction l as [| y l IH]; simpl; [discriminate |].
  destruct (p y).
  - intros [= ->] Hf. now rewrite Hf.
  - intros H Hf. f_equal. now apply IH.
Qed.

Lemma same_name_refl (e : entry) : same_name (name e) e = true.
Proof. unfold same_name. apply String.eqb_refl. Qed.

(** Moving a file to the place where it already is fails and changes
    nothing. *)
Lemma move_onto_itself (t : tree) (dn : string) (dcs : list entry)
    (c : entry) :
  find (same_name dn) t = Some (Dir dn dcs) ->
  find (same_name "override") t = Some (Dir dn dcs) ->
  In c dcs ->
  move t [dn; name c] ["override"; name c] = t.
Proof.
  intros Hd Ho Hc. unfold move. cbn [get]. rewrite Hd.
  destruct (find_present (same_name (name c)) dcs c Hc (same_name_refl c))
    as [e He].
  rewrite He. cbn [split_last create_tree]. rewrite Ho.
  rewrite (map_first_found _ _ t (Dir dn dcs) Ho eq_refl).
  cbn [dir_at]. rewrite Ho.
  assert (Hex : existsb (same_name (name c)) dcs = true).
  { apply existsb_exists. exists c. split; [exact Hc | apply same_name_refl]. }
  now rewrite Hex.
Qed.

Lemma flatten_in_place (t : tree) (dn : string) (dcs : list entry) :
  find (same_name dn) t = Some (Dir dn dcs) ->
  find (same_name "override") t = Some (Dir dn dcs) ->
  forall l, incl l dcs -> fold_left (flatten_step dn) l t = t.
Proof.
  intros Hd Ho. induction l as [| c l IH]; intros Hl; simpl; [reflexivity |].
  unfold flatten_step at 2. destruct (is_directory c).
  - apply IH. intros x Hx. apply Hl. now right.
  - rewrite (move_onto_itself t dn dcs c Hd Ho (Hl c (or_introl eq_refl))).
    apply IH. intros x Hx. apply Hl. now right.
Qed.

(** *** A root holding one directory beside loose files *)

Section Shape.

Variables (pre post : list entry) (dn : string).

Hypothesis pre_not_dn : forall y, In y pre -> same_name dn y = false.
Hypothesis files_not_override :
  forall y, In y (pre ++ post) -> same_name "override" y = false.
Hypothesis dn_not_override : String.eqb (lower dn) "override" = false.

#[local] Abbreviation shape := (root_shape pre post dn).

Lemma shape_assoc (inside : list entry) (tail : list entry) :
  pre ++ Dir dn inside :: post ++ tail =
  (pre ++ Dir dn inside :: post) ++ tail.
Proof. now rewrite <- app_assoc. Qed.

Lemma left_not_override (inside : list entry) (y : entry) :
  In y (pre ++ Dir dn inside :: post) -> same_name "override" y = false.
Proof.
  intros H. apply in_app_or in H. destruct H as [H | [<- | H]].
  - apply files_not_override. apply in_or_app. now left.
  - exact dn_not_override.
  - apply files_not_override. apply in_or_app. now right.
Qed.

Lemma same_name_dn (inside : list entry) : same_name dn (Dir dn inside) = true.
Proof. unfold same_name. apply String.eqb_refl. Qed.

Lemma shape_find_dir (inside : list entry) (ov : option (list entry)) :
  find (same_name dn) (shape inside ov) = Some (Dir dn inside).
Proof. apply find_skip; [exact pre_not_dn | apply same_name_dn]. Qed.

Lemma shape_map_dir (f : entry -> entry) (inside : list entry)
    (ov : option (list entry)) :
  map_first (same_name dn) f (shape inside ov) =
  pre ++ f (Dir dn inside) :: post ++
  match ov with Some moved => [Dir "override" moved] | None => [] end.
Proof. apply map_first_skip; [exact pre_not_dn | apply same_name_dn]. Qed.

Lemma shape_find_override (inside moved : list entry) :
  find (same_name "override") (shape inside (Some moved)) =
  Some (Dir "override" moved).
Proof.
  unfold root_shape. rewrite shape_assoc.
  apply find_skip; [apply left_not_override | reflexivity].
Qed.

Lemma shape_no_override (inside : list entry) :
  find (same_name "override") (shape inside None) = None.
Proof.
  unfold root_shape. rewrite app_nil_r. apply find_absent. apply left_not_override.
Qed.

Lemma shape_map_override (f : entry -> entry) (inside moved : list entry) :
  map_first (same_name "override") f (shape inside (Some moved)) =
  pre ++ Dir dn inside :: post ++ [f (Dir "override" moved)].
Proof.
  unfold root_shape. rewrite !shape_assoc.
  apply map_first_skip; [apply left_not_override | reflexivity].
Qed.

(** [createTree] on the way to [override/...]. *)
Lemma shape_create_override (inside : list entry) (ov : option (list entry)) :
  create_tree (shape inside ov) ["override"] =
  Some (shape inside (Some (moved_so_far ov))).
Proof.
  cbn [create_tree]. destruct ov as [moved |].
  - rewrite shape_find_override, shape_map_override. reflexivity.
  - rewrite shape_no_override. unfold root_shape. cbn [moved_so_far].
    now rewrite app_nil_r, <- app_assoc.
Qed.

(** One file leaves the directory for [override]. *)
Lemma move_into_override (before after : list entry) (cn : string)
    (ov : option (list entry)) :
  (forall y, In y before -> same_name cn y = false) ->
  (forall y, In y (moved_so_far ov) -> same_name cn y = false) ->
  move (shape (before ++ File cn :: after) ov) [dn; cn] ["override"; cn] =
  shape (before ++ after) (Some (moved_so_far ov ++ [File cn])).
Proof.
  intros Hb Hm. unfold move. cbn [get]. rewrite shape_find_dir.
  rewrite (find_skip (same_name cn) before after (File cn) Hb
             (same_name_refl (File cn))).
  cbn [split_last]. rewrite shape_create_override.
  cbn [dir_at]. rewrite shape_find_override.
  assert (Hnew : existsb (same_name cn) (moved_so_far ov) = false).
  { apply not_true_iff_false. intros Hex. apply existsb_exists in Hex.
    destruct Hex as [y [Hy Hs]]. rewrite (Hm y Hy) in Hs. discriminate Hs. }
  rewrite Hnew.
  unfold detach_at. cbn [split_last update_at].
  rewrite shape_map_dir.
  rewrite (remove_first_skip (same_name cn) before after (File cn) Hb
             (same_name_refl (File cn))).
  change (pre ++ Dir dn (before ++ after) :: post ++
          [Dir "override" (moved_so_far ov)])
    with (shape (before ++ after) (Some (moved_so_far ov))).
  rewrite shape_map_override. reflexivity.
Qed.

Lemma same_name_lname (x y : entry) :
  lname x <> lname y -> same_name (name x) y = false.
Proof.
  intros H. unfold same_name. apply String.eqb_neq. intros E. apply H.
  unfold lname. now rewrite E.
Qed.

(** The loop moves the files, in order, and leaves the directories. *)
Lemma flatten_moves (todo : list entry) :
  forall (kept : list entry) (ov : option (list entry)),
    NoDup (map lname (kept ++ todo)) ->
    (forall x y, In x todo -> In y (moved_so_far ov) -> lname x <> lname y) ->
    fold_left (flatten_step dn) todo (shape (kept ++ todo) ov) =
    shape (kept ++ filter is_directory todo) (after_moves ov todo).
Proof.
  induction todo as [| c todo IH]; intros kept ov Hnd Hmv.
  - reflexivity.
  - cbn [fold_left]. unfold flatten_step at 2.
    assert (Hnd' : NoDup (map lname ((kept ++ [c]) ++ todo)))
      by now rewrite <- app_assoc.
    destruct c as [cn | cn ccs]; cbn [is_directory name].
    + rewrite move_into_override.
      * rewrite (IH kept (Some (moved_so_far ov ++ [File cn]))).
        -- unfold after_moves, files_of. cbn [filter is_directory negb].
           cbn [moved_so_far].
           destruct (filter (fun c => negb (is_directory c)) todo)
             as [| f fs]; [reflexivity | now rewrite <- app_assoc].
        -- rewrite map_app in Hnd. cbn [map] in Hnd.
           apply NoDup_remove_1 in Hnd. now rewrite map_app.
        -- intros x y Hx Hy. cbn [moved_so_far] in Hy.
           apply in_app_or in Hy. destruct Hy as [Hy | [<- | []]].
           ++ apply Hmv; [now right | exact Hy].
           ++ rewrite map_app in Hnd. cbn [map] in Hnd.
              apply NoDup_remove_2 in Hnd. intros E. apply Hnd.
              apply in_or_app. right. rewrite <- E. now apply in_map.
      * intros y Hy. apply (same_name_lname (File cn) y). intros E.
        rewrite map_app in Hnd. cbn [map] in Hnd.
        apply NoDup_remove_2 in Hnd. apply Hnd. apply in_or_app. left.
        rewrite E. now apply in_map.
      * intros y Hy. apply (same_name_lname (File cn) y).
        apply Hmv; [now left | exact Hy].
    + replace (kept ++ Dir cn ccs :: todo)
        with ((kept ++ [Dir cn ccs]) ++ todo) by now rewrite <- app_assoc.
      rewrite (IH (kept ++ [Dir cn ccs]) ov Hnd').
      * cbn [filter is_directory]. rewrite <- app_assoc. reflexivity.
      * intros x y Hx Hy. apply Hmv; [now right | exact Hy].
Qed.

End Shape.

(** A root with a single directory splits around it. *)
Lemma single_root_dir_split (t : tree) (d : entry) :
  root_dirs t = [d] ->
  exists pre post,
    t = pre ++ d :: post /\
    (forall y, In y (pre ++ post) -> is_directory y = false).
Proof.
  unfold root_dirs. induction t as [| e t IH]; simpl; [discriminate |].
  destruct (is_directory e) eqn:E.
  - intros [= -> Ht]. exists [], t. split; [reflexivity |].
    intros y Hy. simpl in Hy.
    destruct (is_directory y) eqn:Ey; [| reflexivity].
    assert (Hin : In y (filter is_directory t)) by (apply filter_In; now split).
    rewrite Ht in Hin. destruct Hin.
  - intros Ht. destruct (IH Ht) as (pre & post & -> & Hf).
    exists (e :: pre), post. split; [reflexivity |].
    intros y [<- | Hy]; [exact E | now apply Hf].
Qed.

End MoveFacts.

(* ================================================================== *)
(** ** The fixer on a root with a single directory *)
(* ================================================================== *)

Section FlattenFacts.

Import PyStr PyDict ModData.

#[local] Arguments mem : simpl never.
#[local] Arguments lower : simpl never.

Lemma no_patch_dirs (t : tree) :
  has_patch_data t = false -> _find_dirs_named t "tslpatchdata" = [].
Proof.
  unfold has_patch_data.
  now destruct (_find_dirs_named t "tslpatchdata").
Qed.

Lemma fix_tree_flattens (ask : dialog) (t : tree) (d : entry) :
  has_patch_data t = false ->
  dismissed ask \/ List.length (valid_dirs t) <= 1 ->
  root_dirs t = [d] ->
  fix_tree ask t = flatten d t.
Proof.
  intros Hp Hask Hr. apply no_patch_dirs in Hp. unfold fix_tree.
  rewrite many_patch_dirs_quiet by (right; rewrite Hp; simpl; lia).
  rewrite one_patch_dir_skipped by (rewrite Hp; simpl; lia).
  rewrite (many_mod_dirs_quiet ask t Hask).
  unfold fix_unprompted, single_root_dir. rewrite Hr.
  now destruct (flatten d t).
Qed.

Lemma flatten_unfold (dn : string) (dcs : list entry) (t : tree) :
  flatten (Dir dn dcs) t =
  match ensure_override t with
  | Some t1 => Some (_cleanup_root (fold_left (flatten_step dn) dcs t1))
  | None => None
  end.
Proof. reflexivity. Qed.

Lemma forallb_app_true {A} (p : A -> bool) (l1 l2 : list A) :
  forallb p l1 = true -> forallb p l2 = true -> forallb p (l1 ++ l2) = true.
Proof. intros H1 H2. now rewrite forallb_app, H1, H2. Qed.

(** What the loop leaves at the root: an [override] directory holding every
    file that was directly inside the single directory, and no directory
    name that was not there before, [override] apart. *)
Lemma flatten_loop_result (t : tree) (dn : string) (dcs : list entry) :
  root_dirs t = [Dir dn dcs] ->
  existsb (fun c => negb (is_directory c)) dcs = true ->
  NoDup (map lname t) ->
  NoDup (map lname dcs) ->
  (forall e, In e t -> lname e = "override" -> is_directory e = true) ->
  exists t1,
    ensure_override t = Some t1 /\
    let t2 := fold_left (flatten_step dn) dcs t1 in
    (exists ov ocs,
        In (Dir ov ocs) t2 /\ lower ov = "override" /\
        forall c, In c dcs -> is_directory c = false -> In c ocs)
    /\ (forall P, P "override" = true ->
                  forallb (all_dirs P) t = true ->
                  forallb (all_dirs P) t2 = true).
Proof.
  intros Hr Hfile Hnd Hndd Hov.
  destruct (single_root_dir_split t _ Hr) as (pre & post & Ht & Hfiles).
  assert (pre_not_dn : forall y, In y pre -> same_name dn y = false).
  { intros y Hy. unfold same_name. apply String.eqb_neq. intros E.
    rewrite Ht, map_app in Hnd. cbn [map] in Hnd.
    apply NoDup_remove_2 in Hnd. apply Hnd. apply in_or_app. left.
    change (lname (Dir dn dcs)) with (lower dn). rewrite <- E.
    now apply (in_map lname). }
  assert (files_not_override :
            forall y, In y (pre ++ post) -> same_name "override" y = false).
  { intros y Hy. unfold same_name. apply String.eqb_neq. intros E.
    assert (Hin : In y t).
    { rewrite Ht. apply in_app_or in Hy. apply in_or_app.
      destruct Hy; [now left | right; now right]. }
    pose proof (Hfiles y Hy) as Hf.
    rewrite (Hov y Hin E) in Hf. discriminate Hf. }
  destruct (String.eqb (lower dn) "override") eqn:Edn.
  - (* the directory is [override] itself: nothing moves *)
    apply String.eqb_eq in Edn.
    assert (Hfd : find (same_name dn) t = Some (Dir dn dcs)).
    { rewrite Ht. apply find_skip; [exact pre_not_dn |].
      unfold same_name. apply String.eqb_refl. }
    assert (Hfo : find (same_name "override") t = Some (Dir dn dcs)).
    { rewrite Ht. apply find_skip.
      - intros y Hy. apply files_not_override. apply in_or_app. now left.
      - unfold same_name. cbn [name]. rewrite Edn. reflexivity. }
    assert (Hin : In (Dir dn dcs) t)
      by (rewrite Ht; apply in_or_app; right; now left).
    assert (He : ensure_override t = Some t).
    { unfold ensure_override.
      assert (Hl : In ([], Dir dn dcs) (_find_dirs_named t "override")).
      { apply filter_In. split; [now apply root_dir_located |].
        cbn [snd name]. rewrite Edn. reflexivity. }
      now destruct (_find_dirs_named t "override"). }
    exists t. split; [exact He |]. intros t2.
    assert (E2 : t2 = t).
    { unfold t2. apply (flatten_in_place t dn dcs Hfd Hfo).
      apply incl_refl. }
    rewrite E2. split; [| auto].
    exists dn, dcs. auto.
  - (* a new [override] directory receives the files *)
    assert (Hshape : t = root_shape pre post dn dcs None).
    { unfold root_shape. now rewrite app_nil_r. }
    assert (Hens : exists ov0,
               ensure_override t = Some (root_shape pre post dn dcs ov0)
               /\ moved_so_far ov0 = []).
    { unfold ensure_override. destruct (_find_dirs_named t "override").
      - exists (Some []). split; [| reflexivity].
        unfold addDirectory. rewrite Hshape.
        now rewrite (shape_create_override pre post dn files_not_override
                       Edn dcs None).
      - exists None. split; [now rewrite <- Hshape | reflexivity]. }
    destruct Hens as (ov0 & Hens & Hmoved).
    exists (root_shape pre post dn dcs ov0). split; [exact Hens |].
    intros t2.
    assert (E2 : t2 = root_shape pre post dn (filter is_directory dcs)
                            (Some (files_of dcs))).
    { unfold t2.
      assert (Hfresh : forall x y, In x dcs -> In y (moved_so_far ov0) ->
                                   lname x <> lname y).
      { intros x y _ Hy. rewrite Hmoved in Hy. destruct Hy. }
      pose proof (flatten_moves pre post dn pre_not_dn files_not_override Edn
                    dcs [] ov0 Hndd Hfresh) as Hfm.
      cbn [app] in Hfm. rewrite Hfm.
      unfold after_moves. rewrite Hmoved. cbn [app].
      destruct (files_of dcs) as [| f fs] eqn:Ef; [| reflexivity].
      apply existsb_exists in Hfile. destruct Hfile as [c [Hc Hfc]].
      assert (Hin : In c (files_of dcs)) by (apply filter_In; now split).
      rewrite Ef in Hin. destruct Hin. }
    rewrite E2. split.
    + exists "override", (files_of dcs). split; [| split].
      * unfold root_shape. apply in_or_app. right. right.
        apply in_or_app. right. now left.
      * reflexivity.
      * intros c Hc Hfc. apply filter_In. split; [exact Hc |].
        now rewrite Hfc.
    + intros P HP Hall. rewrite Ht in Hall. rewrite forallb_app in Hall.
      apply andb_true_iff in Hall. destruct Hall as [Hpre Hall].
      cbn [forallb all_dirs] in Hall. rewrite !andb_true_iff in Hall.
      destruct Hall as [[Hdn Hdcs] Hpost].
      unfold root_shape. apply forallb_app_true; [exact Hpre |].
      cbn [forallb all_dirs]. rewrite Hdn. cbn [andb].
      rewrite (all_dirs_filter P is_directory dcs Hdcs). cbn [andb].
      apply forallb_app_true; [exact Hpost |].
      cbn [forallb all_dirs]. rewrite HP. cbn [andb].
      unfold files_of. now rewrite (all_dirs_filter P _ dcs Hdcs).
Qed.

End FlattenFacts.

(** [MyMod/readme.txt] is gone after the fix. *)
Lemma readme_does_not_reach_override : ~ every_file_reaches_override.
Proof.
  intros H.
  destruct (H (fun _ => None)
              [ModData.Dir "MyMod" [ModData.File "sky.tga";
                                    ModData.File "readme.txt"]]
              "MyMod" [ModData.File "sky.tga"; ModData.File "readme.txt"]
              eq_refl eq_refl eq_refl) as (t' & Hfix & _ & Hall).
  injection Hfix as <-.
  destruct (Hall (ModData.File "readme.txt") (or_intror (or_introl eq_refl))
                 eq_refl) as (ov & ocs & Hin & _ & Hc).
  destruct Hin as [Hin | []]. injection Hin as <- <-.
  destruct Hc as [Hc | []]. discriminate Hc.
Qed.

(** C5 (amended).  Take a tree whose root holds exactly one directory, that
    directory holding at least one file; no directory is named
    [tslpatchdata] or [data]; no prompt is answered (at most one directory
    holds a non-ignored file, or the dialog is dismissed); names are unique
    among the root's entries and among the directory's entries, and no
    root-level file is called [override].  Then [fix] returns a tree that
    [dataLooksValid] finds Valid, and every file directly inside the
    directory whose extension is accepted by some game folder and is not
    ignored is found in a root-level [override] directory. *)
Theorem single_folder_is_flattened_into_override :
  forall (ask : ModData.dialog) (t : ModData.tree) (dn : string)
         (dcs : list ModData.entry),
    ModData.root_dirs t = [ModData.Dir dn dcs] ->
    existsb (fun c => negb (ModData.is_directory c)) dcs = true ->
    ModData.has_patch_data t = false ->
    ModData.has_restricted_dir t = false ->
    dismissed ask \/ List.length (ModData.valid_dirs t) <= 1 ->
    NoDup (map lname t) ->
    NoDup (map lname dcs) ->
    (forall e, In e t -> lname e = "override" ->
               ModData.is_directory e = true) ->
    exists t',
      ModData.fix_tree ask t = Some t'
      /\ ModData.dataLooksValid t' = ModData.VALID
      /\ forall c, In c dcs -> ModData.kept_in_override c = true ->
                   exists ov ocs,
                     In (ModData.Dir ov ocs) t' /\
                     PyStr.lower ov = "override" /\ In c ocs.
Proof.
  intros ask t dn dcs Hr Hfile Hpatch Hrestr Hask Hnd Hndd Hov.
  destruct (flatten_loop_result t dn dcs Hr Hfile Hnd Hndd Hov)
    as (t1 & Hens & (ov & ocs & Hin & Hn & Hocs) & Hall).
  exists (ModData._cleanup_root (fold_left (flatten_step dn) dcs t1)).
  split.
  { rewrite (fix_tree_flattens ask t _ Hpatch Hask Hr), flatten_unfold.
    now rewrite Hens. }
  destruct (cleanup_root_keeps _ ov ocs Hin Hn) as (ocs' & Hin' & Hkeep).
  split.
  - apply cleaned_root_is_valid.
    + apply cleanup_root_names.
    + apply cleanup_root_all_dirs. apply Hall; [reflexivity |].
      now apply has_patch_data_false.
    + apply cleanup_root_all_dirs. apply Hall; [reflexivity |].
      now apply has_restricted_dir_false.
    + now exists ov, ocs'.
  - intros c Hc Hk. exists ov, ocs'. split; [exact Hin' |].
    split; [exact Hn |]. apply Hkeep; [| exact Hk]. apply Hocs; [exact Hc |].
    unfold ModData.kept_in_override in Hk. apply andb_true_iff in Hk.
    now apply negb_true_iff.
Qed.

(** A wrapper folder with a texture, a readme and a sub-folder, beside a
    loose text file. *)
Lemma single_folder_is_flattened_into_override_witness :
  exists t',
    ModData.fix_tree (fun _ => None)
      [ModData.Dir "MyMod" [ModData.File "sky.tga"; ModData.File "readme.txt";
                            ModData.Dir "docs" []];
       ModData.File "install.txt"] = Some t'
    /\ ModData.dataLooksValid t' = ModData.VALID
    /\ forall c,
         In c [ModData.File "sky.tga"; ModData.File "readme.txt";
               ModData.Dir "docs" []] ->
         ModData.kept_in_override c = true ->
         exists ov ocs,
           In (ModData.Dir ov ocs) t' /\
           PyStr.lower ov = "override" /\ In c ocs.
Proof.
  apply (single_folder_is_flattened_into_override (fun _ => None)
           [ModData.Dir "MyMod" [ModData.File "sky.tga";
                                 ModData.File "readme.txt";
                                 ModData.Dir "docs" []];
            ModData.File "install.txt"]
           "MyMod"
           [ModData.File "sky.tga"; ModData.File "readme.txt";
            ModData.Dir "docs" []]).
  - reflexivity.
  - reflexivity.
  - reflexivity.
  - reflexivity.
  - left. intros options. reflexivity.
  - repeat constructor; simpl; intuition discriminate.
  - repeat constructor; simpl; intuition discriminate.
  - intros e [<- | [<- | []]] H; [reflexivity | discriminate H].
Defined.

(* ================================================================== *)
(** ** The fixer on Valid trees *)
(* ================================================================== *)

Section ValidFacts.

Import PyStr PyDict ModData.

#[local] Arguments mem : simpl never.
#[local] Arguments lower : simpl never.

Lemma valid_has_no_patch_data (t : tree) :
  dataLooksValid t = VALID -> has_patch_data t = false.
Proof.
  unfold dataLooksValid. now destruct (has_patch_data t).
Qed.

Lemma fix_tree_idle (ask : dialog) (t : tree) :
  dataLooksValid t = VALID ->
  dismissed ask \/ List.length (valid_dirs t) <= 1 ->
  List.length (root_dirs t) <> 1 ->
  loose_valid t = [] ->
  fix_tree ask t = Some t.
Proof.
  intros Hv Hask Hr Hl.
  pose proof (no_patch_dirs t (valid_has_no_patch_data t Hv)) as Hp.
  unfold fix_tree.
  rewrite many_patch_dirs_quiet by (right; rewrite Hp; simpl; lia).
  rewrite one_patch_dir_skipped by (rewrite Hp; simpl; lia).
  rewrite (many_mod_dirs_quiet ask t Hask).
  now rewrite fix_unprompted_idle.
Qed.

Lemma filter_all {A} (p : A -> bool) (l : list A) :
  forallb p l = true -> filter p l = l.
Proof.
  induction l as [| x l IH]; simpl; [reflexivity |].
  intros H. apply andb_true_iff in H. destruct H as [Hx Hl].
  now rewrite Hx, IH.
Qed.

Lemma kept_are_files (cs : list entry) :
  forallb kept_in_override cs = true ->
  forallb (fun c => negb (is_directory c)) cs = true.
Proof.
  rewrite !forallb_forall. intros H c Hc. specialize (H c Hc).
  unfold kept_in_override in H. now apply andb_true_iff in H.
Qed.

(** A tree made of a clean [override] directory. *)
Section CleanOverride.

Variables (n : string) (cs : list entry).
Hypothesis n_override : lower n = "override".
Hypothesis cs_clean : forallb kept_in_override cs = true.

Lemma clean_override_dirs : _iter_dirs [Dir n cs] = [([], Dir n cs)].
Proof.
  unfold _iter_dirs. cbn [flat_map walk app].
  rewrite (files_have_no_dirs _ cs (kept_are_files cs cs_clean)).
  reflexivity.
Qed.

Lemma clean_override_found :
  _find_dirs_named [Dir n cs] "override" = [([], Dir n cs)].
Proof.
  unfold _find_dirs_named. rewrite clean_override_dirs.
  cbn [filter snd name]. now rewrite n_override.
Qed.

Lemma clean_override_no_patch :
  _find_dirs_named [Dir n cs] "tslpatchdata" = [].
Proof.
  unfold _find_dirs_named. rewrite clean_override_dirs.
  cbn [filter snd name]. now rewrite n_override.
Qed.

Lemma clean_override_valid : dataLooksValid [Dir n cs] = VALID.
Proof.
  apply cleaned_root_is_valid.
  - intros e [<- | []]. cbn [name]. now rewrite n_override.
  - apply located_all_dirs. intros d Hd. rewrite clean_override_dirs in Hd.
    destruct Hd as [<- | []]. unfold not_patch_data. cbn [snd name].
    now rewrite n_override.
  - apply located_all_dirs. intros d Hd. rewrite clean_override_dirs in Hd.
    destruct Hd as [<- | []]. unfold not_restricted. cbn [snd name].
    now rewrite n_override.
  - exists n, cs. split; [now left | exact n_override].
Qed.

Lemma clean_override_cleanup : _cleanup_root [Dir n cs] = [Dir n cs].
Proof.
  unfold _cleanup_root. cbn [filter name]. rewrite n_override.
  change (mem "override" valid_top) with true. cbv iota.
  rewrite clean_override_found. unfold path_of. cbn [fst snd name app].
  cbn [update_at map_first]. unfold same_name. cbn [name].
  rewrite String.eqb_refl. now rewrite (filter_all _ cs cs_clean).
Qed.

Lemma clean_override_flatten :
  flatten (Dir n cs) [Dir n cs] = Some [Dir n cs].
Proof.
  rewrite flatten_unfold. unfold ensure_override.
  rewrite clean_override_found. f_equal.
  assert (Hf : forall m, lower m = "override" ->
                         find (same_name m) [Dir n cs] = Some (Dir n cs)).
  { intros m Hm. cbn [find]. unfold same_name. cbn [name].
    now rewrite n_override, Hm. }
  rewrite (flatten_in_place [Dir n cs] n cs (Hf n n_override)
             (Hf "override" eq_refl) cs (incl_refl cs)).
  apply clean_override_cleanup.
Qed.

Lemma clean_override_fixed (ask : dialog) :
  fix_tree ask [Dir n cs] = Some [Dir n cs].
Proof.
  rewrite (fix_tree_flattens ask [Dir n cs] (Dir n cs)).
  - now rewrite clean_override_flatten.
  - unfold has_patch_data. now rewrite clean_override_no_patch.
  - right. unfold valid_dirs. rewrite clean_override_dirs. cbn [filter].
    destruct (has_unignored_file _); simpl; lia.
  - reflexivity.
Qed.

End CleanOverride.

End ValidFacts.

(** [modules/area.mod] is Valid, yet the fix moves the file. *)
Lemma fix_moves_module_files : ~ fix_is_identity_on_valid.
Proof.
  intros H.
  specialize (H (fun _ => None)
                [ModData.Dir "modules" [ModData.File "area.mod"]] eq_refl).
  discriminate H.
Qed.

(** C4 (amended).  [fix] returns a Valid tree unchanged when none of its
    rules applies: no prompt is answered, the root does not hold exactly one
    directory, and every root-level file ends in an ignored extension.  It
    also returns unchanged the tree made of one [override] directory that
    holds only files with an accepted, non-ignored extension, and which is
    Valid. *)
Theorem fix_leaves_clean_trees_alone :
  forall (ask : ModData.dialog) (t : ModData.tree) (n : string)
         (cs : list ModData.entry),
    ModData.dataLooksValid t = ModData.VALID ->
    dismissed ask \/ List.length (ModData.valid_dirs t) <= 1 ->
    List.length (ModData.root_dirs t) <> 1 ->
    ModData.loose_valid t = [] ->
    PyStr.lower n = "override" ->
    forallb ModData.kept_in_override cs = true ->
    ModData.fix_tree ask t = Some t
    /\ ModData.dataLooksValid [ModData.Dir n cs] = ModData.VALID
    /\ ModData.fix_tree ask [ModData.Dir n cs] = Some [ModData.Dir n cs].
Proof.
  intros ask t n cs Hv Hask Hr Hl Hn Hcs. split; [| split].
  - now apply fix_tree_idle.
  - now apply clean_override_valid.
  - now apply clean_override_fixed.
Qed.

(** Two game folders beside a readme; a lone [Override] folder. *)
Lemma fix_leaves_clean_trees_alone_witness :
  ModData.fix_tree (fun _ => None)
    [ModData.Dir "override" [ModData.File "sky.tga"];
     ModData.Dir "modules" [ModData.File "area.mod"];
     ModData.File "readme.txt"] =
    Some [ModData.Dir "override" [ModData.File "sky.tga"];
          ModData.Dir "modules" [ModData.File "area.mod"];
          ModData.File "readme.txt"]
  /\ ModData.dataLooksValid
       [ModData.Dir "Override" [ModData.File "sky.tga";
                                ModData.File "sky.txi"]] = ModData.VALID
  /\ ModData.fix_tree (fun _ => None)
       [ModData.Dir "Override" [ModData.File "sky.tga";
                                ModData.File "sky.txi"]] =
     Some [ModData.Dir "Override" [ModData.File "sky.tga";
                                   ModData.File "sky.txi"]].
Proof.
  apply (fix_leaves_clean_trees_alone (fun _ => None)
           [ModData.Dir "override" [ModData.File "sky.tga"];
            ModData.Dir "modules" [ModData.File "area.mod"];
            ModData.File "readme.txt"]
           "Override" [ModData.File "sky.tga"; ModData.File "sky.txi"]).
  - reflexivity.
  - left. intros options. reflexivity.
  - simpl. lia.
  - reflexivity.
  - reflexivity.
  - reflexivity.
Defined.

(* ================================================================== *)
(** ** The decoder on images of any size *)
(* ================================================================== *)

Section DecoderFacts.

Import Tga.

(** Once the header is read, the two loops decide. *)
Lemma arguments_header (idb wlo whi hlo hhi depth desc : byte)
    (mid ident payload : list byte) :
  List.length mid = 11 ->
  List.length ident = Byte.to_nat idb ->
  depth = x18 \/ depth = x20 ->
  let k := Byte.to_nat depth / 8 in
  qimage_arguments
    (tga_file idb mid wlo whi hlo hhi depth desc ident payload) =
  match swap_channels
          (flip_rows payload (le16 hlo hhi) (le16 wlo whi * k)) k with
  | Some fl => Some (mkPixbuf (le16 wlo whi) (le16 hlo hhi) (format_of k) fl)
  | None => None
  end.
Proof.
  intros Hmid Hid Hd k.
  do 12 (destruct mid as [| ? mid]; try discriminate Hmid).
  unfold tga_file, qimage_arguments, unpack_H. cbn [app nth_error].
  fold (le16 wlo whi). fold (le16 hlo hhi).
  assert (Hneg : negb ((Byte.to_nat depth =? 24) || (Byte.to_nat depth =? 32))
                 = false) by (destruct Hd as [-> | ->]; reflexivity).
  rewrite Hneg. cbn [Nat.add skipn].
  rewrite (skipn_exact ident _ (Byte.to_nat idb) Hid).
  fold k.
  replace (if Byte.to_nat depth =? 24 then Format_RGB888 else Format_RGBA8888)
    with (format_of k) by (unfold k; destruct Hd as [-> | ->]; reflexivity).
  reflexivity.
Qed.

(** *** The row loop *)

Lemma concat_length_uniform {A} (rs : nat) (rows : list (list A)) :
  Forall (fun r => List.length r = rs) rows ->
  List.length (List.concat rows) = List.length rows * rs.
Proof.
  induction 1 as [| r rows Hr _ IH]; simpl; [reflexivity |].
  rewrite length_app, Hr, IH. reflexivity.
Qed.

Lemma slice_row {A} (rs : nat) (rows : list (list A)) (i : nat) :
  Forall (fun r => List.length r = rs) rows ->
  i < List.length rows ->
  slice (List.concat rows) (i * rs) ((i + 1) * rs) = nth i rows [].
Proof.
  intros Hall. revert i. induction Hall as [| r rows Hr _ IH]; intros i Hi.
  - simpl in Hi. lia.
  - unfold slice in *. destruct i as [| i]; simpl.
    + rewrite Nat.add_0_r, Nat.sub_0_r.
      rewrite firstn_app, <- Hr, Nat.sub_diag, firstn_all. simpl.
      apply app_nil_r.
    + rewrite skipn_app, Hr.
      replace (rs + i * rs - rs) with (i * rs) by lia.
      rewrite (skipn_all2 r) by lia. simpl.
      replace (rs + (i + 1) * rs - (rs + i * rs)) with ((i + 1) * rs - i * rs)
        by lia.
      apply IH. simpl in Hi. lia.
Qed.

Lemma firstn_succ_nth {A} (l : list A) (n : nat) (d : A) :
  n < List.length l -> firstn (S n) l = firstn n l ++ [nth n l d].
Proof.
  revert n. induction l as [| x l IH]; intros n Hn; simpl in Hn; [lia |].
  destruct n as [| n]; simpl; [reflexivity |]. f_equal. apply IH. lia.
Qed.

Lemma skipn_repeat_zero {A} (x : A) (n m : nat) :
  skipn n (repeat x m) = repeat x (m - n).
Proof.
  revert m. induction n as [| n IH]; intros m; simpl.
  - now rewrite Nat.sub_0_r.
  - destruct m as [| m]; simpl; [reflexivity | apply IH].
Qed.

Lemma nth_uniform_length {A} (rs : nat) (rows : list (list A)) (i : nat) :
  Forall (fun r => List.length r = rs) rows -> i < List.length rows ->
  List.length (nth i rows []) = rs.
Proof.
  intros Hall Hi. rewrite Forall_forall in Hall. apply Hall. now apply nth_In.
Qed.

Lemma flip_step_correct (rs : nat) (rows : list (list byte)) (y : nat) :
  Forall (fun r => List.length r = rs) rows ->
  y < List.length rows ->
  flip_step (List.concat rows) (List.length rows) rs
            (flipped_after rows rs y) y =
  flipped_after rows rs (S y).
Proof.
  intros Hall Hy. unfold flip_step, flipped_after, slice_assign.
  assert (Hrev : Forall (fun r => List.length r = rs) (rev rows)).
  { apply Forall_forall. intros r Hr. rewrite <- in_rev in Hr.
    rewrite Forall_forall in Hall. now apply Hall. }
  assert (Hpre : List.length (List.concat (firstn y (rev rows))) = y * rs).
  { rewrite (concat_length_uniform rs).
    - rewrite length_firstn, length_rev. f_equal. lia.
    - rewrite <- (firstn_skipn y (rev rows)) in Hrev.
      apply Forall_app in Hrev. apply Hrev. }
  rewrite (firstn_succ_nth (rev rows) y []) by (rewrite length_rev; exact Hy).
  rewrite (slice_row rs rows (List.length rows - 1 - y) Hall) by lia.
  replace (nth (List.length rows - 1 - y) rows [])
    with (nth y (rev rows) []).
  2:{ rewrite rev_nth by exact Hy. f_equal. lia. }
  rewrite firstn_app, Hpre, Nat.sub_diag, <- Hpre, firstn_all. simpl firstn.
  rewrite app_nil_r, Hpre.
  rewrite Nat.max_r by lia.
  rewrite skipn_app, Hpre.
  rewrite (skipn_all2 (List.concat (firstn y (rev rows)))) by lia.
  replace ((y + 1) * rs - y * rs) with rs by lia.
  rewrite skipn_repeat_zero. simpl app.
  rewrite concat_app. simpl List.concat. rewrite app_nil_r, <- app_assoc.
  do 3 f_equal. nia.
Qed.

Lemma flip_rows_from (rs : nat) (rows : list (list byte)) :
  Forall (fun r => List.length r = rs) rows ->
  forall n y,
    y + n = List.length rows ->
    fold_left (flip_step (List.concat rows) (List.length rows) rs) (seq y n)
              (flipped_after rows rs y) =
    flipped_after rows rs (List.length rows).
Proof.
  intros Hall. induction n as [| n IH]; intros y Hy; simpl.
  - now replace y with (List.length rows) by lia.
  - rewrite flip_step_correct by (auto; lia). apply IH. lia.
Qed.

(** The row loop turns the rows of the file upside down. *)
Lemma flip_rows_correct (rs : nat) (rows : list (list byte)) :
  Forall (fun r => List.length r = rs) rows ->
  flip_rows (List.concat rows) (List.length rows) rs = List.concat (rev rows).
Proof.
  intros Hall. unfold flip_rows.
  rewrite (concat_length_uniform rs rows Hall).
  change (repeat x00 (List.length rows * rs))
    with ([] ++ repeat x00 (List.length rows * rs)).
  replace ([] ++ repeat x00 (List.length rows * rs))
    with (flipped_after rows rs 0).
  2:{ unfold flipped_after. simpl. now rewrite Nat.sub_0_r. }
  rewrite (flip_rows_from rs rows Hall (List.length rows) 0) by lia.
  unfold flipped_after.
  rewrite Nat.sub_diag. simpl repeat. rewrite app_nil_r.
  rewrite firstn_all2 by (rewrite length_rev; lia). reflexivity.
Qed.

(** *** The channel loop *)

Lemma set_nth_app {A} (pre l : list A) (m : nat) (x : A) :
  set_nth (pre ++ l) (List.length pre + m) x = pre ++ set_nth l m x.
Proof. induction pre as [| y pre IH]; simpl; [reflexivity | now rewrite IH]. Qed.

Lemma set_nth_length {A} (l : list A) (i : nat) (x : A) :
  List.length (set_nth l i x) = List.length l.
Proof.
  revert i. induction l as [| y l IH]; intros [| i]; simpl; auto.
Qed.

Lemma nth_error_after {A} (pre l : list A) (m : nat) :
  nth_error (pre ++ l) (List.length pre + m) = nth_error l m.
Proof.
  rewrite nth_error_app2 by lia. f_equal. lia.
Qed.

Lemma nth_error_at {A} (pre l : list A) :
  nth_error (pre ++ l) (List.length pre) = nth_error l 0.
Proof. rewrite <- (nth_error_after pre l 0). f_equal. lia. Qed.

Lemma set_nth_at {A} (pre l : list A) (x : A) :
  set_nth (pre ++ l) (List.length pre) x = pre ++ set_nth l 0 x.
Proof. rewrite <- (set_nth_app pre l 0 x). f_equal. lia. Qed.

Lemma swap02_length (p : list byte) : List.length (swap02 p) = List.length p.
Proof. destruct p as [| b [| g [| r rest]]]; reflexivity. Qed.

(** One pass on the pixel that starts where [pre] ends. *)
Lemma swap_step_pixel (pre p post : list byte) :
  3 <= List.length p ->
  swap_step (Some (pre ++ p ++ post)) (List.length pre) =
  Some (pre ++ swap02 p ++ post).
Proof.
  intros Hp. destruct p as [| b [| g [| r rest]]]; simpl in Hp; try lia.
  unfold swap_step.
  rewrite (nth_error_after pre _ 2), nth_error_at. cbn [app nth_error].
  rewrite set_nth_at. cbn [set_nth]. rewrite set_nth_app. reflexivity.
Qed.

Lemma skipn_nth_cons {A} (l : list A) (n : nat) (d : A) :
  n < List.length l -> skipn n l = nth n l d :: skipn (S n) l.
Proof.
  revert n. induction l as [| x l IH]; intros n Hn; simpl in Hn; [lia |].
  destruct n as [| n]; [reflexivity |]. simpl. apply IH. lia.
Qed.

Lemma swap_loop_from (k : nat) (pixels : list (list byte)) :
  3 <= k ->
  Forall (fun p => List.length p = k) pixels ->
  forall n j,
    j + n = List.length pixels ->
    fold_left swap_step (map (fun i => i * k) (seq j n))
              (Some (swapped_after pixels j)) =
    Some (swapped_after pixels (List.length pixels)).
Proof.
  intros Hk Hall. induction n as [| n IH]; intros j Hj.
  - simpl. now replace j with (List.length pixels) by lia.
  - assert (Hlt : j < List.length pixels) by lia.
    assert (Hpre : List.length (List.concat (map swap02 (firstn j pixels)))
                   = j * k).
    { rewrite (concat_length_uniform k).
      - rewrite length_map, length_firstn. f_equal. lia.
      - apply Forall_forall. intros p Hp. apply in_map_iff in Hp.
        destruct Hp as [q [<- Hq]]. rewrite swap02_length.
        rewrite Forall_forall in Hall. apply Hall.
        rewrite <- (firstn_skipn j pixels). apply in_or_app. now left. }
    assert (Hstep : swap_step (Some (swapped_after pixels j)) (j * k) =
                    Some (swapped_after pixels (S j))).
    { unfold swapped_after.
      rewrite (skipn_nth_cons pixels j [] Hlt). cbn [List.concat].
      rewrite <- Hpre, swap_step_pixel
        by (rewrite (nth_uniform_length k pixels j Hall Hlt); exact Hk).
      rewrite (firstn_succ_nth pixels j [] Hlt), map_app, concat_app.
      cbn [map List.concat]. now rewrite app_nil_r, <- app_assoc. }
    cbn [seq map fold_left]. rewrite Hstep. apply IH. lia.
Qed.

Lemma range_step_exact (n k : nat) :
  0 < k -> range_step (n * k) k = map (fun i => i * k) (seq 0 n).
Proof.
  intros Hk. unfold range_step. do 2 f_equal.
  replace (n * k + k - 1) with (n * k + (k - 1)) by lia.
  rewrite Nat.div_add_l by lia. rewrite Nat.div_small by lia. lia.
Qed.

(** The channel loop exchanges bytes 0 and 2 of every pixel. *)
Lemma swap_channels_correct (k : nat) (pixels : list (list byte)) :
  3 <= k ->
  Forall (fun p => List.length p = k) pixels ->
  swap_channels (List.concat pixels) k =
  Some (List.concat (map swap02 pixels)).
Proof.
  intros Hk Hall. unfold swap_channels.
  rewrite (concat_length_uniform k pixels Hall), range_step_exact by lia.
  pose proof (swap_loop_from k pixels Hk Hall (List.length pixels) 0 eq_refl)
    as H.
  unfold swapped_after in H. cbn [firstn map List.concat skipn app] in H.
  rewrite H, firstn_all, skipn_all. cbn [List.concat]. now rewrite app_nil_r.
Qed.

Lemma concat_map_concat {A} (l : list (list (list A))) :
  List.concat (map (@List.concat A) l) = List.concat (List.concat l).
Proof.
  induction l as [| x l IH]; simpl; [reflexivity |].
  now rewrite concat_app, IH.
Qed.

End DecoderFacts.

(** The buffer handed to [QImage]: the rows in reverse order, each pixel
    with its bytes 0 and 2 exchanged. *)
Lemma arguments_any_size :
  forall (idb wlo whi hlo hhi depth desc : byte) (mid ident : list byte)
         (rows : list (list (list byte))),
    List.length mid = 11 ->
    List.length ident = Byte.to_nat idb ->
    depth = x18 \/ depth = x20 ->
    List.length rows = le16 hlo hhi ->
    Forall (fun row => List.length row = le16 wlo whi) rows ->
    Forall (Forall (fun px => List.length px = Byte.to_nat depth / 8)) rows ->
    Tga.qimage_arguments
      (tga_file idb mid wlo whi hlo hhi depth desc ident (image_bytes rows)) =
    Some (Tga.mkPixbuf (le16 wlo whi) (le16 hlo hhi)
            (format_of (Byte.to_nat depth / 8))
            (image_bytes (map (map swap02) (rev rows)))).
Proof.
  intros idb wlo whi hlo hhi depth desc mid ident rows Hmid Hid Hd Hh Hw Hpx.
  rewrite arguments_header by assumption. cbv zeta.
  set (k := Byte.to_nat depth / 8) in *.
  assert (Hk : 3 <= k) by (unfold k; destruct Hd as [-> | ->]; simpl; lia).
  assert (Hrows : Forall (fun r => List.length r = le16 wlo whi * k)
                         (map (@List.concat byte) rows)).
  { apply Forall_forall. intros r Hr. apply in_map_iff in Hr.
    destruct Hr as [row [<- Hrow]].
    rewrite Forall_forall in Hw, Hpx.
    rewrite (concat_length_uniform k row (Hpx row Hrow)).
    now rewrite (Hw row Hrow). }
  unfold image_bytes.
  rewrite <- Hh, <- (length_map (@List.concat byte) rows).
  rewrite (flip_rows_correct _ _ Hrows).
  rewrite <- map_rev, concat_map_concat.
  rewrite swap_channels_correct.
  - rewrite concat_map, <- concat_map_concat. now rewrite length_map.
  - exact Hk.
  - apply Forall_concat. apply Forall_rev. exact Hpx.
Qed.

Section ImageFacts.

Import Tga.

Lemma nth_error_window {A} (l : list A) (n : nat) :
  forall a,
    a + n <= List.length l ->
    map (nth_error l) (seq a n) = map Some (slice l a (a + n)).
Proof.
  unfold slice. induction n as [| n IH]; intros a H.
  - now rewrite Nat.add_0_r, Nat.sub_diag.
  - replace (a + S n - a) with (S n) by lia.
    destruct (skipn a l) as [| x rest] eqn:E.
    + apply (f_equal (@List.length A)) in E. rewrite length_skipn in E.
      simpl in E. lia.
    + cbn [seq map firstn]. f_equal.
      * rewrite <- (firstn_skipn a l) at 1. rewrite E.
        rewrite nth_error_app2 by (rewrite length_firstn; lia).
        rewrite length_firstn.
        replace (a - Nat.min a (List.length l)) with 0 by lia.
        reflexivity.
      * rewrite IH by lia.
        replace (S a + n - S a) with n by lia. f_equal. f_equal.
        replace (S a) with (1 + a) by lia.
        rewrite <- skipn_skipn, E. reflexivity.
Qed.

Lemma rows_by_index {A} (d : A) (l : list A) :
  map (fun y => nth y l d) (seq 0 (List.length l)) = l.
Proof.
  induction l as [| x l IH]; [reflexivity |].
  cbn [List.length seq map nth]. f_equal.
  rewrite <- seq_shift, map_map. exact IH.
Qed.

(** Scanlines that are as long as the rows of the buffer are its rows. *)
Lemma aligned_scanlines (w h : nat) (fmt : format)
    (rows : list (list byte)) :
  Forall (fun r => List.length r = w * (depth_of fmt / 8)) rows ->
  List.length rows = h ->
  bytes_per_line w fmt = w * (depth_of fmt / 8) ->
  map (scanline (mkPixbuf w h fmt (List.concat rows))) (seq 0 h) =
  map (map Some) rows.
Proof.
  intros Hrows Hh Hbpl. rewrite <- (rows_by_index [] rows) at 2.
  rewrite map_map, Hh. apply map_ext_in. intros y Hy.
  apply in_seq in Hy. unfold scanline. cbn [pb_width pb_format pb_bytes].
  rewrite Hbpl. set (rs := w * (depth_of fmt / 8)) in *.
  rewrite nth_error_window.
  - replace (y * rs + rs) with ((y + 1) * rs) by lia.
    now rewrite (slice_row rs rows y Hrows) by lia.
  - rewrite (concat_length_uniform rs rows Hrows). nia.
Qed.

Lemma bytes_per_line_aligned (w : nat) (fmt : format) :
  fmt = Format_RGBA8888 \/ w mod 4 = 0 ->
  bytes_per_line w fmt = w * (depth_of fmt / 8).
Proof.
  intros H. unfold bytes_per_line.
  assert (E : fmt = Format_RGBA8888 \/ (fmt = Format_RGB888 /\ w mod 4 = 0)).
  { destruct fmt; [right | left]; [| reflexivity].
    destruct H as [H | H]; [discriminate | now split]. }
  destruct E as [-> | [-> Hw]]; cbn [depth_of].
  - change (32 / 8) with 4. rewrite Nat.div_add_l by lia.
    change (31 / 32) with 0. lia.
  - change (24 / 8) with 3.
    pose proof (Nat.div_mod_eq w 4) as Hd. rewrite Hw in Hd.
    replace (w * 24 + 31) with (w / 4 * 3 * 32 + 31) by lia.
    rewrite Nat.div_add_l by lia. change (31 / 32) with 0. lia.
Qed.

End ImageFacts.

(** X1.  For every width and height above zero, at depth 32, or at depth 24
    with a width that is a multiple of four: a file whose payload holds
    height rows of width pixels decodes to an image of the declared size
    whose rows are those of the payload in reverse order, each pixel with
    its bytes 0 and 2 exchanged. *)
Theorem getScreenshot_any_size :
  forall (idb wlo whi hlo hhi depth desc : byte) (mid ident : list byte)
         (rows : list (list (list byte))),
    List.length mid = 11 ->
    List.length ident = Byte.to_nat idb ->
    depth = x18 \/ depth = x20 ->
    List.length rows = le16 hlo hhi ->
    Forall (fun row => List.length row = le16 wlo whi) rows ->
    Forall (Forall (fun px => List.length px = Byte.to_nat depth / 8)) rows ->
    0 < le16 wlo whi ->
    0 < le16 hlo hhi ->
    depth = x20 \/ le16 wlo whi mod 4 = 0 ->
    Tga.getScreenshot
      (tga_file idb mid wlo whi hlo hhi depth desc ident (image_bytes rows)) =
    Some (Tga.mkImage (le16 wlo whi) (le16 hlo hhi)
            (format_of (Byte.to_nat depth / 8))
            (image_rows (map (map swap02) (rev rows)))).
Proof.
  intros idb wlo whi hlo hhi depth desc mid ident rows
         Hmid Hid Hd Hh Hw Hpx Hw0 Hh0 Hal.
  unfold Tga.getScreenshot.
  rewrite (arguments_any_size idb wlo whi hlo hhi depth desc mid ident rows)
    by assumption.
  unfold Tga.QImage. cbn [Tga.pb_width Tga.pb_height Tga.pb_format].
  replace (le16 wlo whi =? 0) with false by (symmetry; apply Nat.eqb_neq; lia).
  replace (le16 hlo hhi =? 0) with false by (symmetry; apply Nat.eqb_neq; lia).
  cbn [orb]. do 2 f_equal.
  set (fmt := format_of (Byte.to_nat depth / 8)).
  assert (Hk : Tga.depth_of fmt / 8 = Byte.to_nat depth / 8)
    by (unfold fmt; destruct Hd as [-> | ->]; reflexivity).
  unfold image_bytes, image_rows.
  rewrite (aligned_scanlines (le16 wlo whi) (le16 hlo hhi) fmt).
  - now rewrite map_map.
  - apply Forall_forall. intros r Hr. apply in_map_iff in Hr.
    destruct Hr as [row [<- Hrow]]. apply in_map_iff in Hrow.
    destruct Hrow as [row0 [<- Hrow0]]. apply in_rev in Hrow0.
    rewrite Forall_forall in Hw, Hpx. rewrite Hk.
    rewrite (concat_length_uniform (Byte.to_nat depth / 8)).
    + now rewrite length_map, (Hw row0 Hrow0).
    + apply Forall_forall. intros px Hpx'. apply in_map_iff in Hpx'.
      destruct Hpx' as [px0 [<- Hpx0]]. rewrite swap02_length.
      specialize (Hpx row0 Hrow0). rewrite Forall_forall in Hpx.
      now apply Hpx.
  - now rewrite !length_map, length_rev.
  - apply bytes_per_line_aligned.
    destruct Hal as [-> | Hal]; [left; reflexivity | now right].
Qed.

(** A 1x3 image at depth 32. *)
Lemma getScreenshot_any_size_witness :
  Tga.getScreenshot
    (tga_file x00 sample_mid x01 x00 x03 x00 x20 x08 []
       (image_bytes [[[x01; x02; x03; x04]]; [[x05; x06; x07; x08]];
                     [[x09; x0a; x0b; x0c]]])) =
  Some (Tga.mkImage 1 3 Tga.Format_RGBA8888
          [[Some x0b; Some x0a; Some x09; Some x0c];
           [Some x07; Some x06; Some x05; Some x08];
           [Some x03; Some x02; Some x01; Some x04]]).
Proof.
  apply (getScreenshot_any_size x00 x01 x00 x03 x00 x20 x08 sample_mid []
           [[[x01; x02; x03; x04]]; [[x05; x06; x07; x08]];
            [[x09; x0a; x0b; x0c]]]).
  - reflexivity.
  - reflexivity.
  - now right.
  - reflexivity.
  - repeat constructor.
  - repeat constructor.
  - vm_compute. lia.
  - vm_compute. lia.
  - now left.
Defined.

(* ================================================================== *)
(** ** The decoder on payloads of other lengths *)
(* ================================================================== *)

Section DecoderEdgeFacts.

Import Tga.

Lemma flip_step_length (img : list byte) (h rs : nat) (fl : list byte)
    (y : nat) :
  h * rs <= List.length img -> List.length fl = List.length img -> y < h ->
  List.length (flip_step img h rs fl y) = List.length img.
Proof.
  intros Himg Hfl Hy. unfold flip_step, slice_assign, slice.
  rewrite !length_app, !length_firstn, !length_skipn, Hfl.
  assert (y * rs + rs <= h * rs) by nia.
  assert ((h - 1 - y) * rs + rs <= h * rs) by nia.
  nia.
Qed.

Lemma flip_rows_length (img : list byte) (h rs : nat) :
  h * rs <= List.length img ->
  List.length (flip_rows img h rs) = List.length img.
Proof.
  intros Himg. unfold flip_rows.
  assert (H : forall ys fl,
             Forall (fun y => y < h) ys ->
             List.length fl = List.length img ->
             List.length (fold_left (flip_step img h rs) ys fl) =
             List.length img).
  { induction ys as [| y ys IH]; intros fl Hys Hfl; simpl; [exact Hfl |].
    inversion Hys; subst. apply IH; [assumption |].
    now apply flip_step_length. }
  apply H.
  - apply Forall_forall. intros y Hy. apply in_seq in Hy. lia.
  - apply repeat_length.
Qed.

Lemma swap_step_length (st : option (list byte)) (i : nat) (fl' : list byte) :
  swap_step st i = Some fl' ->
  exists fl, st = Some fl /\ List.length fl' = List.length fl.
Proof.
  unfold swap_step. destruct st as [fl |]; [| discriminate].
  destruct (nth_error fl (i + 2)); [| discriminate].
  destruct (nth_error fl i); [| discriminate].
  intros [= <-]. exists fl. split; [reflexivity |].
  now rewrite !set_nth_length.
Qed.

Lemma swap_fold_length (l : list nat) :
  forall (fl fl' : list byte),
    fold_left swap_step l (Some fl) = Some fl' ->
    List.length fl' = List.length fl.
Proof.
  induction l as [| i l IH] using rev_ind; intros fl fl' H.
  - simpl in H. now injection H as <-.
  - rewrite fold_left_app in H. simpl in H.
    apply swap_step_length in H. destruct H as (fl1 & H1 & Hl).
    rewrite Hl. now apply IH.
Qed.

Lemma range_step_ragged (n k : nat) :
  0 < k -> 0 < n mod k ->
  range_step n k = map (fun i => i * k) (seq 0 (n / k)) ++ [n / k * k].
Proof.
  intros Hk Hr. unfold range_step.
  assert (E : (n + k - 1) / k = S (n / k)).
  { symmetry. apply (Nat.div_unique _ _ _ (n mod k - 1)).
    - pose proof (Nat.mod_upper_bound n k). lia.
    - pose proof (Nat.div_mod_eq n k). lia. }
  rewrite E, seq_S, map_app. reflexivity.
Qed.

(** A buffer whose length leaves a remainder of 1 or 2 makes the channel
    loop run off its end. *)
Lemma swap_channels_ragged (fl : list byte) (k : nat) :
  0 < k ->
  List.length fl mod k = 1 \/ List.length fl mod k = 2 ->
  swap_channels fl k = None.
Proof.
  intros Hk Hr. unfold swap_channels.
  rewrite range_step_ragged by lia. rewrite fold_left_app. cbn [fold_left].
  destruct (fold_left swap_step _ (Some fl)) as [fl' |] eqn:E; [| reflexivity].
  apply swap_fold_length in E. unfold swap_step.
  assert (Hnone : nth_error fl' (List.length fl / k * k + 2) = None).
  { apply nth_error_None. rewrite E.
    pose proof (Nat.div_mod_eq (List.length fl) k). lia. }
  now rewrite Hnone.
Qed.

Lemma flip_rows_nil (h rs : nat) : flip_rows [] h rs = [].
Proof.
  unfold flip_rows. cbn [List.length repeat].
  induction (seq 0 h) as [| y ys IH]; [reflexivity |].
  cbn [fold_left].
  replace (flip_step [] h rs [] y) with (@nil byte); [exact IH |].
  unfold flip_step, slice_assign, slice.
  now rewrite !skipn_nil, !firstn_nil.
Qed.

End DecoderEdgeFacts.

(** X2.  At depth 24 or 32, when the payload is at least as long as the
    declared image and its length leaves a remainder of 1 or 2 modulo the
    bytes per pixel, no pixmap is produced: the channel loop reads past the
    end of the buffer.  This is the case of an image followed by the
    26-byte footer of the newer file format. *)
Theorem getScreenshot_rejects_ragged_payload :
  forall (idb wlo whi hlo hhi depth desc : byte)
         (mid ident payload : list byte),
    List.length mid = 11 ->
    List.length ident = Byte.to_nat idb ->
    depth = x18 \/ depth = x20 ->
    le16 hlo hhi * (le16 wlo whi * (Byte.to_nat depth / 8))
      <= List.length payload ->
    List.length payload mod (Byte.to_nat depth / 8) = 1 \/
    List.length payload mod (Byte.to_nat depth / 8) = 2 ->
    Tga.getScreenshot
      (tga_file idb mid wlo whi hlo hhi depth desc ident payload) = None.
Proof.
  intros idb wlo whi hlo hhi depth desc mid ident payload
         Hmid Hid Hd Hlen Hmod.
  unfold Tga.getScreenshot.
  rewrite arguments_header by assumption. cbv zeta.
  rewrite swap_channels_ragged; [reflexivity | |].
  - destruct Hd as [-> | ->]; simpl; lia.
  - now rewrite flip_rows_length.
Qed.

(** A 1x1 image at depth 24 followed by 26 bytes. *)
Lemma getScreenshot_rejects_ragged_payload_witness :
  Tga.getScreenshot
    (tga_file x00 sample_mid x01 x00 x01 x00 x18 x00 []
       ([x01; x02; x03] ++ repeat x00 26)) = None.
Proof.
  apply (getScreenshot_rejects_ragged_payload x00 x01 x00 x01 x00 x18 x00
           sample_mid [] ([x01; x02; x03] ++ repeat x00 26)).
  - reflexivity.
  - reflexivity.
  - now left.
  - simpl. lia.
  - right. reflexivity.
Defined.

(** X3.  A file that stops after its header and identifier is not rejected,
    whatever size it declares at depth 24 or 32: both loops run on an empty
    buffer, which is handed to [QImage] with the declared width and
    height. *)
Theorem getScreenshot_accepts_missing_payload :
  forall (idb wlo whi hlo hhi depth desc : byte) (mid ident : list byte),
    List.length mid = 11 ->
    List.length ident = Byte.to_nat idb ->
    depth = x18 \/ depth = x20 ->
    Tga.qimage_arguments
      (tga_file idb mid wlo whi hlo hhi depth desc ident []) =
    Some (Tga.mkPixbuf (le16 wlo whi) (le16 hlo hhi)
            (format_of (Byte.to_nat depth / 8)) []).
Proof.
  intros idb wlo whi hlo hhi depth desc mid ident Hmid Hid Hd.
  rewrite arguments_header by assumption. cbv zeta.
  rewrite flip_rows_nil.
  destruct Hd as [-> | ->]; reflexivity.
Qed.

(** A header declaring 640x480 at depth 24 and nothing else. *)
Lemma getScreenshot_accepts_missing_payload_witness :
  Tga.qimage_arguments
    (tga_file x00 sample_mid x80 x02 xe0 x01 x18 x00 [] []) =
  Some (Tga.mkPixbuf 640 480 Tga.Format_RGB888 []).
Proof.
  apply (getScreenshot_accepts_missing_payload x00 x80 x02 xe0 x01 x18 x00
           sample_mid []).
  - reflexivity.
  - reflexivity.
  - now left.
Defined.

(* ================================================================== *)
(** ** The header label and the order of the roots *)
(* ================================================================== *)

Section CounterFacts.

Import PyStr PyDict Textures.

Lemma sorted_by_key_length {A} (key : A -> string) (l : list A) :
  List.length (sorted_by_key key l) = List.length l.
Proof.
  unfold sorted_by_key. symmetry. apply Permutation_length, stable_sort_perm.
Qed.

Lemma filter_three_length {A} (p q : A -> bool) (l : list A) :
  List.length (filter (fun e => p e && negb (q e)) l) +
  (List.length (filter (fun e => negb (p e) && negb (q e)) l) +
   List.length (filter q l)) = List.length l.
Proof.
  induction l as [| x l IH]; [reflexivity |].
  cbn [filter]. destruct (p x), (q x); cbn [andb negb List.length]; lia.
Qed.

Lemma winner_entry_visible (i : string * string) :
  e_hidden (winner_entry i) = false.
Proof. now destruct i. Qed.

Lemma hidden_entry_hidden (h : string * string) :
  e_hidden (hidden_entry h) = true.
Proof. now destruct h. Qed.

Lemma entries_hidden_part (st : scan_state) :
  filter e_hidden (entries_of st) = map hidden_entry (hidden_entries st).
Proof.
  unfold entries_of. rewrite filter_app.
  rewrite (filter_nil e_hidden (map winner_entry _)).
  - cbn [app]. induction (hidden_entries st) as [| h l IH]; [reflexivity |].
    cbn [map filter]. now rewrite hidden_entry_hidden, IH.
  - intros e He. apply in_map_iff in He. destruct He as [i [<- _]].
    apply winner_entry_visible.
Qed.

Lemma added_rows_length (st : scan_state) :
  List.length (added_rows st) = texture_files st.
Proof.
  unfold added_rows, texture_files, hidden_count.
  rewrite length_map, !length_app.
  unfold conflict_entries, normal_entries, hidden_only_entries.
  rewrite !sorted_by_key_length.
  rewrite (filter_three_length
             (fun e => dict_in (conflict_brushes
                                  (conflicts_of
                                     (base_exts_of (items_of (winners st)))))
                               (e_base e)) e_hidden).
  unfold entries_of. now rewrite length_app, !length_map.
Qed.

(** The weight stored with a row is read off its flag. *)
Lemma make_row_weight (c : conflicts) (e : entry) :
  let r := make_row c e in
  (String.eqb (r_flag r) "!!" = (r_weight r =? _WEIGHT_MAJOR)) /\
  (negb (String.eqb (r_flag r) "!!") && String.eqb (r_flag r) "!" =
   (r_weight r =? _WEIGHT_MINOR)).
Proof.
  intros r. unfold r, make_row. cbn [r_flag r_weight].
  set (flag := if e_hidden e then "."
               else match dict_get (conflict_flags c) (e_base e) with
                    | Some f => f
                    | None => ""
                    end).
  destruct (String.eqb flag "!!") eqn:E1; [| destruct (String.eqb flag "!") eqn:E2;
    [| destruct (String.eqb flag ".") eqn:E3]]; split; reflexivity.
Qed.

Lemma filter_ext_on {A} (p q : A -> bool) (l : list A) :
  (forall x, In x l -> p x = q x) -> filter p l = filter q l.
Proof.
  induction l as [| x l IH]; intros H; [reflexivity |].
  cbn [filter]. rewrite (H x (or_introl eq_refl)), IH; [reflexivity |].
  intros y Hy. apply H. now right.
Qed.

Lemma added_rows_made (st : scan_state) (r : row) :
  In r (added_rows st) ->
  exists e,
    r = make_row (conflicts_of (base_exts_of (items_of (winners st)))) e.
Proof.
  unfold added_rows. intros H. apply in_map_iff in H.
  destruct H as [e [<- _]]. now exists e.
Qed.

Lemma hidden_rows_of_added (st : scan_state) :
  filter (fun r => r_weight r =? _WEIGHT_HIDDEN) (added_rows st) =
  map (make_row (conflicts_of (base_exts_of (items_of (winners st)))))
      (hidden_only_entries (entries_of st)).
Proof.
  unfold added_rows.
  set (items := items_of (winners st)).
  set (c := conflicts_of (base_exts_of items)).
  set (es := entries_of st).
  destruct (partition_rows_kind c es) as (Hc & Hn & Hh).
  rewrite !map_app, !filter_app.
  rewrite (filter_nil _ (map (make_row c) (conflict_entries c es))).
  2:{ intros r Hr. pose proof (Hc r Hr) as Hk.
      apply in_map_iff in Hr. destruct Hr as [e [<- _]].
      pose proof (row_weight_by_kind items e) as Hw. cbv zeta in Hw.
      fold c in Hw. rewrite Hk in Hw.
      destruct Hw as [[_ ->] | [_ ->]]; reflexivity. }
  rewrite (filter_nil _ (map (make_row c) (normal_entries c es))).
  2:{ intros r Hr. pose proof (Hn r Hr) as Hk.
      apply in_map_iff in Hr. destruct Hr as [e [<- _]].
      pose proof (row_weight_by_kind items e) as Hw. cbv zeta in Hw.
      fold c in Hw. rewrite Hk in Hw.
      destruct Hw as [_ ->]. reflexivity. }
  cbn [app].
  assert (Hall : forall r,
             In r (map (make_row c) (hidden_only_entries es)) ->
             (r_weight r =? _WEIGHT_HIDDEN) = true).
  { intros r Hr. pose proof (Hh r Hr) as Hk.
    apply in_map_iff in Hr. destruct Hr as [e [<- _]].
    pose proof (row_weight_by_kind items e) as Hw. cbv zeta in Hw.
    fold c in Hw. rewrite Hk in Hw.
    destruct Hw as [_ ->]. reflexivity. }
  clear Hh.
  induction (map (make_row c) (hidden_only_entries es)) as [| r l IH];
    [reflexivity |].
  cbn [filter]. rewrite (Hall r (or_introl eq_refl)). f_equal.
  apply IH. intros r' Hr'. apply Hall. now right.
Qed.

End CounterFacts.

(** X4.  The four numbers of the header label are those of the listing: the
    total is the number of rows, and the major, minor and hidden counts are
    the numbers of rows of weight 3, 2 and 1. *)
Theorem header_counts_match_listing :
  forall st : Textures.scan_state,
    Textures.texture_files st = List.length (Textures.listing st)
    /\ Textures.major_errors st =
       List.length
         (filter (fun r => Textures.r_weight r =? Textures._WEIGHT_MAJOR)
                 (Textures.listing st))
    /\ Textures.minor_errors st =
       List.length
         (filter (fun r => Textures.r_weight r =? Textures._WEIGHT_MINOR)
                 (Textures.listing st))
    /\ Textures.hidden_count st =
       List.length
         (filter (fun r => Textures.r_weight r =? Textures._WEIGHT_HIDDEN)
                 (Textures.listing st)).
Proof.
  intros st. repeat split.
  - rewrite <- added_rows_length. unfold Textures.listing,
      Textures.sortItems_descending.
    apply Permutation_length, stable_sort_perm.
  - rewrite listing_stable. unfold Textures.major_errors. f_equal.
    apply filter_ext_on. intros r Hr.
    apply added_rows_made in Hr. destruct Hr as [e ->].
    apply (make_row_weight _ e).
  - rewrite listing_stable. unfold Textures.minor_errors. f_equal.
    apply filter_ext_on. intros r Hr.
    apply added_rows_made in Hr. destruct Hr as [e ->].
    apply (make_row_weight _ e).
  - rewrite listing_stable, hidden_rows_of_added, length_map.
    unfold Textures.hidden_only_entries.
    rewrite sorted_by_key_length, entries_hidden_part, length_map.
    reflexivity.
Qed.

Section RootOrderFacts.

Import PyStr PyDict Textures.

Lemma mod_label_prefix (n : string) :
  is_mod_label ("Mod: " ++ n)%string = true.
Proof. unfold is_mod_label, startswith. simpl. now destruct n. Qed.

Lemma override_root_label (m : mod_dir) (r : labelled_root) :
  override_root m = Some r -> is_mod_label (fst r) = true.
Proof.
  unfold override_root.
  destruct (m_override m); [| destruct (m_Override m)];
    intros [= <-]; apply mod_label_prefix.
Qed.

Lemma mod_roots_labels (mods : list mod_dir) :
  Forall (fun r => is_mod_label (fst r) = true) (mod_roots mods).
Proof.
  unfold mod_roots. apply Forall_forall. intros r Hr.
  apply in_flat_map in Hr. destruct Hr as [m [_ Hr]].
  destruct (override_root m) as [r' |] eqn:E; [| contradiction].
  destruct Hr as [<- | []]. now apply override_root_label in E.
Qed.

Lemma iter_override_roots_split (mods : list mod_dir)
    (game : option (list fsnode)) :
  _iter_override_roots mods game = mod_roots mods ++ base_list (game_root game).
Proof. now destruct game. Qed.

Lemma mod_entries_split (l : list labelled_root)
    (base : option labelled_root) :
  Forall (fun r => is_mod_label (fst r) = true) l ->
  (forall g, base = Some g -> is_mod_label (fst g) = false) ->
  mod_entries (l ++ base_list base) = l /\
  game_entry (l ++ base_list base) = base.
Proof.
  intros Hl Hg. unfold mod_entries, game_entry.
  rewrite filter_app, fold_left_app. split.
  - replace (filter _ (base_list base)) with (@nil labelled_root).
    + rewrite app_nil_r. induction Hl as [| r l Hr _ IH]; [reflexivity |].
      cbn [filter]. now rewrite Hr, IH.
    + destruct base as [g |]; [| reflexivity].
      cbn [base_list filter]. now rewrite (Hg g eq_refl).
  - replace (fold_left _ l None) with (@None labelled_root).
    + destruct base as [g |]; [| reflexivity].
      cbn [base_list fold_left]. now rewrite (Hg g eq_refl).
    + generalize (@None labelled_root).
      induction Hl as [| r l Hr _ IH]; intros o; [reflexivity |].
      cbn [fold_left]. rewrite Hr. apply IH.
Qed.

End RootOrderFacts.

(** X5.  Whatever the mods are called, [refresh] scans the override roots of
    the active mods from the last to the first and the game's own folder
    after them: a path is won by the last active mod that ships it, and by
    the game's folder only when no active mod does. *)
Theorem last_active_mod_wins :
  forall (mods : list Textures.mod_dir)
         (game : option (list Textures.fsnode)) (k : string),
    Textures.collect (Textures._iter_override_roots mods game) =
    Textures.resolve (rev (mod_roots mods)) (game_root game)
    /\ PyDict.dict_get
         (Textures.winners
            (Textures.collect (Textures._iter_override_roots mods game))) k =
       first_claimant k (rev (mod_roots mods) ++ base_list (game_root game)).
Proof.
  intros mods game k.
  assert (E : Textures.collect (Textures._iter_override_roots mods game) =
              Textures.resolve (rev (mod_roots mods)) (game_root game)).
  { unfold Textures.collect. rewrite iter_override_roots_split.
    destruct (mod_entries_split (mod_roots mods) (game_root game)) as [-> ->].
    - apply mod_roots_labels.
    - intros g Hg. destruct game; [| discriminate]. now injection Hg as <-.
    - reflexivity. }
  split; [exact E |].
  rewrite E, resolve_as_fold, scan_roots_winners. reflexivity.
Qed.

(* ================================================================== *)
(** ** Hiding and unhiding files *)
(* ================================================================== *)

Section RenameFacts.

Import PyStr PyDict Textures.

Lemma path_eqb_eq (a b : path) : path_eqb a b = true <-> a = b.
Proof.
  destruct a as [pa na], b as [pb nb]. unfold path_eqb. cbn [p_parent p_name].
  rewrite andb_true_iff, !String.eqb_eq. split.
  - now intros [-> ->].
  - now intros [= -> ->].
Qed.

Lemma path_eqb_refl (a : path) : path_eqb a a = true.
Proof. now apply path_eqb_eq. Qed.

Lemma path_eqb_neq (a b : path) : path_eqb a b = false <-> a <> b.
Proof.
  rewrite <- path_eqb_eq. destruct (path_eqb a b); split; congruence.
Qed.

Lemma exists_path_In (fs : filesystem) (p : path) :
  exists_path fs p = true <-> In p fs.
Proof.
  unfold exists_path. rewrite existsb_exists. split.
  - intros [x [Hx E]]. apply path_eqb_eq in E. now subst.
  - intros H. exists p. split; [exact H | apply path_eqb_refl].
Qed.

Lemma exists_path_not_In (fs : filesystem) (p : path) :
  exists_path fs p = false <-> ~ In p fs.
Proof.
  rewrite <- exists_path_In. destruct (exists_path fs p); split; congruence.
Qed.



Lemma substring_split (s : string) (n : nat) :
  n <= String.length s ->
  (substring 0 n s ++ substring n (String.length s - n) s)%string = s.
Proof.
  revert n. induction s as [| c s IH]; intros n Hn.
  - destruct n; [reflexivity | simpl in Hn; lia].
  - destruct n as [| n].
    + rewrite Nat.sub_0_r, substring_all. reflexivity.
    + cbn [substring String.append String.length Nat.sub]. f_equal.
      apply IH. simpl in Hn. lia.
Qed.

(** A name with a suffix is the rest followed by the suffix. *)
Lemma endswith_split (s suf : string) :
  endswith s suf = true ->
  (drop_last (String.length suf) s ++ suf)%string = s.
Proof.
  unfold endswith, drop_last. intros H. apply andb_true_iff in H.
  destruct H as [Hlen Heq]. apply Nat.leb_le in Hlen.
  apply String.eqb_eq in Heq.
  pose proof (substring_split s (String.length s - String.length suf)) as Hs.
  replace (String.length s - (String.length s - String.length suf))
    with (String.length suf) in Hs by lia.
  rewrite Heq in Hs. apply Hs. lia.
Qed.

Lemma unmarked_marked (p : path) : unmarked (marked p) = p.
Proof.
  destruct p as [d n]. unfold unmarked, marked, with_name.
  cbn [p_parent p_name]. f_equal. apply (drop_last_append n ".mohidden").
Qed.


Lemma marked_differs (p : path) : marked p <> p.
Proof.
  destruct p as [d n]. unfold marked, with_name. cbn [p_parent p_name].
  intros [= H]. apply (f_equal String.length) in H.
  rewrite length_append in H. simpl in H. lia.
Qed.

Lemma toggle_target_hide (p : path) : toggle_target p false = Some (marked p).
Proof.
  unfold toggle_target. cbn [andb negb]. reflexivity.
Qed.

Lemma toggle_target_unhide (p : path) :
  toggle_target (marked p) true = Some p.
Proof.
  unfold toggle_target. cbn [andb].
  replace (endswith (p_name (marked p)) ".mohidden") with true.
  - fold (unmarked (marked p)). now rewrite unmarked_marked.
  - symmetry. destruct p as [d n]. apply endswith_append.
Qed.

Lemma rename_done (fs : filesystem) (src dst : path) :
  In src fs -> ~ In dst fs ->
  rename fs src dst =
  Some (map (fun q => if path_eqb q src then dst else q) fs).
Proof.
  intros Hs Hd. unfold rename.
  apply exists_path_In in Hs. apply exists_path_not_In in Hd.
  now rewrite Hs, Hd.
Qed.

Lemma rename_length (fs fs' : filesystem) (src dst : path) :
  rename fs src dst = Some fs' -> List.length fs' = List.length fs.
Proof.
  unfold rename. destruct (_ && _); [| discriminate].
  intros [= <-]. apply length_map.
Qed.

(** A rename touches no other name. *)
Lemma rename_frame (fs fs' : filesystem) (src dst x : path) :
  rename fs src dst = Some fs' -> x <> src -> x <> dst ->
  exists_path fs' x = exists_path fs x.
Proof.
  unfold rename. destruct (_ && _); [| discriminate].
  intros [= <-] Hs Hd. unfold exists_path.
  induction fs as [| q fs IH]; [reflexivity |].
  cbn [map existsb]. rewrite IH. f_equal.
  destruct (path_eqb q src) eqn:E.
  - apply path_eqb_eq in E. subst q.
    apply path_eqb_neq in Hs, Hd. now rewrite Hs, Hd.
  - reflexivity.
Qed.


Lemma try_unhide_length (fs : filesystem) (c : path) :
  List.length (try_unhide fs c) = List.length fs.
Proof.
  unfold try_unhide.
  destruct (rename fs c _) as [fs' |] eqn:E; [| reflexivity].
  now apply rename_length in E.
Qed.

Lemma try_unhide_frame (fs : filesystem) (c x : path) :
  x <> c -> x <> unmarked c ->
  exists_path (try_unhide fs c) x = exists_path fs x.
Proof.
  intros H1 H2. unfold try_unhide. fold (unmarked c).
  destruct (rename fs c (unmarked c)) as [fs' |] eqn:E; [| reflexivity].
  now apply (rename_frame fs fs' c (unmarked c)).
Qed.

Lemma unhide_fold_frame (cs : list path) (fs : filesystem) (x : path) :
  listed cs x = false -> listed (map unmarked cs) x = false ->
  List.length (fold_left try_unhide cs fs) = List.length fs /\
  exists_path (fold_left try_unhide cs fs) x = exists_path fs x.
Proof.
  revert fs. induction cs as [| c cs IH]; intros fs H1 H2; [now split |].
  cbn [fold_left]. unfold listed in H1, H2. cbn [map existsb] in H1, H2.
  apply orb_false_iff in H1, H2. destruct H1 as [Hc H1], H2 as [Hu H2].
  apply path_eqb_neq in Hc, Hu.
  destruct (IH (try_unhide fs c) H1 H2) as [IH1 IH2].
  rewrite IH1, IH2, try_unhide_length, try_unhide_frame by assumption.
  now split.
Qed.


End RenameFacts.

(** X6.  Hiding a file and unhiding it again restores the file system, when
    the file is there and its marked name is free; in between, the marked
    name is there and the plain one is not. *)
Theorem hide_then_unhide_restores :
  forall (fs : Textures.filesystem) (p : Textures.path),
    Textures.exists_path fs p = true ->
    Textures.exists_path fs (marked p) = false ->
    let hidden := Textures._toggle_hidden fs p false in
    Textures.exists_path hidden (marked p) = true
    /\ Textures.exists_path hidden p = false
    /\ Textures._toggle_hidden hidden (marked p) true = fs.
Proof.
  intros fs p Hp Hfree hidden.
  apply exists_path_In in Hp. apply exists_path_not_In in Hfree.
  assert (Eh : hidden =
               map (fun q => if Textures.path_eqb q p then marked p else q) fs).
  { unfold hidden, Textures._toggle_hidden.
    now rewrite toggle_target_hide, rename_done. }
  assert (H1 : In (marked p) hidden).
  { rewrite Eh. apply in_map_iff. exists p.
    now rewrite path_eqb_refl. }
  assert (H2 : ~ In p hidden).
  { rewrite Eh. intros Habs. apply in_map_iff in Habs.
    destruct Habs as [q [Eq Hq]].
    destruct (Textures.path_eqb q p) eqn:E.
    - now apply (marked_differs p).
    - apply path_eqb_neq in E. now apply E. }
  split; [now apply exists_path_In |].
  split; [now apply exists_path_not_In |].
  unfold Textures._toggle_hidden.
  rewrite toggle_target_unhide, rename_done by assumption.
  rewrite Eh, map_map. rewrite <- (map_id fs) at 2.
  apply map_ext_in. intros q Hq.
  destruct (Textures.path_eqb q p) eqn:E.
  - rewrite path_eqb_refl. apply path_eqb_eq in E. now subst.
  - replace (Textures.path_eqb q (marked p)) with false; [reflexivity |].
    symmetry. apply path_eqb_neq. intros ->. contradiction.
Qed.

Lemma hide_then_unhide_restores_witness :
  let fs := [Textures.mkPath "override" "sky.tga";
             Textures.mkPath "override" "sea.tga"] in
  let p := Textures.mkPath "override" "sky.tga" in
  let hidden := Textures._toggle_hidden fs p false in
  Textures.exists_path hidden (marked p) = true
  /\ Textures.exists_path hidden p = false
  /\ Textures._toggle_hidden hidden (marked p) true = fs.
Proof.
  apply (hide_then_unhide_restores
           [Textures.mkPath "override" "sky.tga";
            Textures.mkPath "override" "sea.tga"]
           (Textures.mkPath "override" "sky.tga")).
  - reflexivity.
  - reflexivity.
Defined.

(** X7.  Unhide all never adds or removes a file, and a path that is neither
    a listed hidden file nor the unmarked name of one is there afterwards
    exactly if it was there before, whether the renames succeed or not. *)
Theorem unhide_all_touches_only_listed_files :
  forall (fs : Textures.filesystem) (items : list Textures.tree_item)
         (x : Textures.path),
    listed (Textures.unhide_candidates items) x = false ->
    listed (map unmarked (Textures.unhide_candidates items)) x = false ->
    List.length (Textures._unhide_all fs items) = List.length fs
    /\ Textures.exists_path (Textures._unhide_all fs items) x =
       Textures.exists_path fs x.
Proof.
  intros fs items x H1 H2. unfold Textures._unhide_all.
  now apply unhide_fold_frame.
Qed.

Lemma unhide_all_touches_only_listed_files_witness :
  let fs := [Textures.mkPath "override" "sky.tga.mohidden";
             Textures.mkPath "override" "sea.tga"] in
  let items := [Textures.mkItem true
                  (Some (Textures.mkPath "override" "sky.tga.mohidden"));
                Textures.mkItem false
                  (Some (Textures.mkPath "override" "sea.tga"))] in
  List.length (Textures._unhide_all fs items) = List.length fs
  /\ Textures.exists_path (Textures._unhide_all fs items)
       (Textures.mkPath "override" "sea.tga") =
     Textures.exists_path fs (Textures.mkPath "override" "sea.tga").
Proof.
  apply (unhide_all_touches_only_listed_files
           [Textures.mkPath "override" "sky.tga.mohidden";
            Textures.mkPath "override" "sea.tga"]
           [Textures.mkItem true
              (Some (Textures.mkPath "override" "sky.tga.mohidden"));
            Textures.mkItem false
              (Some (Textures.mkPath "override" "sea.tga"))]
           (Textures.mkPath "override" "sea.tga")).
  - reflexivity.
  - reflexivity.
Defined.



(* ================================================================== *)
(** ** Keys of the winners *)
(* ================================================================== *)

Section KeyFacts.

Import PyStr PyDict Textures.

Lemma winner_key (sources : list labelled_root) (base : option labelled_root)
    (k source rel : string) :
  In (k, (source, rel)) (winners (resolve sources base)) -> k = lower rel.
Proof.
  intros Hin.
  apply (In_dict_get _ _ _ (resolve_keys_NoDup sources base)) in Hin.
  rewrite resolve_as_fold, scan_roots_winners in Hin. cbn [winners dict_get] in Hin.
  apply first_claimant_origin in Hin.
  destruct Hin as (files & f & _ & _ & _ & _ & _ & Hk). exact Hk.
Qed.

End KeyFacts.

(** X9.  Every winner is recorded under its lower-cased relative path, and
    no two winners have the same relative path up to case: a path is listed
    at most once among the files that are not hidden. *)
Theorem winners_are_distinct_up_to_case :
  forall (sources : list Textures.labelled_root)
         (base : option Textures.labelled_root),
    (forall k source rel,
        In (k, (source, rel))
           (Textures.winners (Textures.resolve sources base)) ->
        k = PyStr.lower rel)
    /\ NoDup (map (fun v => PyStr.lower (snd v))
                  (PyDict.dict_values
                     (Textures.winners (Textures.resolve sources base)))).
Proof.
  intros sources base. split.
  - intros k source rel. apply winner_key.
  - unfold PyDict.dict_values. rewrite map_map.
    rewrite (map_ext_in _ fst).
    + apply resolve_keys_NoDup.
    + intros [k [source rel]] Hin. cbn [fst snd]. symmetry.
      now apply (winner_key sources base k source rel).
Qed.

(* ================================================================== *)
(** ** Folders that decide the verdict, and the prompts of the fixer *)
(* ================================================================== *)

Section VerdictFacts.

Import PyStr PyDict ModData.

#[local] Arguments mem : simpl never.
#[local] Arguments lower : simpl never.

(** A directory reached by a path of names is met by the walk. *)
Lemma get_walked (e : entry) :
  is_directory e = true ->
  forall path cs ps,
    get cs path = Some e ->
    exists qs, In (qs, e) (flat_map (walk ps) cs).
Proof.
  intros He. induction path as [| n rest IH]; intros cs ps H;
    [discriminate |].
  cbn [get] in H.
  destruct (find (same_name n) cs) as [e0 |] eqn:Ef; [| discriminate].
  apply find_some in Ef. destruct Ef as [Hin _].
  destruct rest as [| n' rest'].
  - injection H as ->. exists ps. apply in_flat_map. exists e.
    split; [exact Hin |]. destruct e; [discriminate | now left].
  - destruct e0 as [m | m cs']; [discriminate |].
    destruct (IH cs' (ps ++ [m]) H) as [qs Hqs].
    exists qs. apply in_flat_map. exists (Dir m cs').
    split; [exact Hin |]. cbn [walk]. now right.
Qed.

Lemma get_located (t : tree) (path : list string) (e : entry) :
  get t path = Some e -> is_directory e = true ->
  exists qs, In (qs, e) (_iter_dirs t).
Proof.
  intros H He. unfold _iter_dirs. now apply (get_walked e He path).
Qed.

Lemma walk_yields_dirs (e : entry) :
  forall ps d, In d (walk ps e) -> is_directory (snd d) = true.
Proof.
  induction e as [n | n cs IH] using entry_induction; intros ps d Hin.
  - destruct Hin.
  - cbn [walk] in Hin. destruct Hin as [<- | Hin]; [reflexivity |].
    apply in_flat_map in Hin. destruct Hin as [c [Hc Hd]].
    rewrite Forall_forall in IH. now apply (IH c Hc (ps ++ [n])).
Qed.

Lemma located_are_dirs (t : tree) (d : located) :
  In d (_iter_dirs t) -> is_directory (snd d) = true.
Proof.
  unfold _iter_dirs. intros H. apply in_flat_map in H.
  destruct H as [e [_ H]]. now apply walk_yields_dirs in H.
Qed.

Lemma patch_dir_found (t : tree) (d : located) :
  In d (_iter_dirs t) -> lower (name (snd d)) = "tslpatchdata" ->
  has_patch_data t = true.
Proof.
  intros Hd Hn. unfold has_patch_data, _find_dirs_named.
  assert (Hin : In d (filter
            (fun d => String.eqb (lower (name (snd d)))
                                 (lower "tslpatchdata")) (_iter_dirs t))).
  { apply filter_In. split; [exact Hd |]. rewrite Hn. reflexivity. }
  match type of Hin with In _ ?l => destruct l end;
    [destruct Hin | reflexivity].
Qed.

Lemma restricted_dir_found (t : tree) (d : located) :
  In d (_iter_dirs t) -> lower (name (snd d)) = "data" ->
  has_restricted_dir t = true.
Proof.
  intros Hd Hn. unfold has_restricted_dir. apply existsb_exists.
  exists d. split; [exact Hd |]. rewrite Hn. reflexivity.
Qed.

(** *** The mapping of a prompt *)

Lemma find_over_app {A} (p : A -> bool) (l1 l2 : list A) :
  find p (l1 ++ l2) =
  match find p l1 with Some x => Some x | None => find p l2 end.
Proof.
  induction l1 as [| x l1 IH]; [reflexivity |].
  cbn [app find]. now destruct (p x).
Qed.

Lemma mapping_get (display : located -> string) (k : string)
    (cands : list located) :
  forall m : list (string * located),
    dict_get (fold_left (fun m d => dict_set m (display d) d) cands m) k =
    match find (fun d => String.eqb (display d) k) (rev cands) with
    | Some d => Some d
    | None => dict_get m k
    end.
Proof.
  induction cands as [| d cands IH]; intros m; [reflexivity |].
  cbn [fold_left rev]. rewrite IH, find_over_app.
  destruct (find _ (rev cands)) as [d' |]; [reflexivity |].
  cbn [find]. rewrite dict_get_set.
  now destruct (String.eqb (display d) k).
Qed.

Lemma find_last_match {A} (p : A -> bool) (l1 l2 : list A) (x : A) :
  p x = true -> (forall y, In y l2 -> p y = false) ->
  find p (rev (l1 ++ x :: l2)) = Some x.
Proof.
  intros Hx Hl2. rewrite rev_app_distr. cbn [rev]. rewrite <- app_assoc.
  cbn [app]. apply find_skip; [| exact Hx].
  intros y Hy. apply Hl2. now apply in_rev.
Qed.

Lemma choose_last (ask : dialog) (t : tree) (display : located -> string)
    (l1 l2 : list located) (d : located) (target choice : string) :
  ask (map display (l1 ++ d :: l2)) = Some choice ->
  choice <> "" ->
  display d = choice ->
  (forall d', In d' l2 -> display d' <> choice) ->
  choose_and_keep ask t display (l1 ++ d :: l2) target =
  Returned (keep_only target (move t (path_of d) [target])).
Proof.
  intros Hask Hne Hd Hl2. unfold choose_and_keep. rewrite Hask.
  replace (String.eqb choice "") with false
    by (symmetry; now apply String.eqb_neq).
  rewrite mapping_get.
  rewrite (find_last_match _ l1 l2 d); [reflexivity | |].
  - now apply String.eqb_eq.
  - intros y Hy. apply String.eqb_neq. now apply Hl2.
Qed.

Lemma choose_offered (ask : dialog) (t : tree) (display : located -> string)
    (cands : list located) (target : string) :
  (forall options choice, ask options = Some choice -> In choice options) ->
  choose_and_keep ask t display cands target <> Raised.
Proof.
  intros Hask. unfold choose_and_keep.
  destruct (ask (map display cands)) as [choice |] eqn:E; [| discriminate].
  destruct (String.eqb choice ""); [discriminate |].
  rewrite mapping_get.
  apply Hask in E. apply in_map_iff in E. destruct E as [d [Hd Hin]].
  destruct (find _ (rev cands)) as [d' |] eqn:Ef; [discriminate |].
  exfalso. apply in_rev in Hin.
  apply (find_none _ _ Ef) in Hin. apply String.eqb_neq in Hin. now apply Hin.
Qed.

(** The [override] folder can be made unless a root file bears the name. *)
Lemma ensure_override_created (t : tree) :
  (forall e, In e t -> is_directory e = false ->
             lower (name e) <> "override") ->
  exists t1, ensure_override t = Some t1.
Proof.
  intros H. unfold ensure_override.
  destruct (_find_dirs_named t "override"); [| eauto].
  unfold addDirectory. cbn [create_tree].
  destruct (find (same_name "override") t) as [[m | m cs'] |] eqn:E; eauto.
  exfalso. apply find_some in E. destruct E as [Hin Hn].
  apply (H (File m) Hin eq_refl). unfold same_name in Hn.
  now apply String.eqb_eq in Hn.
Qed.

End VerdictFacts.

(** X10.  A directory called [tslpatchdata], in any case and at any depth,
    makes the tree Fixable whatever else it holds. *)
Theorem patch_folder_anywhere_is_fixable :
  forall (t : ModData.tree) (path : list string) (n : string)
         (cs : list ModData.entry),
    ModData.get t path = Some (ModData.Dir n cs) ->
    PyStr.lower n = "tslpatchdata" ->
    ModData.dataLooksValid t = ModData.FIXABLE.
Proof.
  intros t path n cs Hget Hn.
  destruct (get_located t path _ Hget eq_refl) as [qs Hin].
  unfold ModData.dataLooksValid.
  now rewrite (patch_dir_found t _ Hin Hn).
Qed.

Lemma patch_folder_anywhere_is_fixable_witness :
  ModData.dataLooksValid
    [ModData.Dir "override" [ModData.File "sky.tga"];
     ModData.Dir "extras" [ModData.Dir "TSLPatchData" []]] = ModData.FIXABLE.
Proof.
  apply (patch_folder_anywhere_is_fixable
           [ModData.Dir "override" [ModData.File "sky.tga"];
            ModData.Dir "extras" [ModData.Dir "TSLPatchData" []]]
           ["extras"; "tslpatchdata"] "TSLPatchData" []).
  - reflexivity.
  - reflexivity.
Defined.

(** X11.  When no directory is called [tslpatchdata], a directory called
    [data], in any case and at any depth, makes the tree Invalid whatever
    else it holds. *)
Theorem data_folder_anywhere_is_invalid :
  forall (t : ModData.tree) (path : list string) (n : string)
         (cs : list ModData.entry),
    ModData.has_patch_data t = false ->
    ModData.get t path = Some (ModData.Dir n cs) ->
    PyStr.lower n = "data" ->
    ModData.dataLooksValid t = ModData.INVALID.
Proof.
  intros t path n cs Hp Hget Hn.
  destruct (get_located t path _ Hget eq_refl) as [qs Hin].
  unfold ModData.dataLooksValid.
  now rewrite Hp, (restricted_dir_found t _ Hin Hn).
Qed.

Lemma data_folder_anywhere_is_invalid_witness :
  ModData.dataLooksValid
    [ModData.Dir "override" [ModData.File "sky.tga"];
     ModData.Dir "modules" [ModData.Dir "Data" [ModData.File "x.bif"]]] =
  ModData.INVALID.
Proof.
  apply (data_folder_anywhere_is_invalid
           [ModData.Dir "override" [ModData.File "sky.tga"];
            ModData.Dir "modules" [ModData.Dir "Data" [ModData.File "x.bif"]]]
           ["modules"; "data"] "Data" [ModData.File "x.bif"]).
  - reflexivity.
  - reflexivity.
  - reflexivity.
Defined.

(** X12.  [fix] raises in two ways only: the choice of a prompt is not in
    its mapping, or [override] cannot be created because a file of that
    name is at the root.  So when the dialog only ever returns one of the
    options it was given and no root file is called [override], [fix]
    returns a tree; with such a file beside a loose texture it raises. *)
Theorem fix_returns_when_choice_is_offered :
  forall (ask : ModData.dialog) (t : ModData.tree),
    (forall options choice, ask options = Some choice -> In choice options) ->
    (forall e, In e t -> ModData.is_directory e = false ->
               PyStr.lower (ModData.name e) <> "override") ->
    (exists t', ModData.fix_tree ask t = Some t')
    /\ ModData.fix_tree ask
         [ModData.File "override"; ModData.File "a.tga"] = None.
Proof.
  intros ask t Hask Hfile. split; [| reflexivity].
  destruct (ensure_override_created t Hfile) as [t1 Hens].
  unfold ModData.fix_tree.
  destruct (ModData.many_patch_dirs ask t) eqn:E1; [eauto | |].
  - exfalso. unfold ModData.many_patch_dirs in E1.
    destruct (1 <? _); [| discriminate].
    now apply (choose_offered ask t _ _ _ Hask) in E1.
  - destruct (ModData.one_patch_dir t) eqn:E2; [eauto | |].
    + exfalso. unfold ModData.one_patch_dir in E2.
      destruct (ModData._find_dirs_named t "tslpatchdata") as [| ? [| ? ?]];
        discriminate.
    + destruct (ModData.many_mod_dirs ask t) eqn:E3; [eauto | |].
      * exfalso. unfold ModData.many_mod_dirs in E3.
        destruct (1 <? _); [| discriminate].
        now apply (choose_offered ask t _ _ _ Hask) in E3.
      * unfold ModData.fix_unprompted, ModData.single_root_dir,
          ModData.flatten, ModData.loose_files, ModData.gather_loose.
        rewrite Hens.
        destruct (ModData.root_dirs t) as [| d [| d' l]];
          destruct (ModData.loose_valid t); eauto.
Qed.

Lemma fix_returns_when_choice_is_offered_witness :
  (exists t', ModData.fix_tree (fun options => hd_error options) two_bundles =
              Some t')
  /\ ModData.fix_tree (fun options => hd_error options)
       [ModData.File "override"; ModData.File "a.tga"] = None.
Proof.
  apply (fix_returns_when_choice_is_offered
           (fun options => hd_error options) two_bundles).
  - intros options choice H. destruct options as [| o options].
    + discriminate H.
    + injection H as ->. now left.
  - intros e [<- | [<- | [<- | []]]] H; discriminate.
Defined.

(** X13.  In the prompt for several [tslpatchdata] folders the options are
    the names of the parent folders; when several folders are shown under
    the chosen name, the one met last is the one that is kept. *)
Theorem patch_prompt_keeps_last_of_that_name :
  forall (ask : ModData.dialog) (t : ModData.tree)
         (l1 l2 : list ModData.located) (d : ModData.located)
         (choice : string),
    ModData._find_dirs_named t "tslpatchdata" = l1 ++ d :: l2 ->
    1 < List.length (l1 ++ d :: l2) ->
    ask (map ModData.parent_name (l1 ++ d :: l2)) = Some choice ->
    choice <> "" ->
    ModData.parent_name d = choice ->
    (forall d', In d' l2 -> ModData.parent_name d' <> choice) ->
    ModData.fix_tree ask t =
    Some (ModData.keep_only "tslpatchdata"
            (ModData.move t (ModData.path_of d) ["tslpatchdata"])).
Proof.
  intros ask t l1 l2 d choice Hfind Hlen Hask Hne Hd Hl2.
  unfold ModData.fix_tree, ModData.many_patch_dirs. rewrite Hfind.
  apply Nat.ltb_lt in Hlen. rewrite Hlen.
  now rewrite (choose_last ask t ModData.parent_name l1 l2 d
                 "tslpatchdata" choice).
Qed.

Lemma patch_prompt_keeps_last_of_that_name_witness :
  ModData.fix_tree (fun _ => Some "A")
    [ModData.Dir "X" [ModData.Dir "A"
       [ModData.Dir "tslpatchdata" [ModData.File "first.2da"]]];
     ModData.Dir "Y" [ModData.Dir "A"
       [ModData.Dir "tslpatchdata" [ModData.File "second.2da"]]]] =
  Some (ModData.keep_only "tslpatchdata"
          (ModData.move
             [ModData.Dir "X" [ModData.Dir "A"
                [ModData.Dir "tslpatchdata" [ModData.File "first.2da"]]];
              ModData.Dir "Y" [ModData.Dir "A"
                [ModData.Dir "tslpatchdata" [ModData.File "second.2da"]]]]
             ["Y"; "A"; "tslpatchdata"] ["tslpatchdata"])).
Proof.
  apply (patch_prompt_keeps_last_of_that_name (fun _ => Some "A")
           [ModData.Dir "X" [ModData.Dir "A"
              [ModData.Dir "tslpatchdata" [ModData.File "first.2da"]]];
            ModData.Dir "Y" [ModData.Dir "A"
              [ModData.Dir "tslpatchdata" [ModData.File "second.2da"]]]]
           [(["X"; "A"],
             ModData.Dir "tslpatchdata" [ModData.File "first.2da"])]
           []
           (["Y"; "A"],
            ModData.Dir "tslpatchdata" [ModData.File "second.2da"])
           "A").
  - reflexivity.
  - simpl. lia.
  - reflexivity.
  - discriminate.
  - reflexivity.
  - intros d' [].
Defined.

(** X14.  At the root, [_cleanup_root] removes exactly the entries whose
    lower-cased name is not one of the nine game folders, [override] or
    [tslpatchdata], and keeps the others in their order. *)
Theorem cleanup_root_keeps_known_names :
  forall t : ModData.tree,
    map ModData.name (ModData._cleanup_root t) =
    filter (fun n => PyStr.mem (PyStr.lower n) ModData.valid_top)
           (map ModData.name t).
Proof.
  intros t. unfold ModData._cleanup_root.
  set (t1 := filter (fun e => PyStr.mem (PyStr.lower (ModData.name e))
                                         ModData.valid_top) t).
  assert (E : map ModData.name t1 =
              filter (fun n => PyStr.mem (PyStr.lower n) ModData.valid_top)
                     (map ModData.name t)).
  { unfold t1. induction t as [| e t IH]; [reflexivity |].
    cbn [filter map].
    destruct (PyStr.mem (PyStr.lower (ModData.name e)) ModData.valid_top);
      cbn [map]; now rewrite IH. }
  destruct (ModData._find_dirs_named t1 "override") as [| d l]; [exact E |].
  pose proof (path_of_nonempty d) as Hp.
  destruct (ModData.path_of d) as [| n rest]; [congruence |].
  now rewrite update_at_names.
Qed.

(* ================================================================== *)
(** ** A single patch bundle *)
(* ================================================================== *)

Section BundleFacts.

Import PyStr PyDict ModData.

#[local] Arguments mem : simpl never.
#[local] Arguments lower : simpl never.

Lemma split_last_snoc (ps : list string) (n : string) :
  split_last (ps ++ [n]) = Some (ps, n).
Proof.
  induction ps as [| d ps IH]; [reflexivity |].
  cbn [app split_last]. rewrite IH.
  destruct (ps ++ [n]) eqn:E; [| reflexivity].
  now destruct ps.
Qed.

Lemma same_name_patch (e : entry) :
  same_name "tslpatchdata" e = String.eqb (lower (name e)) "tslpatchdata".
Proof. reflexivity. Qed.

(** Entries with the names of a root without the searched name are not
    kept. *)
Lemma keep_only_none (n : string) (t t' : tree) :
  map name t' = map name t ->
  (forall y, In y t -> String.eqb (lower (name y)) n = false) ->
  keep_only n t' = [].
Proof.
  intros Hn Ht. unfold keep_only. apply filter_nil. intros x Hx.
  apply (in_map name) in Hx. rewrite Hn in Hx.
  apply in_map_iff in Hx. destruct Hx as [y [<- Hy]]. now apply Ht.
Qed.

Lemma bundle_alone_found (n : string) (cs : list entry) :
  lower n = "tslpatchdata" ->
  forallb (all_dirs not_patch_data) cs = true ->
  _find_dirs_named [Dir n cs] "tslpatchdata" = [([], Dir n cs)].
Proof.
  intros Hn Hcs. unfold _find_dirs_named, _iter_dirs.
  cbn [flat_map walk app]. rewrite app_nil_r. cbn [filter snd name].
  rewrite Hn. change (lower "tslpatchdata") with "tslpatchdata".
  cbn [String.eqb Ascii.eqb Bool.eqb]. f_equal.
  apply filter_nil. intros d Hd.
  apply in_flat_map in Hd. destruct Hd as [c [Hc Hd]].
  rewrite forallb_forall in Hcs.
  apply (all_dirs_walk not_patch_data c _ d (Hcs c Hc)) in Hd.
  unfold not_patch_data in Hd. now apply negb_true_iff in Hd.
Qed.

End BundleFacts.

(** X15.  A single [tslpatchdata] folder below the root, with nothing of
    that name at the root, is lifted to the root under the name
    [tslpatchdata] with its contents, and everything else is dropped. *)
Theorem nested_patch_bundle_is_lifted :
  forall (ask : ModData.dialog) (t : ModData.tree) (sel : ModData.located),
    ModData._find_dirs_named t "tslpatchdata" = [sel] ->
    fst sel <> [] ->
    ModData.get t (ModData.path_of sel) = Some (snd sel) ->
    existsb (ModData.same_name "tslpatchdata") t = false ->
    ModData.fix_tree ask t =
    Some [ModData.Dir "tslpatchdata" (ModData.children (snd sel))].
Proof.
  intros ask t [ps e] Hfind Hps Hget Hroot. cbn [fst snd] in *.
  assert (He : ModData.is_directory e = true).
  { apply (located_are_dirs t (ps, e)).
    assert (Hin : In (ps, e) (ModData._find_dirs_named t "tslpatchdata"))
      by (rewrite Hfind; now left).
    unfold ModData._find_dirs_named in Hin. now apply filter_In in Hin. }
  destruct e as [n | n cs]; [discriminate |].
  unfold ModData.fix_tree, ModData.many_patch_dirs, ModData.one_patch_dir.
  rewrite Hfind. cbn [List.length Nat.ltb Nat.leb].
  unfold ModData.move. rewrite Hget.
  cbn [ModData.split_last ModData.create_tree ModData.dir_at].
  rewrite Hroot. cbn [ModData.update_at ModData.rename ModData.children].
  unfold ModData.keep_only. rewrite filter_app.
  assert (Hnone : ModData.keep_only "tslpatchdata"
                    (ModData.detach_at t (ModData.path_of (ps, ModData.Dir n cs)))
                  = []).
  { apply (keep_only_none "tslpatchdata" t).
    - unfold ModData.detach_at, ModData.path_of. cbn [fst snd].
      rewrite split_last_snoc.
      destruct ps as [| p ps]; [congruence |].
      apply update_at_names.
    - intros y Hy. rewrite <- same_name_patch.
      destruct (ModData.same_name "tslpatchdata" y) eqn:E; [| reflexivity].
      assert (Hex : existsb (ModData.same_name "tslpatchdata") t = true)
        by (apply existsb_exists; now exists y).
      congruence. }
  unfold ModData.keep_only in Hnone. rewrite Hnone. reflexivity.
Qed.

Lemma nested_patch_bundle_is_lifted_witness :
  ModData.fix_tree (fun _ => None)
    [ModData.Dir "MyMod"
       [ModData.Dir "TSLPatchData" [ModData.File "changes.ini"];
        ModData.File "TSLPatcher.exe"];
     ModData.File "readme.txt"] =
  Some [ModData.Dir "tslpatchdata" [ModData.File "changes.ini"]].
Proof.
  apply (nested_patch_bundle_is_lifted (fun _ => None)
           [ModData.Dir "MyMod"
              [ModData.Dir "TSLPatchData" [ModData.File "changes.ini"];
               ModData.File "TSLPatcher.exe"];
            ModData.File "readme.txt"]
           (["MyMod"],
            ModData.Dir "TSLPatchData" [ModData.File "changes.ini"])).
  - reflexivity.
  - discriminate.
  - reflexivity.
  - reflexivity.
Defined.

(** X16.  A tree made of one [tslpatchdata] folder with no folder of that
    name inside is reported as Fixable, and fixing it returns it
    unchanged. *)
Theorem lone_patch_bundle_stays_fixable :
  forall (ask : ModData.dialog) (n : string) (cs : list ModData.entry),
    PyStr.lower n = "tslpatchdata" ->
    forallb (all_dirs not_patch_data) cs = true ->
    ModData.dataLooksValid [ModData.Dir n cs] = ModData.FIXABLE
    /\ ModData.fix_tree ask [ModData.Dir n cs] = Some [ModData.Dir n cs].
Proof.
  intros ask n cs Hn Hcs. split.
  - unfold ModData.dataLooksValid.
    rewrite (patch_dir_found [ModData.Dir n cs] ([], ModData.Dir n cs));
      [reflexivity | | exact Hn].
    apply root_dir_located; [now left | reflexivity].
  - unfold ModData.fix_tree, ModData.many_patch_dirs, ModData.one_patch_dir.
    rewrite (bundle_alone_found n cs Hn Hcs).
    cbn [List.length Nat.ltb Nat.leb].
    unfold ModData.move, ModData.path_of. cbn [fst snd app ModData.name].
    pose proof (same_name_refl (ModData.Dir n cs)) as Hs.
    cbn [ModData.name] in Hs.
    cbn [ModData.get find]. rewrite Hs.
    cbn [ModData.split_last ModData.create_tree ModData.dir_at existsb].
    rewrite same_name_patch. cbn [ModData.name]. rewrite Hn.
    cbn [String.eqb Ascii.eqb Bool.eqb orb].
    unfold ModData.keep_only. cbn [filter ModData.name]. rewrite Hn.
    reflexivity.
Qed.

Lemma lone_patch_bundle_stays_fixable_witness :
  ModData.dataLooksValid
    [ModData.Dir "tslpatchdata" [ModData.File "changes.ini"]] =
  ModData.FIXABLE
  /\ ModData.fix_tree (fun _ => None)
       [ModData.Dir "tslpatchdata" [ModData.File "changes.ini"]] =
     Some [ModData.Dir "tslpatchdata" [ModData.File "changes.ini"]].
Proof.
  apply (lone_patch_bundle_stays_fixable (fun _ => None) "tslpatchdata"
           [ModData.File "changes.ini"]).
  - reflexivity.
  - reflexivity.
Defined.

(* ================================================================== *)
(** ** Loose files at the root *)
(* ================================================================== *)

Section LooseFacts.

Import PyStr PyDict ModData.

#[local] Arguments mem : simpl never.
#[local] Arguments lower : simpl never.

Lemma all_files_no_dirs (t : tree) :
  all_files t = true -> _iter_dirs t = [].
Proof. intros H. unfold _iter_dirs. now apply files_have_no_dirs. Qed.

Lemma all_files_loose_valid (t : tree) :
  all_files t = true -> loose_valid t = filter not_ignored t.
Proof.
  intros H. unfold loose_valid. now rewrite (filter_all _ t H).
Qed.

Lemma all_files_root_dirs (t : tree) :
  all_files t = true -> root_dirs t = [].
Proof.
  intros H. unfold root_dirs. apply filter_nil. intros x Hx.
  unfold all_files in H. rewrite forallb_forall in H.
  now apply negb_true_iff, H.
Qed.

Lemma ensure_override_files (t : tree) :
  all_files t = true ->
  (forall y, In y t -> same_name "override" y = false) ->
  ensure_override t = Some (t ++ [Dir "override" []]).
Proof.
  intros Hf Hn. unfold ensure_override, _find_dirs_named.
  rewrite (all_files_no_dirs t Hf). cbn [filter].
  unfold addDirectory. cbn [create_tree].
  now rewrite (find_absent _ t Hn).
Qed.

(** One root file goes to [override]. *)
Lemma move_loose (before after moved : list entry) (cn : string) :
  (forall y, In y before -> same_name cn y = false) ->
  (forall y, In y (before ++ File cn :: after) ->
             same_name "override" y = false) ->
  (forall y, In y moved -> same_name cn y = false) ->
  move (before ++ File cn :: after ++ [Dir "override" moved])
       [cn] ["override"; cn] =
  before ++ after ++ [Dir "override" (moved ++ [File cn])].
Proof.
  intros Hb Ho Hm.
  assert (Hov : same_name "override" (Dir "override" moved) = true)
    by reflexivity.
  assert (Hfind : find (same_name "override")
                       (before ++ File cn :: after ++ [Dir "override" moved])
                  = Some (Dir "override" moved)).
  { rewrite app_comm_cons, app_assoc. now apply find_skip. }
  unfold move. cbn [get].
  rewrite (find_skip (same_name cn) before _ (File cn) Hb
             (same_name_refl (File cn))).
  cbn [split_last create_tree]. rewrite Hfind.
  rewrite (map_first_found _ _ _ _ Hfind eq_refl).
  cbn [dir_at]. rewrite Hfind.
  assert (Hnew : existsb (same_name cn) moved = false).
  { apply not_true_iff_false. intros Hex. apply existsb_exists in Hex.
    destruct Hex as [y [Hy Hs]]. rewrite (Hm y Hy) in Hs. discriminate Hs. }
  rewrite Hnew. unfold detach_at. cbn [split_last update_at].
  rewrite (remove_first_skip (same_name cn) before _ (File cn) Hb
             (same_name_refl (File cn))).
  rewrite app_assoc.
  rewrite (map_first_skip (same_name "override") _ (before ++ after) []
             (Dir "override" moved)); [| | exact Hov].
  - cbn [rename]. now rewrite <- app_assoc.
  - intros y Hy. apply Ho. apply in_app_or in Hy.
    apply in_or_app. destruct Hy as [Hy | Hy]; [now left | right; now right].
Qed.

(** The loop moves the files that are not ignored, in order, and leaves
    the others where they are. *)
Lemma gather_moves (todo : list entry) :
  forall kept moved : list entry,
    NoDup (map lname (kept ++ todo)) ->
    (forall y, In y (kept ++ todo) -> is_directory y = false) ->
    (forall y, In y (kept ++ todo) -> same_name "override" y = false) ->
    (forall x y, In x todo -> In y moved -> lname x <> lname y) ->
    fold_left loose_step (filter not_ignored todo)
              (kept ++ todo ++ [Dir "override" moved]) =
    kept ++ filter (fun f => negb (not_ignored f)) todo ++
    [Dir "override" (moved ++ filter not_ignored todo)].
Proof.
  induction todo as [| c todo IH]; intros kept moved Hnd Hfiles Hov Hmv.
  - cbn [filter fold_left app]. now rewrite app_nil_r.
  - assert (Hc : is_directory c = false)
      by (apply Hfiles, in_or_app; right; now left).
    destruct c as [cn | cn ccs]; [| discriminate].
    assert (Hnd' : NoDup (map lname ((kept ++ [File cn]) ++ todo)))
      by now rewrite <- app_assoc.
    cbn [filter]. destruct (not_ignored (File cn)) eqn:E; cbn [negb].
    + cbn [fold_left]. unfold loose_step at 2. cbn [name].
      cbn [app]. rewrite move_loose.
      * rewrite (IH kept (moved ++ [File cn])).
        -- now rewrite <- app_assoc.
        -- rewrite map_app in Hnd. cbn [map] in Hnd.
           apply NoDup_remove_1 in Hnd. now rewrite map_app.
        -- intros y Hy. apply Hfiles. apply in_app_or in Hy.
           apply in_or_app. destruct Hy; [now left | right; now right].
        -- intros y Hy. apply Hov. apply in_app_or in Hy.
           apply in_or_app. destruct Hy; [now left | right; now right].
        -- intros x y Hx Hy. apply in_app_or in Hy.
           destruct Hy as [Hy | [<- | []]].
           ++ apply Hmv; [now right | exact Hy].
           ++ rewrite map_app in Hnd. cbn [map] in Hnd.
              apply NoDup_remove_2 in Hnd. intros Eq. apply Hnd.
              apply in_or_app. right. rewrite <- Eq. now apply in_map.
      * intros y Hy. apply (same_name_lname (File cn) y). intros Eq.
        rewrite map_app in Hnd. cbn [map] in Hnd.
        apply NoDup_remove_2 in Hnd. apply Hnd. apply in_or_app. left.
        rewrite Eq. now apply in_map.
      * exact Hov.
      * intros y Hy. apply (same_name_lname (File cn) y).
        apply Hmv; [now left | exact Hy].
    + replace (kept ++ (File cn :: todo) ++ [Dir "override" moved])
        with ((kept ++ [File cn]) ++ todo ++ [Dir "override" moved])
        by now rewrite <- app_assoc.
      rewrite (IH (kept ++ [File cn]) moved).
      * now rewrite <- app_assoc.
      * exact Hnd'.
      * intros y Hy. apply Hfiles. now rewrite <- app_assoc in Hy.
      * intros y Hy. apply Hov. now rewrite <- app_assoc in Hy.
      * intros x y Hx Hy. apply Hmv; [now right | exact Hy].
Qed.

(** No name of the top level ends in an ignored extension. *)
Lemma ignored_not_top (n : string) :
  endswith_any (lower n) _ignored_exts = true ->
  mem (lower n) valid_top = false.
Proof.
  generalize (lower n). clear n. intros s H.
  destruct (mem s valid_top) eqn:E; [| reflexivity].
  apply mem_In in E. vm_compute in E.
  repeat (destruct E as [<- | E]; [vm_compute in H; discriminate H |]).
  destruct E.
Qed.

Lemma forallb_filter {A} (p : A -> bool) (l : list A) :
  forallb p (filter p l) = true.
Proof.
  apply forallb_forall. intros x Hx. now apply filter_In in Hx.
Qed.

Lemma all_files_filter (p : entry -> bool) (t : tree) :
  all_files t = true -> all_files (filter p t) = true.
Proof.
  unfold all_files. rewrite !forallb_forall. intros H x Hx.
  apply filter_In in Hx. now apply H.
Qed.

(** [_cleanup_root] on what the loop leaves. *)
Lemma cleanup_gathered (rest moved : list entry) :
  (forall y, In y rest -> not_ignored y = false) ->
  all_files moved = true ->
  _cleanup_root (rest ++ [Dir "override" moved]) =
  [Dir "override" (filter kept_in_override moved)].
Proof.
  intros Hrest Hmoved. unfold _cleanup_root.
  rewrite filter_app. rewrite (filter_nil _ rest).
  2:{ intros y Hy. apply ignored_not_top.
      apply Hrest in Hy. unfold not_ignored in Hy.
      now apply negb_false_iff in Hy. }
  cbn [app filter name].
  change (mem (lower "override") valid_top) with true. cbv iota.
  unfold _find_dirs_named, _iter_dirs. cbn [flat_map walk app].
  rewrite (files_have_no_dirs _ moved Hmoved). cbn [app filter snd name].
  change (String.eqb (lower "override") (lower "override")) with true.
  cbv iota. unfold path_of. cbn [fst snd app name update_at map_first].
  change (same_name "override" (Dir "override" moved)) with true.
  reflexivity.
Qed.

Lemma gather_loose_files (t : tree) :
  all_files t = true ->
  NoDup (map lname t) ->
  (forall y, In y t -> same_name "override" y = false) ->
  gather_loose t =
  Some [Dir "override" (filter kept_in_override (loose_valid t))].
Proof.
  intros Hf Hnd Hov. unfold gather_loose.
  rewrite (ensure_override_files t Hf Hov), (all_files_loose_valid t Hf).
  change (fun acc f => move acc [name f] ["override"; name f])
    with loose_step.
  pose proof (gather_moves t [] [] Hnd) as Hg. cbn [app] in Hg.
  rewrite Hg; [f_equal | | |].
  - apply cleanup_gathered.
    + intros y Hy. apply filter_In in Hy. now apply negb_true_iff, Hy.
    + now apply all_files_filter.
  - intros y Hy. unfold all_files in Hf. rewrite forallb_forall in Hf.
    now apply negb_true_iff, Hf.
  - exact Hov.
  - intros x y _ [].
Qed.

End LooseFacts.

(** X17.  A mod that is nothing but files at its root, with distinct names
    and at least one that is not documentation, is fixed to a single
    [override] folder holding, in their order, the files whose extension is
    accepted by some game folder; every other file is dropped, a
    [dialog.tlk] included.  The result is Valid. *)
Theorem loose_files_are_gathered_in_override :
  forall (ask : ModData.dialog) (t : ModData.tree),
    all_files t = true ->
    NoDup (map lname t) ->
    existsb (ModData.same_name "override") t = false ->
    ModData.loose_valid t <> [] ->
    ModData.fix_tree ask t =
    Some [ModData.Dir "override"
            (filter ModData.kept_in_override (ModData.loose_valid t))]
    /\ ModData.dataLooksValid
         [ModData.Dir "override"
            (filter ModData.kept_in_override (ModData.loose_valid t))] =
       ModData.VALID
    /\ ModData.kept_in_override (ModData.File "dialog.tlk") = false.
Proof.
  intros ask t Hf Hnd Hov Hloose. split; [| split].
  - assert (Hov' : forall y, In y t ->
                             ModData.same_name "override" y = false).
    { intros y Hy.
      destruct (ModData.same_name "override" y) eqn:E; [| reflexivity].
      assert (Hex : existsb (ModData.same_name "override") t = true)
        by (apply existsb_exists; now exists y).
      congruence. }
    unfold ModData.fix_tree, ModData.many_patch_dirs, ModData.one_patch_dir,
      ModData.many_mod_dirs, ModData.valid_dirs, ModData._find_dirs_named.
    rewrite (all_files_no_dirs t Hf). cbn [filter List.length Nat.ltb Nat.leb].
    unfold ModData.fix_unprompted, ModData.single_root_dir.
    rewrite (all_files_root_dirs t Hf).
    unfold ModData.loose_files.
    destruct (ModData.loose_valid t) as [| c l] eqn:E; [congruence |].
    rewrite <- E. now rewrite gather_loose_files.
  - apply clean_override_valid; [reflexivity | apply forallb_filter].
  - reflexivity.
Qed.

Lemma loose_files_are_gathered_in_override_witness :
  ModData.fix_tree (fun _ => None)
    [ModData.File "sky.tga"; ModData.File "readme.txt";
     ModData.File "dialog.tlk"; ModData.File "appearance.2da"] =
  Some [ModData.Dir "override"
          [ModData.File "sky.tga"; ModData.File "appearance.2da"]].
Proof.
  apply (loose_files_are_gathered_in_override (fun _ => None)
           [ModData.File "sky.tga"; ModData.File "readme.txt";
            ModData.File "dialog.tlk"; ModData.File "appearance.2da"]).
  - reflexivity.
  - repeat constructor; simpl; intuition discriminate.
  - reflexivity.
  - discriminate.
Defined.

(* ================================================================== *)
(** ** Choices in the prompts, and the verdict on loose files *)
(* ================================================================== *)

Section ChoiceFacts.

Import PyStr PyDict ModData.

#[local] Arguments mem : simpl never.
#[local] Arguments lower : simpl never.

Lemma remove_first_In (p : entry -> bool) (l : list entry) (x : entry) :
  In x (remove_first p l) -> In x l.
Proof.
  induction l as [| y l IH]; [intros [] |].
  cbn [remove_first]. destruct (p y); intros H; [now right |].
  destruct H as [<- | H]; [now left | right; now apply IH].
Qed.

(** Detaching an entry brings no new name to the root. *)
Lemma detach_names (t : tree) (path : list string) (x : entry) :
  In x (detach_at t path) -> In (name x) (map name t).
Proof.
  unfold detach_at. destruct (split_last path) as [[dirpath n] |].
  - destruct dirpath as [| p ps].
    + cbn [update_at]. intros H. apply in_map. now apply remove_first_In in H.
    + intros H. apply (in_map name) in H. now rewrite update_at_names in H.
  - apply in_map.
Qed.

Lemma keep_only_absent (n : string) (t t' : tree) :
  (forall x, In x t' -> In (name x) (map name t)) ->
  existsb (same_name n) t = false ->
  lower n = n ->
  keep_only n t' = [].
Proof.
  intros Hn Ht Hl. unfold keep_only. apply filter_nil. intros x Hx.
  apply Hn in Hx. apply in_map_iff in Hx. destruct Hx as [y [Ey Hy]].
  rewrite <- Ey.
  destruct (String.eqb (lower (name y)) n) eqn:E; [| reflexivity].
  assert (Hex : existsb (same_name n) t = true).
  { apply existsb_exists. exists y. split; [exact Hy |].
    unfold same_name. now rewrite Hl. }
  congruence.
Qed.

(** The chosen directory becomes the only entry of the root. *)
Lemma move_to_root_and_keep (t : tree) (d : located) (target : string) :
  is_directory (snd d) = true ->
  get t (path_of d) = Some (snd d) ->
  existsb (same_name target) t = false ->
  lower target = target ->
  keep_only target (move t (path_of d) [target]) =
  [Dir target (children (snd d))].
Proof.
  intros Hd Hget Hroot Hl. destruct d as [ps e]. cbn [snd] in *.
  destruct e as [n | n cs]; [discriminate |].
  unfold move. rewrite Hget.
  cbn [split_last create_tree dir_at]. rewrite Hroot.
  cbn [update_at rename children].
  unfold keep_only. rewrite filter_app.
  fold (keep_only target (detach_at t (path_of (ps, Dir n cs)))).
  rewrite (keep_only_absent target t); [| apply detach_names | exact Hroot
                                         | exact Hl].
  cbn [app filter name]. rewrite Hl, String.eqb_refl. reflexivity.
Qed.

End ChoiceFacts.

(** X18.  In the prompt for several [tslpatchdata] folders a folder at the
    root is offered under the empty name of the root, and choosing it
    counts as no choice: the rule does nothing and the later rules
    decide. *)
Theorem root_bundle_cannot_be_chosen :
  forall (ask : ModData.dialog) (t : ModData.tree) (d : ModData.located),
    In d (ModData._find_dirs_named t "tslpatchdata") ->
    fst d = [] ->
    ask (map ModData.parent_name (ModData._find_dirs_named t "tslpatchdata"))
      = Some (ModData.parent_name d) ->
    ModData.parent_name d = ""
    /\ ModData.many_patch_dirs ask t = ModData.FellThrough.
Proof.
  intros ask t d _ Hroot Hask.
  assert (Hn : ModData.parent_name d = "").
  { unfold ModData.parent_name. now rewrite Hroot. }
  split; [exact Hn |].
  unfold ModData.many_patch_dirs. destruct (1 <? _); [| reflexivity].
  unfold ModData.choose_and_keep. rewrite Hask, Hn. reflexivity.
Qed.

Lemma root_bundle_cannot_be_chosen_witness :
  ModData.many_patch_dirs (fun options => hd_error options)
    [ModData.Dir "tslpatchdata" [ModData.File "changes.ini"];
     ModData.Dir "Alt" [ModData.Dir "tslpatchdata" []]] =
  ModData.FellThrough.
Proof.
  apply (root_bundle_cannot_be_chosen (fun options => hd_error options)
           [ModData.Dir "tslpatchdata" [ModData.File "changes.ini"];
            ModData.Dir "Alt" [ModData.Dir "tslpatchdata" []]]
           ([], ModData.Dir "tslpatchdata" [ModData.File "changes.ini"])).
  - now left.
  - reflexivity.
  - reflexivity.
Defined.

(** X19.  In the prompt for several folders with mod files the options are
    the folder names.  The folder chosen (the last one of that name) is
    moved to the root as [override] with everything it holds, folders and
    documentation included, and every other entry is dropped; no cleanup
    follows. *)
Theorem chosen_mod_folder_becomes_override :
  forall (ask : ModData.dialog) (t : ModData.tree)
         (l1 l2 : list ModData.located) (d : ModData.located)
         (choice : string),
    ModData.has_patch_data t = false ->
    ModData.valid_dirs t = l1 ++ d :: l2 ->
    1 < List.length (l1 ++ d :: l2) ->
    ask (map (fun d => ModData.name (snd d)) (l1 ++ d :: l2)) = Some choice ->
    choice <> "" ->
    ModData.name (snd d) = choice ->
    (forall d', In d' l2 -> ModData.name (snd d') <> choice) ->
    ModData.get t (ModData.path_of d) = Some (snd d) ->
    existsb (ModData.same_name "override") t = false ->
    ModData.fix_tree ask t =
    Some [ModData.Dir "override" (ModData.children (snd d))].
Proof.
  intros ask t l1 l2 d choice Hp Hvd Hlen Hask Hne Hd Hl2 Hget Hroot.
  unfold ModData.fix_tree, ModData.many_patch_dirs, ModData.one_patch_dir.
  rewrite (no_patch_dirs t Hp). cbn [List.length Nat.ltb Nat.leb].
  unfold ModData.many_mod_dirs. rewrite Hvd.
  apply Nat.ltb_lt in Hlen. rewrite Hlen.
  rewrite (choose_last ask t (fun d => ModData.name (snd d)) l1 l2 d
             "override" choice Hask Hne Hd Hl2).
  rewrite move_to_root_and_keep; try assumption; try reflexivity.
  apply (located_are_dirs t).
  assert (Hin : In d (ModData.valid_dirs t))
    by (rewrite Hvd; apply in_or_app; right; now left).
  unfold ModData.valid_dirs in Hin. now apply filter_In in Hin.
Qed.

Lemma chosen_mod_folder_becomes_override_witness :
  ModData.fix_tree (fun _ => Some "Full")
    [ModData.Dir "Lite" [ModData.File "sky.tga"];
     ModData.Dir "Full" [ModData.File "sky.tga"; ModData.File "readme.txt";
                         ModData.Dir "source" [ModData.File "sky.psd"]]] =
  Some [ModData.Dir "override"
          [ModData.File "sky.tga"; ModData.File "readme.txt";
           ModData.Dir "source" [ModData.File "sky.psd"]]].
Proof.
  apply (chosen_mod_folder_becomes_override (fun _ => Some "Full")
           [ModData.Dir "Lite" [ModData.File "sky.tga"];
            ModData.Dir "Full"
              [ModData.File "sky.tga"; ModData.File "readme.txt";
               ModData.Dir "source" [ModData.File "sky.psd"]]]
           [([], ModData.Dir "Lite" [ModData.File "sky.tga"])]
           [(["Full"], ModData.Dir "source" [ModData.File "sky.psd"])]
           ([], ModData.Dir "Full"
                  [ModData.File "sky.tga"; ModData.File "readme.txt";
                   ModData.Dir "source" [ModData.File "sky.psd"]])
           "Full").
  - reflexivity.
  - reflexivity.
  - simpl. lia.
  - reflexivity.
  - discriminate.
  - reflexivity.
  - intros d' [<- | []]. discriminate.
  - reflexivity.
  - reflexivity.
Defined.

Section AgreementFacts.

Import PyStr PyDict ModData.

#[local] Arguments mem : simpl never.
#[local] Arguments lower : simpl never.

Lemma append_split (q : string) :
  forall p a b : string,
    (p ++ a)%string = (q ++ b)%string ->
    String.length q <= String.length p ->
    exists r, p = (q ++ r)%string /\ b = (r ++ a)%string.
Proof.
  induction q as [| c q IH]; intros p a b H Hlen.
  - exists p. split; [reflexivity | now symmetry].
  - destruct p as [| c' p]; [simpl in Hlen; lia |].
    cbn [String.append] in H. injection H as -> H.
    destruct (IH p a b H) as [r [-> ->]]; [simpl in Hlen; lia |].
    now exists r.
Qed.

(** Of two suffixes of a string the shorter one is a suffix of the other. *)
Lemma suffix_of_suffix (s a b : string) :
  endswith s a = true -> endswith s b = true ->
  String.length a <= String.length b ->
  endswith b a = true.
Proof.
  intros Ha Hb Hlen.
  apply endswith_split in Ha, Hb.
  assert (E : (drop_last (String.length a) s ++ a)%string =
              (drop_last (String.length b) s ++ b)%string) by congruence.
  apply append_split in E.
  - destruct E as [r [_ ->]]. apply endswith_append.
  - apply (f_equal String.length) in Ha, Hb.
    rewrite length_append in Ha, Hb. lia.
Qed.

(** No accepted extension ends in an ignored one, nor the other way
    round. *)
Lemma accepted_is_not_ignored (s : string) :
  endswith_any s all_valid_exts = true ->
  endswith_any s _ignored_exts = false.
Proof.
  intros Hv. apply not_true_iff_false. intros Hi.
  unfold endswith_any in Hv, Hi. apply existsb_exists in Hv, Hi.
  destruct Hv as [v [Hv Hsv]], Hi as [i [Hi Hsi]].
  assert (Htable : forallb
            (fun v => forallb (fun i => negb (endswith i v)
                                        && negb (endswith v i))
                              _ignored_exts) all_valid_exts = true)
    by (vm_compute; reflexivity).
  rewrite forallb_forall in Htable. specialize (Htable v Hv).
  rewrite forallb_forall in Htable. specialize (Htable i Hi).
  apply andb_true_iff in Htable. destruct Htable as [H1 H2].
  apply negb_true_iff in H1, H2.
  destruct (Nat.le_ge_cases (String.length v) (String.length i)) as [L | L].
  - rewrite (suffix_of_suffix s v i Hsv Hsi L) in H1. discriminate.
  - rewrite (suffix_of_suffix s i v Hsi Hsv L) in H2. discriminate.
Qed.

(** The verdict on a root that holds files only. *)
Lemma verdict_on_files (t : tree) :
  all_files t = true ->
  dataLooksValid t =
  if has_loose_valid_file t then FIXABLE
  else if has_dialog_tlk t then VALID else INVALID.
Proof.
  intros Hf. unfold dataLooksValid.
  assert (Hfiles : forall e, In e t -> is_directory e = false).
  { intros e He. unfold all_files in Hf. rewrite forallb_forall in Hf.
    now apply negb_true_iff, Hf. }
  assert (H1 : has_patch_data t = false).
  { unfold has_patch_data, _find_dirs_named.
    now rewrite (all_files_no_dirs t Hf). }
  assert (H2 : has_restricted_dir t = false).
  { unfold has_restricted_dir. now rewrite (all_files_no_dirs t Hf). }
  assert (H3 : has_wrapper_folder t = false).
  { unfold has_wrapper_folder. apply not_true_iff_false. intros H.
    apply existsb_exists in H. destruct H as [e [He H]].
    now rewrite (Hfiles e He) in H. }
  assert (H4 : has_stray_mod_dir t = false).
  { unfold has_stray_mod_dir. now rewrite (all_files_no_dirs t Hf). }
  assert (H5 : has_game_dir t = false).
  { unfold has_game_dir, _find_dirs_named.
    rewrite (all_files_no_dirs t Hf). cbn [filter].
    now induction valid_keys. }
  now rewrite H1, H2, H3, H4, H5.
Qed.

Lemma fixable_files_are_loose (t : tree) :
  all_files t = true -> dataLooksValid t = FIXABLE -> loose_valid t <> [].
Proof.
  intros Hf Hv. rewrite (verdict_on_files t Hf) in Hv.
  destruct (has_loose_valid_file t) eqn:E.
  - unfold has_loose_valid_file in E. apply existsb_exists in E.
    destruct E as [e [He H]]. apply andb_true_iff in H.
    destruct H as [_ H]. apply accepted_is_not_ignored in H.
    rewrite (all_files_loose_valid t Hf). intros Hnil.
    assert (Hin : In e (filter not_ignored t)).
    { apply filter_In. split; [exact He |]. unfold not_ignored.
      now rewrite H. }
    now rewrite Hnil in Hin.
  - destruct (has_dialog_tlk t); discriminate.
Qed.

End AgreementFacts.

(** X20.  On a mod that is nothing but files the fixer agrees with the
    checker: the verdict is Fixable exactly when some file name ends in an
    accepted extension, and then [fix] turns the mod into a single
    [override] folder that is Valid. *)
Theorem fixable_loose_files_become_valid :
  forall (ask : ModData.dialog) (t : ModData.tree),
    all_files t = true ->
    NoDup (map lname t) ->
    existsb (ModData.same_name "override") t = false ->
    ModData.dataLooksValid t = ModData.FIXABLE ->
    ModData.has_loose_valid_file t = true
    /\ exists kept,
         ModData.fix_tree ask t = Some [ModData.Dir "override" kept]
         /\ ModData.dataLooksValid [ModData.Dir "override" kept] =
            ModData.VALID.
Proof.
  intros ask t Hf Hnd Hov Hv. split.
  - rewrite (verdict_on_files t Hf) in Hv.
    destruct (ModData.has_loose_valid_file t); [reflexivity |].
    destruct (ModData.has_dialog_tlk t); discriminate.
  - exists (filter ModData.kept_in_override (ModData.loose_valid t)).
    pose proof (fixable_files_are_loose t Hf Hv) as Hloose.
    assert (Hov' : forall y, In y t ->
                             ModData.same_name "override" y = false).
    { intros y Hy.
      destruct (ModData.same_name "override" y) eqn:E; [| reflexivity].
      assert (Hex : existsb (ModData.same_name "override") t = true)
        by (apply existsb_exists; now exists y).
      congruence. }
    split.
    + unfold ModData.fix_tree, ModData.many_patch_dirs,
        ModData.one_patch_dir, ModData.many_mod_dirs, ModData.valid_dirs,
        ModData._find_dirs_named.
      rewrite (all_files_no_dirs t Hf).
      cbn [filter List.length Nat.ltb Nat.leb].
      unfold ModData.fix_unprompted, ModData.single_root_dir.
      rewrite (all_files_root_dirs t Hf).
      unfold ModData.loose_files.
      destruct (ModData.loose_valid t) as [| c l] eqn:E; [congruence |].
      rewrite <- E. now rewrite gather_loose_files.
    + apply clean_override_valid; [reflexivity | apply forallb_filter].
Qed.

Lemma fixable_loose_files_become_valid_witness :
  ModData.has_loose_valid_file
    [ModData.File "sky.tga"; ModData.File "readme.txt"] = true
  /\ exists kept,
       ModData.fix_tree (fun _ => None)
         [ModData.File "sky.tga"; ModData.File "readme.txt"] =
       Some [ModData.Dir "override" kept]
       /\ ModData.dataLooksValid [ModData.Dir "override" kept] =
          ModData.VALID.
Proof.
  apply (fixable_loose_files_become_valid (fun _ => None)
           [ModData.File "sky.tga"; ModData.File "readme.txt"]).
  - reflexivity.
  - repeat constructor; simpl; intuition discriminate.
  - reflexivity.
  - reflexivity.
Defined.

(* ================================================================== *)
(** ** A game folder inside a single wrapper folder *)
(* ================================================================== *)

Section WrapperFacts.

Import PyStr PyDict ModData.

#[local] Arguments mem : simpl never.
#[local] Arguments lower : simpl never.

Lemma flatten_no_files (dn : string) (dcs : list entry) :
  forallb is_directory dcs = true ->
  forall acc, fold_left (flatten_step dn) dcs acc = acc.
Proof.
  induction dcs as [| c dcs IH]; intros H acc; [reflexivity |].
  cbn [forallb] in H. apply andb_true_iff in H. destruct H as [Hc H].
  cbn [fold_left]. unfold flatten_step at 2. rewrite Hc. now apply IH.
Qed.

Lemma strangers_not_override (t : tree) :
  (forall e, In e t -> mem (lower (name e)) valid_top = false) ->
  forall y, In y t -> same_name "override" y = false.
Proof.
  intros H y Hy. unfold same_name.
  destruct (String.eqb (lower (name y)) (lower "override")) eqn:E;
    [| reflexivity].
  apply String.eqb_eq in E. specialize (H y Hy). rewrite E in H.
  discriminate H.
Qed.

Lemma cleanup_strangers (t : tree) :
  (forall e, In e t -> mem (lower (name e)) valid_top = false) ->
  _cleanup_root t = [].
Proof.
  intros H. unfold _cleanup_root.
  now rewrite (filter_nil _ t H).
Qed.

Lemma cleanup_strangers_override (t : tree) :
  (forall e, In e t -> mem (lower (name e)) valid_top = false) ->
  _cleanup_root (t ++ [Dir "override" []]) = [Dir "override" []].
Proof.
  intros H. unfold _cleanup_root.
  rewrite filter_app, (filter_nil _ t H).
  reflexivity.
Qed.

End WrapperFacts.

(** X21.  A mod whose root holds a single folder that is not a top-level
    name, with nothing but folders directly inside, loses every file in
    [fix] when no prompt intervenes: the root comes back empty when some
    folder is called [override] anywhere, and with an empty [override]
    otherwise.  This is so for a game folder with files inside the wrapper
    ([MyMod/Override/sky.tga]), which [dataLooksValid] reports as
    Fixable. *)
Theorem wrapped_game_folder_is_emptied :
  forall (ask : ModData.dialog) (t : ModData.tree) (dn : string)
         (dcs : list ModData.entry),
    ModData.root_dirs t = [ModData.Dir dn dcs] ->
    forallb ModData.is_directory dcs = true ->
    (forall e, In e t ->
               PyStr.mem (PyStr.lower (ModData.name e)) ModData.valid_top
               = false) ->
    ModData.has_patch_data t = false ->
    dismissed ask \/ List.length (ModData.valid_dirs t) <= 1 ->
    ModData.fix_tree ask t =
      Some (match ModData._find_dirs_named t "override" with
            | [] => [ModData.Dir "override" []]
            | _ :: _ => []
            end)
    /\ (ModData.has_restricted_dir t = false ->
        ModData.wraps_game_dir (ModData.Dir dn dcs) = true ->
        ModData.dataLooksValid t = ModData.FIXABLE).
Proof.
  intros ask t dn dcs Hroot Hdcs Hnames Hp Hask. split.
  - rewrite (fix_tree_flattens ask t _ Hp Hask Hroot), flatten_unfold.
    unfold ModData.ensure_override.
    destruct (ModData._find_dirs_named t "override") as [| d l].
    + unfold ModData.addDirectory. cbn [ModData.create_tree].
      rewrite (find_absent _ t (strangers_not_override t Hnames)).
      rewrite (flatten_no_files dn dcs Hdcs).
      now rewrite cleanup_strangers_override.
    + rewrite (flatten_no_files dn dcs Hdcs).
      now rewrite cleanup_strangers.
  - intros Hr Hw. unfold ModData.dataLooksValid. rewrite Hp, Hr.
    assert (Hin : In (ModData.Dir dn dcs) t).
    { assert (H : In (ModData.Dir dn dcs) (ModData.root_dirs t))
        by (rewrite Hroot; now left).
      unfold ModData.root_dirs in H. now apply filter_In in H. }
    replace (ModData.has_wrapper_folder t) with true; [reflexivity |].
    symmetry. unfold ModData.has_wrapper_folder. apply existsb_exists.
    exists (ModData.Dir dn dcs). split; [exact Hin |].
    rewrite Hw, orb_true_r, andb_true_r. cbn [ModData.is_directory andb].
    apply negb_true_iff.
    destruct (PyStr.mem (PyStr.lower (ModData.name (ModData.Dir dn dcs)))
                        ModData.valid_keys) eqn:E; [| reflexivity].
    specialize (Hnames _ Hin). apply mem_In in E.
    apply mem_false in Hnames. exfalso. apply Hnames.
    unfold ModData.valid_top. apply in_or_app. now left.
Qed.

Lemma wrapped_game_folder_is_emptied_witness :
  ModData.fix_tree (fun _ => None)
    [ModData.Dir "MyMod" [ModData.Dir "Override" [ModData.File "sky.tga"]];
     ModData.File "readme.txt"] = Some []
  /\ (ModData.has_restricted_dir
        [ModData.Dir "MyMod" [ModData.Dir "Override" [ModData.File "sky.tga"]];
         ModData.File "readme.txt"] = false ->
      ModData.wraps_game_dir
        (ModData.Dir "MyMod" [ModData.Dir "Override" [ModData.File "sky.tga"]])
        = true ->
      ModData.dataLooksValid
        [ModData.Dir "MyMod" [ModData.Dir "Override" [ModData.File "sky.tga"]];
         ModData.File "readme.txt"] = ModData.FIXABLE).
Proof.
  apply (wrapped_game_folder_is_emptied (fun _ => None)
           [ModData.Dir "MyMod"
              [ModData.Dir "Override" [ModData.File "sky.tga"]];
            ModData.File "readme.txt"]
           "MyMod" [ModData.Dir "Override" [ModData.File "sky.tga"]]).
  - reflexivity.
  - reflexivity.
  - intros e [<- | [<- | []]]; reflexivity.
  - reflexivity.
  - right. simpl. lia.
Defined.

(* ================================================================== *)
(** ** Scanning, the Textures tab and the mapping of [dialog.tlk] *)
(* ================================================================== *)

Section ScanFacts.

Import PyStr PyDict Textures.

#[local] Arguments mem : simpl never.
#[local] Arguments lower : simpl never.

Lemma scan_file_skips (source : string) (st : scan_state) (f : fsnode) :
  is_texture f = false -> scan_file source st f = st.
Proof.
  unfold is_texture, scan_file. intros H.
  destruct (n_is_file f); [| reflexivity]. cbn [andb negb] in *.
  now rewrite H.
Qed.

Lemma scan_root_textures_only (st : scan_state) (r : labelled_root) :
  scan_root st (textures_only r) = scan_root st r.
Proof.
  unfold scan_root, textures_only. cbn [fst snd].
  revert st. induction (snd r) as [| f files IH]; intros st; [reflexivity |].
  cbn [filter fold_left]. destruct (is_texture f) eqn:E.
  - cbn [fold_left]. apply IH.
  - rewrite (scan_file_skips _ _ _ E). apply IH.
Qed.

Lemma scan_roots_textures_only (roots : list labelled_root) :
  forall st,
    fold_left scan_root (map textures_only roots) st =
    fold_left scan_root roots st.
Proof.
  induction roots as [| r roots IH]; intros st; [reflexivity |].
  cbn [map fold_left]. now rewrite scan_root_textures_only, IH.
Qed.

End ScanFacts.

(** X22.  Directories and files of other extensions have no part in the
    result of the scan: removing them from every root leaves the winners
    and the hidden entries as they are. *)
Theorem scan_sees_texture_files_only :
  forall (sources : list Textures.labelled_root)
         (base : option Textures.labelled_root),
    Textures.resolve (map textures_only sources)
                     (option_map textures_only base) =
    Textures.resolve sources base.
Proof.
  intros sources base. unfold Textures.resolve.
  rewrite scan_roots_textures_only.
  destruct base as [g |]; [| reflexivity].
  cbn [option_map]. apply scan_root_textures_only.
Qed.

Section TabFacts.

Import PyStr Game.

#[local] Arguments lower : simpl never.

Lemma scan_tabs_numbered (tabs : list string) :
  scan_tabs tabs = fold_left tab_step (numbered 0 tabs) (None, None).
Proof. reflexivity. Qed.

Lemma numbered_split (pre post : list string) (t : string) :
  forall s,
    numbered s (pre ++ t :: post) =
    numbered s pre ++ (s + List.length pre, t) ::
    numbered (S (s + List.length pre)) post.
Proof.
  unfold numbered. induction pre as [| u pre IH]; intros s.
  - cbn [app List.length seq combine]. now rewrite Nat.add_0_r.
  - cbn [app List.length seq combine]. rewrite IH.
    now rewrite Nat.add_succ_r.
Qed.

Lemma tab_steps_keep_data (tabs : list string) :
  forall s found,
    (forall u, In u tabs -> lower u <> "data") ->
    fst (fold_left tab_step (numbered s tabs) found) = fst found.
Proof.
  unfold numbered. induction tabs as [| u tabs IH]; intros s found H;
    [reflexivity |].
  cbn [List.length seq combine fold_left]. rewrite IH.
  - destruct found as [d v]. cbn [tab_step fst].
    replace (String.eqb (lower u) "data") with false; [reflexivity |].
    symmetry. apply String.eqb_neq. apply H. now left.
  - intros w Hw. apply H. now right.
Qed.

Lemma tab_steps_keep_saves (tabs : list string) :
  forall s found,
    (forall u, In u tabs -> lower u <> "saves") ->
    snd (fold_left tab_step (numbered s tabs) found) = snd found.
Proof.
  unfold numbered. induction tabs as [| u tabs IH]; intros s found H;
    [reflexivity |].
  cbn [List.length seq combine fold_left]. rewrite IH.
  - destruct found as [d v]. cbn [tab_step snd].
    replace (String.eqb (lower u) "saves") with false; [reflexivity |].
    symmetry. apply String.eqb_neq. apply H. now left.
  - intros w Hw. apply H. now right.
Qed.


Lemma last_saves_tab (pre post : list string) (t : string) :
  lower t = "saves" ->
  (forall u, In u post -> lower u <> "saves") ->
  snd (scan_tabs (pre ++ t :: post)) = Some (List.length pre).
Proof.
  intros Ht Hpost. rewrite scan_tabs_numbered, numbered_split.
  rewrite fold_left_app. cbn [fold_left].
  rewrite tab_steps_keep_saves by exact Hpost.
  destruct (fold_left tab_step (numbered 0 pre) (None, None)) as [d v].
  cbn [tab_step snd]. now rewrite Ht.
Qed.

Lemma no_data_tab (tabs : list string) :
  (forall u, In u tabs -> lower u <> "data") ->
  fst (scan_tabs tabs) = None.
Proof.
  intros H. rewrite scan_tabs_numbered.
  now rewrite tab_steps_keep_data.
Qed.

End TabFacts.



Section InsertFacts.

Import PyStr Game.

Lemma init_on_tabs (tabs : list string) :
  tabs <> [] ->
  _init_texture_tab true (Some tabs) =
  Some (insertTab (insert_index tabs) "Textures" tabs).
Proof. destruct tabs; [congruence | reflexivity]. Qed.

Lemma insertTab_between (pre post : list string) (x : string) :
  insertTab (List.length pre) x (pre ++ post) = pre ++ x :: post.
Proof.
  unfold insertTab.
  rewrite firstn_app, firstn_all, Nat.sub_diag.
  rewrite skipn_app, skipn_all, Nat.sub_diag.
  cbn [firstn skipn app]. now rewrite app_nil_r.
Qed.

Lemma insertTab_at_end (tabs : list string) (x : string) :
  insertTab (List.length tabs) x tabs = tabs ++ [x].
Proof.
  pose proof (insertTab_between tabs [] x) as H.
  now rewrite app_nil_r in H.
Qed.

End InsertFacts.

(** X24.  When this plugin is the managed game and no tab is called "data":
    if some tab is called "saves", in any case, the Textures tab is
    inserted directly before the last such tab; if none is and there is at
    least one tab, it is appended.  A tab widget without tabs is left
    without tabs, and nothing is inserted when there is no tab widget or
    when another game is managed. *)
Theorem textures_tab_without_data_tab :
  forall tabs : list string,
    (forall u, In u tabs -> PyStr.lower u <> "data") ->
    (forall pre t post,
        tabs = pre ++ t :: post ->
        PyStr.lower t = "saves" ->
        (forall u, In u post -> PyStr.lower u <> "saves") ->
        Game._init_texture_tab true (Some tabs) =
        Some (pre ++ "Textures" :: t :: post))
    /\ ((forall u, In u tabs -> PyStr.lower u <> "saves") ->
        tabs <> [] ->
        Game._init_texture_tab true (Some tabs) = Some (tabs ++ ["Textures"]))
    /\ Game._init_texture_tab true (Some []) = Some []
    /\ Game._init_texture_tab true None = None
    /\ Game._init_texture_tab false (Some tabs) = Some tabs.
Proof.
  intros tabs Hdata. pose proof (no_data_tab tabs Hdata) as Hd.
  split; [| split; [| repeat split; reflexivity]].
  - intros pre t post -> Ht Hpost.
    pose proof (last_saves_tab pre post t Ht Hpost) as Hs.
    rewrite init_on_tabs by (now destruct pre).
    unfold Game.insert_index.
    destruct (Game.scan_tabs (pre ++ t :: post)) as [d v].
    cbn [fst snd] in Hd, Hs. rewrite Hd, Hs.
    now rewrite insertTab_between.
  - intros Hsaves Hne.
    assert (Hs : snd (Game.scan_tabs tabs) = None).
    { rewrite scan_tabs_numbered. now rewrite tab_steps_keep_saves. }
    rewrite init_on_tabs by exact Hne.
    unfold Game.insert_index.
    destruct (Game.scan_tabs tabs) as [d v].
    cbn [fst snd] in Hd, Hs. rewrite Hd, Hs.
    now rewrite insertTab_at_end.
Qed.

Lemma textures_tab_without_data_tab_witness :
  Game._init_texture_tab true
    (Some ["Plugins"; "Archives"; "SAVES"; "Downloads"]) =
  Some ["Plugins"; "Archives"; "Textures"; "SAVES"; "Downloads"].
Proof.
  refine (proj1 (textures_tab_without_data_tab
                   ["Plugins"; "Archives"; "SAVES"; "Downloads"] _)
                ["Plugins"; "Archives"] "SAVES" ["Downloads"] eq_refl eq_refl _).
  - intros u [<- | [<- | [<- | [<- | []]]]]; discriminate.
  - intros u [<- | []]; discriminate.
Defined.

Section MappingFacts.

Import PyStr Textures Game.

#[local] Arguments lower : simpl never.


End MappingFacts.


